(** * TagStudio Qt driver (src/qt/ts_qt.py): thumbnail job queue, grid
      selection, pagination and the recent-libraries list.

    The Python code is embedded shallowly.  The driver object becomes a
    record, its methods become computations in a small state-and-exception
    monad (a Python method mutates [self] and may raise half-way, keeping the
    mutations done so far), Python integers are [Z], lists are [list], and
    the wall clock read by [time.time()] is an oracle stored in the state. *)

From Stdlib Require Import ZArith List Bool String Ascii Lia Arith.
From Stdlib Require Import QArith.QArith_base.
From Stdlib Require Lists.Finite.
From Stdlib Require Import Sorting.Permutation Sorting.Sorted.
Import ListNotations.
Local Open Scope string_scope.
Local Open Scope Z_scope.

(** ** Python values used by the driver *)

(** Exceptions the modelled code can raise.  [RecursionError] and
    [NotImplementedError] are subclasses of [RuntimeError] in Python. *)
Inductive exn : Type :=
| IndexError | AttributeError | TypeError | ValueError | KeyError
| AssertionError | ZeroDivisionError | OSError | MemoryError
| RuntimeError | RecursionError | NotImplementedError.

(** [isinstance(e, RuntimeError)] : what [except RuntimeError] catches. *)
Definition is_RuntimeError (e : exn) : bool :=
  match e with
  | RuntimeError | RecursionError | NotImplementedError => true
  | _ => false
  end.

(** A float timestamp: either a reading of [time.time()] (in clock units)
    or [sys.float_info.max], which is above every reading. *)
Inductive timestamp : Type :=
| Time (t : N)
| FloatMax.

Definition ts_ltb (a b : timestamp) : bool :=
  match a, b with
  | Time x, Time y => (x <? y)%N
  | Time _, FloatMax => true
  | FloatMax, _ => false
  end.

Definition ts_leb (a b : timestamp) : bool := negb (ts_ltb b a).

(** [range(a, b)] *)
Definition py_range (a b : Z) : list Z :=
  map (fun k => a + Z.of_nat k) (seq 0 (Z.to_nat (b - a))).

(** [x in l] for a list of ints *)
Definition py_in (x : Z) (l : list Z) : bool := existsb (Z.eqb x) l.

(** [l.remove(x)]: drops the first occurrence ([ValueError] when absent,
    signalled here by [None]). *)
Fixpoint py_remove (x : Z) (l : list Z) : option (list Z) :=
  match l with
  | [] => None
  | y :: r => if x =? y then Some r
              else match py_remove x r with
                   | Some r' => Some (y :: r')
                   | None => None
                   end
  end.

(** [min(l)] and [max(l)]; the default is only met on the empty list, where
    Python raises [ValueError]. *)
Definition py_min (l : list Z) : option Z :=
  match l with
  | [] => None
  | x :: r => Some (fold_left Z.min r x)
  end.

Definition py_max (l : list Z) : option Z :=
  match l with
  | [] => None
  | x :: r => Some (fold_left Z.max r x)
  end.

(** Position designated by [l[i]]: negative indices count from the end,
    anything else outside the list is an [IndexError] ([None]). *)
Definition py_index (len : nat) (i : Z) : option nat :=
  if (0 <=? i) && (i <? Z.of_nat len) then Some (Z.to_nat i)
  else if (i <? 0) && (- Z.of_nat len <=? i) then Some (Z.to_nat (Z.of_nat len + i))
  else None.

Fixpoint list_set {A} (l : list A) (n : nat) (a : A) : list A :=
  match l, n with
  | [], _ => []
  | _ :: r, O => a :: r
  | x :: r, S m => x :: list_set r m a
  end.

(** [itertools.zip_longest(l1, l2)] with the default fill value [None]. *)
Fixpoint zip_longest {A B} (l1 : list A) (l2 : list B)
  : list (option A * option B) :=
  match l1, l2 with
  | [], [] => []
  | a :: r1, [] => (Some a, None) :: zip_longest r1 []
  | [], b :: r2 => (None, Some b) :: map (fun b' => (None, Some b')) r2
  | a :: r1, b :: r2 => (Some a, Some b) :: zip_longest r1 r2
  end.

(** ** Data model *)

Record Entry : Type := mkEntry {
  entry_id : Z;
  entry_path : string;
  entry_tags : list Z
}.

Definition Entry_eqb (a b : Entry) : bool :=
  (entry_id a =? entry_id b)
  && String.eqb (entry_path a) (entry_path b)
  && (if list_eq_dec Z.eq_dec (entry_tags a) (entry_tags b) then true else false).

Inductive ItemType : Type := ENTRY | COLLATION | TAG_GROUP.

Definition ItemType_eqb (a b : ItemType) : bool :=
  match a, b with
  | ENTRY, ENTRY | COLLATION, COLLATION | TAG_GROUP, TAG_GROUP => true
  | _, _ => false
  end.

Record FilterState : Type := mkFilter {
  page_index : Z;
  page_size : Z;
  query : string
}.

Record SearchResult : Type := mkResult {
  items : list Entry;
  total_count : Z
}.

(** The library layer is a collaborator outside this file; the driver only
    reads [library_dir] and [engine] and calls [search_library]. *)
Record Library : Type := mkLibrary {
  library_dir : option string;
  engine : bool;
  search_library : FilterState -> SearchResult
}.

(** The widget of one grid slot, reduced to what the driver sets on it. *)
Record ItemThumb : Type := mkThumb {
  thumb_mode : option ItemType;        (* set_mode *)
  thumb_item_id : option Entry;        (* set_item_id *)
  thumb_visible : bool;                (* show / hide *)
  thumb_selected : bool;               (* thumb_button.set_selected *)
  thumb_archived : bool;               (* assign_badge(ARCHIVED, _) *)
  thumb_favorite : bool;               (* assign_badge(FAVORITE, _) *)
  thumb_clickable : option Z           (* index bound by update_clickable *)
}.

(** First argument of the render call: the empty string of a placeholder
    job, or [library_dir / entry.path]. *)
Inductive job_path : Type :=
| EmptyPath
| FilePath (dir : string) (rel : string).

(** One queued call [(item_thumb.renderer.render, (timestamp, filepath,
    base_size, ratio, is_loading, is_grid_thumb))]; [job_slot] is the grid
    position of the thumb whose renderer is called. *)
Record RenderJob : Type := mkJob {
  job_slot : nat;
  job_ts : timestamp;
  job_file : job_path;
  job_size : Z * Z;
  job_ratio : Q;
  job_loading : bool;
  job_grid : bool
}.

Inductive queue_item : Type :=
| MARKER_QUIT
| Job (j : RenderJob).

Record QtDriver : Type := mkDriver {
  lib : Library;
  frame_content : list (option Entry);
  filter : FilterState;
  pages_count : Z;
  thumb_size : Z;
  thumb_job_queue : list queue_item;
  update_cutoff : timestamp;           (* ItemThumb.update_cutoff *)
  selected : list Z;                   (* grid indexes of selected items *)
  item_thumbs : list ItemThumb;
  autofill_disabled : bool;            (* autofill_action.setDisabled *)
  device_pixel_ratio : Q;              (* main_window.devicePixelRatio() *)
  clock : nat -> N;                    (* k-th reading of time.time() *)
  time_calls : nat                     (* readings taken so far *)
}.

(** Field updates. *)
Definition with_selected (s : list Z) (d : QtDriver) : QtDriver :=
  mkDriver (lib d) (frame_content d) (filter d) (pages_count d) (thumb_size d)
    (thumb_job_queue d) (update_cutoff d) s (item_thumbs d)
    (autofill_disabled d) (device_pixel_ratio d) (clock d) (time_calls d).

Definition with_item_thumbs (t : list ItemThumb) (d : QtDriver) : QtDriver :=
  mkDriver (lib d) (frame_content d) (filter d) (pages_count d) (thumb_size d)
    (thumb_job_queue d) (update_cutoff d) (selected d) t
    (autofill_disabled d) (device_pixel_ratio d) (clock d) (time_calls d).

Definition with_autofill_disabled (b : bool) (d : QtDriver) : QtDriver :=
  mkDriver (lib d) (frame_content d) (filter d) (pages_count d) (thumb_size d)
    (thumb_job_queue d) (update_cutoff d) (selected d) (item_thumbs d)
    b (device_pixel_ratio d) (clock d) (time_calls d).

Definition with_queue (q : list queue_item) (d : QtDriver) : QtDriver :=
  mkDriver (lib d) (frame_content d) (filter d) (pages_count d) (thumb_size d)
    q (update_cutoff d) (selected d) (item_thumbs d)
    (autofill_disabled d) (device_pixel_ratio d) (clock d) (time_calls d).

Definition with_cutoff (c : timestamp) (d : QtDriver) : QtDriver :=
  mkDriver (lib d) (frame_content d) (filter d) (pages_count d) (thumb_size d)
    (thumb_job_queue d) c (selected d) (item_thumbs d)
    (autofill_disabled d) (device_pixel_ratio d) (clock d) (time_calls d).

Definition with_time_calls (n : nat) (d : QtDriver) : QtDriver :=
  mkDriver (lib d) (frame_content d) (filter d) (pages_count d) (thumb_size d)
    (thumb_job_queue d) (update_cutoff d) (selected d) (item_thumbs d)
    (autofill_disabled d) (device_pixel_ratio d) (clock d) n.

Definition with_frame_content (f : list (option Entry)) (d : QtDriver) : QtDriver :=
  mkDriver (lib d) f (filter d) (pages_count d) (thumb_size d)
    (thumb_job_queue d) (update_cutoff d) (selected d) (item_thumbs d)
    (autofill_disabled d) (device_pixel_ratio d) (clock d) (time_calls d).

Definition with_filter (f : FilterState) (d : QtDriver) : QtDriver :=
  mkDriver (lib d) (frame_content d) f (pages_count d) (thumb_size d)
    (thumb_job_queue d) (update_cutoff d) (selected d) (item_thumbs d)
    (autofill_disabled d) (device_pixel_ratio d) (clock d) (time_calls d).

Definition with_pages_count (n : Z) (d : QtDriver) : QtDriver :=
  mkDriver (lib d) (frame_content d) (filter d) n (thumb_size d)
    (thumb_job_queue d) (update_cutoff d) (selected d) (item_thumbs d)
    (autofill_disabled d) (device_pixel_ratio d) (clock d) (time_calls d).

Definition with_lib (l : Library) (d : QtDriver) : QtDriver :=
  mkDriver l (frame_content d) (filter d) (pages_count d) (thumb_size d)
    (thumb_job_queue d) (update_cutoff d) (selected d) (item_thumbs d)
    (autofill_disabled d) (device_pixel_ratio d) (clock d) (time_calls d).

(** ** The method monad: state of [self], plus a raised exception *)

Inductive outcome (A : Type) : Type :=
| Return (a : A)
| Raise (e : exn).
Arguments Return {A} a.
Arguments Raise {A} e.

Definition M (A : Type) : Type := QtDriver -> QtDriver * outcome A.

Definition ret {A} (a : A) : M A := fun d => (d, Return a).
Definition raise {A} (e : exn) : M A := fun d => (d, Raise e).
Definition bind {A B} (m : M A) (k : A -> M B) : M B :=
  fun d => match m d with
           | (d', Return a) => k a d'
           | (d', Raise e) => (d', Raise e)
           end.
Definition gets {A} (f : QtDriver -> A) : M A := fun d => (d, Return (f d)).
Definition modify (f : QtDriver -> QtDriver) : M unit := fun d => (f d, Return tt).

Notation "x <- m ;; k" := (bind m (fun x => k))
  (at level 61, m at next level, right associativity).
Notation "m ;; k" := (bind m (fun _ => k))
  (at level 61, right associativity).

(** [for x in l: body(x)] *)
Fixpoint for_each {A} (l : list A) (body : A -> M unit) : M unit :=
  match l with
  | [] => ret tt
  | x :: r => body x ;; for_each r body
  end.

(** The state a method leaves behind, whether it returned or raised. *)
Definition exec {A} (m : M A) (d : QtDriver) : QtDriver := fst (m d).
Definition result {A} (m : M A) (d : QtDriver) : outcome A := snd (m d).

(** ** Grid selection *)

Definition thumb_set_selected (b : bool) (t : ItemThumb) : ItemThumb :=
  mkThumb (thumb_mode t) (thumb_item_id t) (thumb_visible t) b
    (thumb_archived t) (thumb_favorite t) (thumb_clickable t).

(** [self.item_thumbs[i].thumb_button.set_selected(b)] *)
Definition set_thumb_selected (i : Z) (b : bool) : M unit :=
  ts <- gets item_thumbs ;;
  match py_index (List.length ts) i with
  | None => raise IndexError
  | Some n =>
      match nth_error ts n with
      | None => raise IndexError
      | Some t => modify (with_item_thumbs (list_set ts n (thumb_set_selected b t)))
      end
  end.

(** [for thumb_idx, item_thumb in enumerate(self.item_thumbs):
       item_thumb.thumb_button.set_selected(thumb_idx == grid_index)] *)
Fixpoint mark_only (grid_index : Z) (thumb_idx : Z) (ts : list ItemThumb)
  : list ItemThumb :=
  match ts with
  | [] => []
  | t :: r => thumb_set_selected (thumb_idx =? grid_index) t
              :: mark_only grid_index (thumb_idx + 1) r
  end.

Definition set_macro_menu_viability : M unit :=
  sel <- gets selected ;;
  modify (with_autofill_disabled (match sel with [] => true | _ => false end)).

(** [QtDriver.select_item].  The loop guarded by [len(self.selected) == 1]
    compares [it.item_id] with the builtin [id] and so never connects a
    slot; [preview_panel.update_widgets()] does not touch the driver. *)
Definition select_item (grid_index : Z) (append bridge : bool) : M unit :=
  sel <- gets selected ;;
  (if append then
     if negb (py_in grid_index sel) then
       modify (with_selected (sel ++ [grid_index])) ;;
       set_thumb_selected grid_index true
     else
       match py_remove grid_index sel with
       | None => raise ValueError
       | Some sel' =>
           modify (with_selected sel') ;;
           set_thumb_selected grid_index false
       end
   else
     match bridge, py_min sel, py_max sel with
     | true, Some select_from, Some select_to =>
         let index_range :=
           if select_to <? grid_index
           then py_range select_from (grid_index + 1)
           else py_range grid_index (select_to + 1) in
         modify (with_selected index_range) ;;
         for_each index_range (fun selected_idx => set_thumb_selected selected_idx true)
     | _, _, _ =>
         modify (with_selected [grid_index]) ;;
         modify (fun d => with_item_thumbs (mark_only grid_index 0 (item_thumbs d)) d)
     end) ;;
  set_macro_menu_viability.

(** [QtDriver.select_all_action_callback] *)
Definition select_all_action_callback : M unit :=
  fc <- gets frame_content ;;
  let sel := py_range 0 (Z.of_nat (List.length fc)) in
  modify (with_selected sel) ;;
  for_each sel (fun grid_idx => set_thumb_selected grid_idx true) ;;
  set_macro_menu_viability.

(** [QtDriver.clear_select_action_callback] *)
Definition clear_select_action_callback : M unit :=
  modify (with_selected []) ;;
  modify (fun d => with_item_thumbs (map (thumb_set_selected false) (item_thumbs d)) d) ;;
  set_macro_menu_viability.

(** [show()] and [hide()] *)
Definition thumb_set_visible (b : bool) (t : ItemThumb) : ItemThumb :=
  mkThumb (thumb_mode t) (thumb_item_id t) b (thumb_selected t)
    (thumb_archived t) (thumb_favorite t) (thumb_clickable t).

(** [QtDriver.remove_grid_item]: the slot keeps its position and holds
    [None]; its thumb is hidden. *)
Definition remove_grid_item (grid_idx : Z) : M unit :=
  fc <- gets frame_content ;;
  match py_index (List.length fc) grid_idx with
  | None => raise IndexError
  | Some n =>
      modify (with_frame_content (list_set fc n None)) ;;
      ts <- gets item_thumbs ;;
      match py_index (List.length ts) grid_idx with
      | None => raise IndexError
      | Some k =>
          match nth_error ts k with
          | None => raise IndexError
          | Some t => modify (with_item_thumbs (list_set ts k (thumb_set_visible false t)))
          end
      end
  end.

(** ** Sample states *)

Definition blank_thumb : ItemThumb :=
  mkThumb None None false false false false None.

Definition sample_entry (n : Z) : Entry := mkEntry n "img.png" [].

Definition sample_library (found : list Entry) (total : Z) : Library :=
  mkLibrary (Some "/lib") true (fun _ => mkResult found total).

(** A driver showing [frame] on a grid of [slots] thumbs, with selection
    [sel] and a clock that advances by one unit per reading. *)
Definition sample_driver (l : Library) (frame : list (option Entry))
    (slots : nat) (sel : list Z) : QtDriver :=
  mkDriver l frame (mkFilter 0 10 EmptyString) 0 128 [] (Time 0) sel
    (repeat blank_thumb slots) false (1 # 1)%Q (fun k => N.of_nat k + 100)%N 0.

(** ** Thumbnail refresh *)

(** [time.time()] *)
Definition time_time : M timestamp :=
  fun d => (with_time_calls (S (time_calls d)) d, Return (Time (clock d (time_calls d)))).

(** [self.thumb_job_queue.put(item)]: the queue is unbounded, so [put]
    appends and never blocks. *)
Definition put (item : queue_item) : M unit :=
  modify (fun d => with_queue (thumb_job_queue d ++ [item]) d).

(** [for idx, x in enumerate(l, start): body(idx, x)] *)
Fixpoint for_enumerate {A} (start : nat) (l : list A) (body : nat -> A -> M unit)
  : M unit :=
  match l with
  | [] => ret tt
  | x :: r => body start x ;; for_enumerate (S start) r body
  end.

(** A method call on the thumb object paired with grid position [k]: the
    object is the [k]-th element of [self.item_thumbs], mutated in place;
    where [zip_longest] supplied [None] the call is an [AttributeError]. *)
Definition on_thumb (k : nat) (paired : option ItemThumb)
    (f : ItemThumb -> ItemThumb) : M unit :=
  match paired with
  | None => raise AttributeError
  | Some _ =>
      ts <- gets item_thumbs ;;
      match nth_error ts k with
      | None => raise AttributeError
      | Some t => modify (with_item_thumbs (list_set ts k (f t)))
      end
  end.

Definition thumb_set_mode (m : option ItemType) (t : ItemThumb) : ItemThumb :=
  mkThumb m (thumb_item_id t) (thumb_visible t) (thumb_selected t)
    (thumb_archived t) (thumb_favorite t) (thumb_clickable t).

Definition thumb_set_item_id (e : Entry) (t : ItemThumb) : ItemThumb :=
  mkThumb (thumb_mode t) (Some e) (thumb_visible t) (thumb_selected t)
    (thumb_archived t) (thumb_favorite t) (thumb_clickable t).

Definition thumb_assign_badges (archived favorite : bool) (t : ItemThumb) : ItemThumb :=
  mkThumb (thumb_mode t) (thumb_item_id t) (thumb_visible t) (thumb_selected t)
    archived favorite (thumb_clickable t).

Definition thumb_update_clickable (index : Z) (t : ItemThumb) : ItemThumb :=
  mkThumb (thumb_mode t) (thumb_item_id t) (thumb_visible t) (thumb_selected t)
    (thumb_archived t) (thumb_favorite t) (Some index).

(** The two kinds of object met by [x in self.selected] in the refresh: the
    ints stored in the selection and the tuple [(mode, item_id)] looked up
    in it.  [==] between a tuple and an int is [False]. *)
Inductive pyval : Type :=
| PyInt (z : Z)
| PyTuple (mode : option ItemType) (item_id : option Entry).

Definition option_eqb {A} (eqb : A -> A -> bool) (a b : option A) : bool :=
  match a, b with
  | Some x, Some y => eqb x y
  | None, None => true
  | _, _ => false
  end.

Definition py_eq (a b : pyval) : bool :=
  match a, b with
  | PyInt x, PyInt y => x =? y
  | PyTuple m1 e1, PyTuple m2 e2 =>
      option_eqb ItemType_eqb m1 m2 && option_eqb Entry_eqb e1 e2
  | _, _ => false
  end.

Definition py_contains (x : pyval) (l : list pyval) : bool := existsb (py_eq x) l.

(** The frame entry of a [zip_longest] pair: [None] for an emptied slot
    and for the fill value alike. *)
Definition pair_entry (p : option (option Entry) * option ItemThumb) : option Entry :=
  match fst p with
  | Some (Some e) => Some e
  | _ => None
  end.

(** Lines 1092-1098: the cancellation step at the head of [update_thumbs],
    run inside [with self.thumb_job_queue.mutex]. *)
Definition cancel_thumb_jobs : M unit :=
  modify (with_queue []) ;;
  now <- time_time ;;
  modify (with_cutoff now).

Section Driver.

(** Constants of [src.core.constants] and the library's [close()], which
    live outside this file. *)
Variables TAG_ARCHIVED TAG_FAVORITE : Z.
Variable lib_close : Library -> Library.

(** Body of the loop under "Show loading placeholder icons". *)
Definition show_placeholder (base_size : Z * Z) (ratio : Q) (slot : nat)
    (p : option (option Entry) * option ItemThumb) : M unit :=
  match pair_entry p with
  | None => on_thumb slot (snd p) (thumb_set_visible false)
  | Some entry =>
      on_thumb slot (snd p)
        (fun t => thumb_set_visible true
                    (thumb_set_item_id entry (thumb_set_mode (Some ENTRY) t))) ;;
      put (Job (mkJob slot FloatMax EmptyPath base_size ratio true true))
  end.

(** Body of the loop under "Show rendered thumbnails". *)
Definition show_rendered (base_size : Z * Z) (ratio : Q) (idx : nat)
    (p : option (option Entry) * option ItemThumb) : M unit :=
  match pair_entry p with
  | None => ret tt
  | Some entry =>
      l <- gets lib ;;
      match library_dir l with
      | None => raise TypeError
      | Some dir =>
          let filepath := FilePath dir (entry_path entry) in
          match snd p with
          | None => raise AttributeError
          | Some _ =>
              now <- time_time ;;
              put (Job (mkJob idx now filepath base_size ratio false true)) ;;
              on_thumb idx (snd p)
                (fun t => thumb_update_clickable (Z.of_nat idx)
                            (thumb_assign_badges
                               (py_in TAG_ARCHIVED (entry_tags entry))
                               (py_in TAG_FAVORITE (entry_tags entry)) t)) ;;
              (* Restore Selected Borders *)
              sel <- gets selected ;;
              ts <- gets item_thumbs ;;
              match nth_error ts idx with
              | None => raise AttributeError
              | Some t =>
                  let is_selected :=
                    py_contains (PyTuple (thumb_mode t) (thumb_item_id t))
                                (map PyInt sel) in
                  on_thumb idx (snd p) (thumb_set_selected is_selected) ;;
                  now' <- time_time ;;
                  put (Job (mkJob idx now' filepath base_size ratio false true))
              end
          end
      end
  end.

(** [QtDriver.update_thumbs] *)
Definition update_thumbs : M unit :=
  cancel_thumb_jobs ;;
  ratio <- gets device_pixel_ratio ;;
  size <- gets thumb_size ;;
  let base_size := (size, size) in
  fc <- gets frame_content ;;
  ts <- gets item_thumbs ;;
  for_enumerate 0 (zip_longest fc ts) (show_placeholder base_size ratio) ;;
  fc' <- gets frame_content ;;
  ts' <- gets item_thumbs ;;
  for_enumerate 0 (zip_longest fc' ts') (show_rendered base_size ratio).

(** ** Search and pagination *)

(** The integer nearest to [num / den], ties going to the even one
    ([0 <= num], [0 < den]). *)
Definition round_half_even (num den : Z) : Z :=
  let q := num / den in
  let r := num mod den in
  if 2 * r <? den then q
  else if den <? 2 * r then q + 1
  else if Z.even q then q else q + 1.

(** [floor(log2(x / y))] for positive [x] and [y]. *)
Definition quotient_log2 (x y : Z) : Z :=
  let k := Z.log2 x - Z.log2 y in
  if y * 2 ^ Z.max 0 k <=? x * 2 ^ Z.max 0 (- k) then k else k - 1.

(** [a / b] on ints, for [b <> 0]: the double nearest to the quotient,
    ties to even, given as [(m, e)] for the value [m * 2^e].  A double has
    a mantissa of 53 bits and no exponent below -1074.  Left out: a
    quotient of 2^1024 or more, on which Python raises [OverflowError]. *)
Definition true_div (a b : Z) : Z * Z :=
  if a =? 0 then (0, 0)
  else
    let x := Z.abs a in
    let y := Z.abs b in
    let e := Z.max (quotient_log2 x y - 52) (-1074) in
    let m := round_half_even (x * 2 ^ Z.max 0 (- e)) (y * 2 ^ Z.max 0 e) in
    (Z.sgn a * Z.sgn b * m, e).

(** [math.ceil] of the double [m * 2^e]. *)
Definition math_ceil (f : Z * Z) : Z :=
  let (m, e) := f in
  if 0 <=? e then m * 2 ^ e else - ((- m) / 2 ^ (- e)).

(** [math.ceil(a / b)] for [b <> 0]: the ceiling of the rounded
    quotient. *)
Definition ceil_div (a b : Z) : Z := math_ceil (true_div a b).

(** [QtDriver.filter_items].  Status-bar messages and the pagination
    widget are display only. *)
Definition filter_items (new_filter : option FilterState) : M unit :=
  l <- gets lib ;;
  match library_dir l with
  | None => ret tt
  | Some _ =>
      if negb (engine l) then raise AssertionError
      else
        match new_filter with
        | Some f => modify (with_filter f)
        | None => ret tt
        end ;;
        flt <- gets filter ;;
        _ <- time_time ;;
        let results := search_library l flt in
        _ <- time_time ;;
        modify (with_frame_content (map Some (items results))) ;;
        update_thumbs ;;
        if page_size flt =? 0 then raise ZeroDivisionError
        else modify (with_pages_count (ceil_div (total_count results) (page_size flt)))
  end.

Definition filter_set_page_index (i : Z) (f : FilterState) : FilterState :=
  mkFilter i (page_size f) (query f).

(** [QtDriver.page_move] *)
Definition page_move (delta page_id : option Z) : M unit :=
  flt <- gets filter ;;
  pc <- gets pages_count ;;
  match (match page_id, delta with
         | Some p, _ => Some p
         | None, Some dl => Some (page_index flt + dl)
         | None, None => None
         end) with
  | None => raise TypeError
  | Some requested =>
      let page_index := Z.max 0 (Z.min requested (pc - 1)) in
      modify (with_filter (filter_set_page_index page_index flt)) ;;
      filter_items None
  end.

(** [QtDriver.close_library].  Writing [LAST_LIBRARY] to the settings and
    the status-bar messages are left out. *)
Definition close_library (is_shutdown : bool) : M unit :=
  l <- gets lib ;;
  match library_dir l with
  | None => ret tt
  | Some _ =>
      modify (with_lib (lib_close l)) ;;
      modify (with_queue []) ;;
      if is_shutdown then ret tt
      else
        modify (with_selected []) ;;
        modify (with_frame_content []) ;;
        modify (fun d => with_item_thumbs (map (thumb_set_mode None) (item_thumbs d)) d)
  end.

End Driver.

(** *** What a refresh is expected to queue *)

(** The populated slots of a frame from grid position [k] on, each with
    its entry. *)
Fixpoint populated_from (k : nat) (fc : list (option Entry)) : list (nat * Entry) :=
  match fc with
  | [] => []
  | Some e :: r => (k, e) :: populated_from (S k) r
  | None :: r => populated_from (S k) r
  end.

Definition placeholder_job (size : Z * Z) (ratio : Q) (slot : nat) : RenderJob :=
  mkJob slot FloatMax EmptyPath size ratio true true.

Definition rendered_job (size : Z * Z) (ratio : Q) (dir : string)
    (slot : nat) (e : Entry) (t : N) : RenderJob :=
  mkJob slot (Time t) (FilePath dir (entry_path e)) size ratio false true.

(** Two content jobs per populated slot, stamped with consecutive clock
    readings starting at reading number [c]. *)
Fixpoint rendered_jobs (size : Z * Z) (ratio : Q) (dir : string)
    (clk : nat -> N) (c : nat) (slots : list (nat * Entry)) : list RenderJob :=
  match slots with
  | [] => []
  | (k, e) :: r =>
      rendered_job size ratio dir k e (clk c)
      :: rendered_job size ratio dir k e (clk (S c))
      :: rendered_jobs size ratio dir clk (S (S c)) r
  end.

(** The queued jobs that call the renderer of grid slot [k]. *)
Definition jobs_for_slot (k : nat) (q : list queue_item) : list RenderJob :=
  flat_map (fun item => match item with
                        | Job j => if Nat.eqb (job_slot j) k then [j] else []
                        | MARKER_QUIT => []
                        end) q.

(** *** Selection against the frame *)

(** Grid index [i] designates a slot that holds an entry. *)
Definition populated_index (d : QtDriver) (i : Z) : bool :=
  (0 <=? i)
  && match nth_error (frame_content d) (Z.to_nat i) with
     | Some (Some _) => true
     | _ => false
     end.

(** Every selected index designates a populated slot. *)
Definition selection_within_frame (d : QtDriver) : bool :=
  forallb (populated_index d) (selected d).

(** ** The worker loop *)

(** How one pass through [Consumer.run] over the present queue content
    ends: the marker was met, an exception left [run], or [queue.get()] is
    blocked on the empty queue. *)
Inductive worker_exit : Type :=
| Quit
| Uncaught (e : exn)
| Waiting.

Record worker_trace : Type := mkTrace {
  invoked : list RenderJob;            (* jobs whose render call was made *)
  worker_end : worker_exit;
  left_in_queue : list queue_item
}.

Definition trace_cons (j : RenderJob) (t : worker_trace) : worker_trace :=
  mkTrace (j :: invoked t) (worker_end t) (left_in_queue t).

(** [Consumer.run]; [call j] is what invoking the callable of job [j] on its arguments does:
    it returns or raises. *)
Fixpoint Consumer_run (call : RenderJob -> outcome unit) (queue : list queue_item)
  : worker_trace :=
  match queue with
  | [] => mkTrace [] Waiting []
  | MARKER_QUIT :: rest => mkTrace [] Quit rest
  | Job j :: rest =>
      match call j with
      | Return _ => trace_cons j (Consumer_run call rest)
      | Raise e =>
          if is_RuntimeError e
          then trace_cons j (Consumer_run call rest)       (* except RuntimeError: pass *)
          else mkTrace [j] (Uncaught e) rest
      end
  end.

(** ** Recent libraries *)

(** The settings group [SettingItems.LIBS_LIST]: keys with their values. *)
Definition settings_group : Type := list (string * string).

Definition allKeys (s : settings_group) : list string := map fst s.

(** [settings.value(key, type=str)]; an absent key reads as the empty
    string. *)
Fixpoint value (s : settings_group) (key : string) : string :=
  match s with
  | [] => EmptyString
  | (k, v) :: r => if String.eqb k key then v else value r key
  end.

(** [d[key] = v] on a dict, and [settings.setValue(key, v)]: an existing
    key keeps its place and takes the new value, a new key goes last. *)
Fixpoint assign (key v : string) (d : list (string * string)) : list (string * string) :=
  match d with
  | [] => [(key, v)]
  | (k, w) :: r => if String.eqb k key then (k, v) :: r else (k, w) :: assign key v r
  end.

(** [sorted(items, key=lambda item: item[0], reverse=True)], as a stable
    insertion sort on the keys. *)
Fixpoint insert_desc (x : string * string) (l : list (string * string))
  : list (string * string) :=
  match l with
  | [] => [x]
  | y :: r => if String.ltb (fst x) (fst y) then y :: insert_desc x r else x :: y :: r
  end.

Fixpoint sorted_desc (l : list (string * string)) : list (string * string) :=
  match l with
  | [] => []
  | x :: r => insert_desc x (sorted_desc r)
  end.

Definition item_limit : nat := 5.

Section RecentLibraries.

(** [pathlib]: [Path_eqb a b] is [Path(a) == Path(b)] and [Path_str a] is
    [str(Path(a))]. *)
Variable Path_eqb : string -> string -> bool.
Variable Path_str : string -> string.

(** The loop over [self.settings.allKeys()] filling [all_libs]. *)
Fixpoint collect_libs (settings : settings_group) (path : string)
    (keys : list string) (all_libs : list (string * string))
  : list (string * string) :=
  match keys with
  | [] => all_libs
  | item_key :: r =>
      let item_path := value settings item_key in
      collect_libs settings path r
        (if negb (Path_eqb item_path path) then assign item_key item_path all_libs
         else all_libs)
  end.

(** [QtDriver.update_libs_list]; [now] is [str(time.time())].  The result
    is the group after the old items are removed and the [setValue] calls are made. *)
Definition update_libs_list (now : string) (path : string) (settings : settings_group)
  : settings_group :=
  let all_libs := collect_libs settings path (allKeys settings) [(now, Path_str path)] in
  let all_libs_list := sorted_desc all_libs in
  fold_left (fun s item => assign (fst item) (snd item) s)
            (firstn item_limit all_libs_list) [].

End RecentLibraries.

(** ** The job queue shared between the control thread and the workers

    Threads interleave one step at a time.  [queue.Queue] runs [put] and
    [get] under [Queue.mutex]; the cancellation step of [update_thumbs]
    takes the same mutex around [queue.clear()] and the assignment of the
    cutoff.  The control thread is the only caller of [update_thumbs], of
    [put] and of [init_workers]; the workers run [Consumer.run].
    [time.time()] is the wall clock: between two steps it may come to read
    anything, also less than before.  [close_library] clears the queue too,
    without taking the mutex (line 638); that call is outside this model,
    which follows the cancellation step of [update_thumbs]. *)
Module ThumbQueue.

Inductive thread : Type :=
| Control
| Worker (n : nat).

(** Where the control thread stands. *)
Inductive control_pc : Type :=
| CIdle                                (* outside the queue code *)
| CEnter                               (* at [with self.thumb_job_queue.mutex] *)
| CLocked                              (* mutex held, before [queue.clear()] *)
| CCleared                             (* cleared and notified, before the cutoff assignment *)
| CCutoffSet                           (* cutoff assigned, before leaving the [with] block *)
| CPut (item : queue_item)             (* in [put(item)], waiting for the mutex *)
| CPutLocked (item : queue_item)       (* [put] holds the mutex, before the append *)
| CPutAppended.                        (* appended, before [put] releases the mutex *)

(** Where a worker stands in [Consumer.run]. *)
Inductive worker_pc : Type :=
| WGet                                 (* in [queue.get()], waiting for the mutex *)
| WLocked                              (* [get] holds the mutex *)
| WTaken (item : queue_item)           (* item popped, before [get] releases the mutex *)
| WRender (j : RenderJob)              (* the render call of [j] is running *)
| WDone.                               (* [run] has ended *)

Record state : Type := mkState {
  queue : list queue_item;
  cutoff : timestamp;
  mutex : option thread;
  now : N;                             (* what [time.time()] reads at this moment *)
  control : control_pc;
  workers : list worker_pc
}.

(** What the control thread starts next when it is idle. *)
Inductive call : Type :=
| CallCancel
| CallPutPlaceholder (slot : nat) (size : Z * Z) (ratio : Q)
| CallPutRendered (slot : nat) (dir rel : string) (size : Z * Z) (ratio : Q)
| CallPutMarker.

Inductive action : Type :=
| Tick (t : N)                         (* the clock comes to read [t] *)
| InitWorkers (cpus : nat)             (* the idle control thread runs [init_workers] *)
| Start (c : call)                     (* the idle control thread enters a call *)
| ControlStep                          (* next step of the control thread *)
| WorkerStep (n : nat)                 (* next step of worker [n] inside [get] *)
| RenderEnds (n : nat) (r : outcome unit).  (* the render call of worker [n] ends *)

(** The arguments of [put] are evaluated at the call, so a rendered job is
    stamped with the reading of that moment. *)
Definition begin (c : call) (t : N) : control_pc :=
  match c with
  | CallCancel => CEnter
  | CallPutPlaceholder slot size ratio =>
      CPut (Job (mkJob slot FloatMax EmptyPath size ratio true true))
  | CallPutRendered slot dir rel size ratio =>
      CPut (Job (mkJob slot (Time t) (FilePath dir rel) size ratio false true))
  | CallPutMarker => CPut MARKER_QUIT
  end.

Definition control_step (s : state) : option state :=
  match control s with
  | CIdle => None
  | CEnter =>
      match mutex s with
      | None => Some (mkState (queue s) (cutoff s) (Some Control) (now s) CLocked (workers s))
      | Some _ => None
      end
  | CLocked => Some (mkState [] (cutoff s) (mutex s) (now s) CCleared (workers s))
  | CCleared =>
      Some (mkState (queue s) (Time (now s)) (mutex s) (now s) CCutoffSet (workers s))
  | CCutoffSet => Some (mkState (queue s) (cutoff s) None (now s) CIdle (workers s))
  | CPut item =>
      match mutex s with
      | None =>
          Some (mkState (queue s) (cutoff s) (Some Control) (now s) (CPutLocked item) (workers s))
      | Some _ => None
      end
  | CPutLocked item =>
      Some (mkState (queue s ++ [item]) (cutoff s) (mutex s) (now s) CPutAppended (workers s))
  | CPutAppended => Some (mkState (queue s) (cutoff s) None (now s) CIdle (workers s))
  end.

Definition worker_step (n : nat) (s : state) : option state :=
  match nth_error (workers s) n with
  | Some WGet =>
      match mutex s with
      | None =>
          Some (mkState (queue s) (cutoff s) (Some (Worker n)) (now s) (control s)
                  (list_set (workers s) n WLocked))
      | Some _ => None
      end
  | Some WLocked =>
      match queue s with
      | [] =>                          (* [not_empty.wait()] gives the mutex back *)
          Some (mkState [] (cutoff s) None (now s) (control s)
                  (list_set (workers s) n WGet))
      | item :: rest =>
          Some (mkState rest (cutoff s) (mutex s) (now s) (control s)
                  (list_set (workers s) n (WTaken item)))
      end
  | Some (WTaken item) =>
      Some (mkState (queue s) (cutoff s) None (now s) (control s)
              (list_set (workers s) n
                 match item with
                 | MARKER_QUIT => WDone
                 | Job j => WRender j
                 end))
  | _ => None
  end.

Definition render_ends (n : nat) (r : outcome unit) (s : state) : option state :=
  match nth_error (workers s) n with
  | Some (WRender _) =>
      Some (mkState (queue s) (cutoff s) (mutex s) (now s) (control s)
              (list_set (workers s) n
                 match r with
                 | Return _ => WGet
                 | Raise e => if is_RuntimeError e then WGet else WDone
                 end))
  | _ => None
  end.

(** One step; [None] when the action is not enabled. *)
Definition step (a : action) (s : state) : option state :=
  match a with
  | Tick t => Some (mkState (queue s) (cutoff s) (mutex s) t (control s) (workers s))
  | InitWorkers cpus =>
      (* [if not self.thumb_threads:] one started thread per processor,
         [cpus] being [os.cpu_count()]; otherwise nothing *)
      match control s with
      | CIdle =>
          Some (mkState (queue s) (cutoff s) (mutex s) (now s) CIdle
                  match workers s with
                  | [] => repeat WGet cpus
                  | _ :: _ => workers s
                  end)
      | _ => None
      end
  | Start c =>
      match control s with
      | CIdle => Some (mkState (queue s) (cutoff s) (mutex s) (now s)
                         (begin c (now s)) (workers s))
      | _ => None
      end
  | ControlStep => control_step s
  | WorkerStep n => worker_step n s
  | RenderEnds n r => render_ends n r s
  end.

Fixpoint run (acts : list action) (s : state) : option state :=
  match acts with
  | [] => Some s
  | a :: r => match step a s with
              | Some s' => run r s'
              | None => None
              end
  end.

(** Start of the program: empty queue, no worker thread yet
    ([self.thumb_threads = []]), and the cutoff read from the clock when
    the widget class was loaded. *)
Definition init (t0 : N) : state :=
  mkState [] (Time t0) None t0 CIdle [].

Definition reachable (s : state) : Prop :=
  exists t0 acts, run acts (init t0) = Some s.

(** Action [a] does not set the clock back. *)
Definition clock_kept (a : action) (s : state) : bool :=
  match a with
  | Tick t => (now s <=? t)%N
  | _ => true
  end.

(** Along the run the clock is never set back. *)
Fixpoint steady (acts : list action) (s : state) : bool :=
  match acts with
  | [] => true
  | a :: r => clock_kept a s
              && match step a s with
                 | Some s' => steady r s'
                 | None => true
                 end
  end.

(** Reachable while the clock was never set back. *)
Definition reachable_steady (s : state) : Prop :=
  exists t0 acts, run acts (init t0) = Some s /\ steady acts (init t0) = true.

(** Jobs a worker has taken from the queue and not finished. *)
Definition taken_by (pc : worker_pc) : list RenderJob :=
  match pc with
  | WTaken (Job j) => [j]
  | WRender j => [j]
  | _ => []
  end.

Definition in_flight (s : state) : list RenderJob := flat_map taken_by (workers s).

Definition control_holds (pc : control_pc) : bool :=
  match pc with
  | CLocked | CCleared | CCutoffSet | CPutLocked _ | CPutAppended => true
  | _ => false
  end.

Definition worker_holds (pc : worker_pc) : bool :=
  match pc with
  | WLocked | WTaken _ => true
  | _ => false
  end.

(** The control thread is inside the cancellation step. *)
Definition cancelling (pc : control_pc) : bool :=
  match pc with
  | CLocked | CCleared | CCutoffSet => true
  | _ => false
  end.

(** The render jobs among queue items. *)
Definition jobs_of (items : list queue_item) : list RenderJob :=
  flat_map (fun item => match item with
                        | MARKER_QUIT => []
                        | Job j => [j]
                        end) items.

(** Jobs the control thread has built and not yet appended. *)
Definition in_hand (pc : control_pc) : list RenderJob :=
  match pc with
  | CPut item | CPutLocked item => jobs_of [item]
  | _ => []
  end.

(** A content job carries a reading taken at or before moment [t]. *)
Definition stamped_by (t : N) (j : RenderJob) : Prop :=
  job_loading j = false -> exists t', job_ts j = Time t' /\ (t' <= t)%N.

(** What holds in every state the threads can reach, whatever the clock
    does. *)
Record consistent (s : state) : Prop := mkConsistent {
  (* the control thread holds the mutex exactly inside its locked sections *)
  control_mutex : mutex s = Some Control <-> control_holds (control s) = true;
  (* and so does each worker *)
  worker_mutex : forall n pc, nth_error (workers s) n = Some pc ->
                   (mutex s = Some (Worker n) <-> worker_holds pc = true);
  (* a worker that holds the mutex is one of the pool *)
  mutex_owner : forall n, mutex s = Some (Worker n) ->
                  (n < List.length (workers s))%nat;
  (* between the clear and the end of the step the queue is empty *)
  cleared_empty : control s = CCleared \/ control s = CCutoffSet -> queue s = []
}.

(** Every placeholder job, wherever it is, carries [sys.float_info.max]. *)
Definition placeholders_max (s : state) : Prop :=
  forall j,
    In j (jobs_of (queue s)) \/ In j (in_hand (control s)) \/ In j (in_flight s) ->
    job_loading j = true -> job_ts j = FloatMax.

(** What holds besides in the states reached while the clock was never set
    back. *)
Record stamped (s : state) : Prop := mkStamped {
  (* the cutoff is a past reading *)
  cutoff_past : ts_leb (cutoff s) (Time (now s)) = true;
  (* content jobs carry past readings *)
  jobs_past : forall j,
      In j (jobs_of (queue s)) \/ In j (in_hand (control s)) \/ In j (in_flight s) ->
      stamped_by (now s) j;
  (* jobs not yet taken by a worker are not older than the cutoff *)
  pending_fresh : forall j,
      In j (jobs_of (queue s)) \/ In j (in_hand (control s)) ->
      ts_leb (cutoff s) (job_ts j) = true
}.

(** Every job a worker has taken carries a timestamp below the cutoff. *)
Definition all_stale (s : state) : bool :=
  forallb (fun j => ts_ltb (job_ts j) (cutoff s)) (in_flight s).

(** One worker is started; the control thread queues a placeholder job,
    the worker takes it; at reading 103 the control thread queues a content
    job, and at reading 105 it enters the cancellation step and takes the
    mutex. *)
Definition cancel_entered_trace : list action :=
  [InitWorkers 1;
   Start (CallPutPlaceholder 0 (128, 128) (1 # 1)%Q);
   ControlStep; ControlStep; ControlStep;
   WorkerStep 0; WorkerStep 0; WorkerStep 0;
   Tick 103;
   Start (CallPutRendered 0 "/lib" "img.png" (128, 128) (1 # 1)%Q);
   ControlStep; ControlStep; ControlStep;
   Tick 105;
   Start CallCancel; ControlStep].

(** The state this leads to from reading 100: inside the cancellation
    step, right after the mutex was taken, a content job waiting in the
    queue and the placeholder job being rendered. *)
Definition cancel_entered : state :=
  mkState [Job (mkJob 0 (Time 103) (FilePath "/lib" "img.png") (128, 128) (1 # 1)%Q
                  false true)]
    (Time 100) (Some Control) 105 CLocked
    [WRender (mkJob 0 FloatMax EmptyPath (128, 128) (1 # 1)%Q true true)].

(** The control thread queues a placeholder job, a worker takes it, the
    clock moves on to 105, and the control thread runs the cancellation
    step up to the assignment of the cutoff. *)
Definition placeholder_in_flight_trace : list action :=
  [InitWorkers 1;
   Start (CallPutPlaceholder 0 (128, 128) (1 # 1)%Q);
   ControlStep; ControlStep; ControlStep;
   WorkerStep 0; WorkerStep 0; WorkerStep 0;
   Tick 105;
   Start CallCancel; ControlStep; ControlStep; ControlStep].

(** The same with a content job and no change of the clock between the
    stamping of the job and the cancellation. *)
Definition rendered_in_flight_trace : list action :=
  [InitWorkers 1;
   Start (CallPutRendered 0 "/lib" "img.png" (128, 128) (1 # 1)%Q);
   ControlStep; ControlStep; ControlStep;
   WorkerStep 0; WorkerStep 0; WorkerStep 0;
   Start CallCancel; ControlStep; ControlStep; ControlStep].

(** The same with the clock set back to 50 before the cancellation. *)
Definition clock_set_back_trace : list action :=
  [InitWorkers 1;
   Start (CallPutRendered 0 "/lib" "img.png" (128, 128) (1 # 1)%Q);
   ControlStep; ControlStep; ControlStep;
   WorkerStep 0; WorkerStep 0; WorkerStep 0;
   Tick 50;
   Start CallCancel; ControlStep; ControlStep; ControlStep].

(** A cancellation at reading 100, the clock set back to 50, and a content
    job queued then. *)
Definition stale_put_trace : list action :=
  [Start CallCancel; ControlStep; ControlStep; ControlStep; ControlStep;
   Tick 50;
   Start (CallPutRendered 0 "/lib" "img.png" (128, 128) (1 # 1)%Q);
   ControlStep; ControlStep; ControlStep].

End ThumbQueue.

(** ** Other methods of the driver *)

Definition with_thumb_size (n : Z) (d : QtDriver) : QtDriver :=
  mkDriver (lib d) (frame_content d) (filter d) (pages_count d) n
    (thumb_job_queue d) (update_cutoff d) (selected d) (item_thumbs d)
    (autofill_disabled d) (device_pixel_ratio d) (clock d) (time_calls d).

(** [self.thumb_sizes], built in [start]: the translation key of each
    label and the size in pixels. *)
Definition thumb_sizes : list (string * Z) :=
  [("home.thumbnail_size.extra_large", 256);
   ("home.thumbnail_size.large", 192);
   ("home.thumbnail_size.medium", 128);
   ("home.thumbnail_size.small", 96);
   ("home.thumbnail_size.mini", 76)].

(** [min(self.thumb_size // spacing_divisor, min_spacing)], the spacing
    that [thumb_size_callback] and [_init_thumb_grid] give to the layout. *)
Definition layout_spacing (size : Z) : Z := Z.min (size / 10) 12.

Definition filter_set_page_size (n : Z) (f : FilterState) : FilterState :=
  mkFilter (page_index f) n (query f).

(** [event.button()] as [mouse_navigation] tells them apart. *)
Inductive MouseButton : Type := ForwardButton | BackButton | OtherButton.

Section DriverMore.

Variables TAG_ARCHIVED TAG_FAVORITE : Z.
Variable lib_close : Library -> Library.

(** [QtDriver.thumb_size_callback].  After the refresh the method blanks
    the icon of every thumb, resizes it and sets the layout spacing to
    [layout_spacing] of the new size: widget calls that keep the fields of
    the driver. *)
Definition thumb_size_callback (index : Z) : M unit :=
  (if (index <? Z.of_nat (List.length thumb_sizes)) && (index >=? 0)
   then match nth_error thumb_sizes (Z.to_nat index) with
        | Some (_, size) => modify (with_thumb_size size)
        | None => raise IndexError
        end
   else modify (with_thumb_size 128)) ;;
  update_thumbs TAG_ARCHIVED TAG_FAVORITE.

(** [QtDriver.mouse_navigation] *)
Definition mouse_navigation (button : MouseButton) : M unit :=
  match button with
  | ForwardButton => page_move TAG_ARCHIVED TAG_FAVORITE (Some 1) None
  | BackButton => page_move TAG_ARCHIVED TAG_FAVORITE (Some (-1)) None
  | OtherButton => ret tt
  end.

(** The first part of [QtDriver.shutdown], lines 610-615: the closing of
    the library and the loop that puts one quit marker per thread;
    [threads] is [len(self.thumb_threads)].  The method goes on with
    [thread.quit()] and [thread.wait()] on every thread, which block until
    the worker has left its loop, and [QApplication.quit()]: these are not
    part of this definition. *)
Definition shutdown_requests (threads : nat) : M unit :=
  close_library lib_close true ;;
  for_each (repeat tt threads) (fun _ => put MARKER_QUIT).

(** [ItemThumb(None, self.lib, self, (self.thumb_size, self.thumb_size),
    grid_idx, show_filenames)]: the widget class lives outside this file. *)
Variable ItemThumb_new : Z -> ItemThumb.

(** [QtDriver._init_thumb_grid], called once from [start]: one new thumb
    per grid index below the page size of the filter.  The layout and the
    scroll area it sets up are display only. *)
Definition _init_thumb_grid : M unit :=
  flt <- gets filter ;;
  for_each (py_range 0 (page_size flt))
    (fun grid_idx =>
       modify (fun d => with_item_thumbs (item_thumbs d ++ [ItemThumb_new grid_idx]) d)).

(** [QtDriver.init_library]; [success] is [open_status.success] and
    [page_size_pref] is [self.lib.prefs(LibraryPrefs.PAGE_SIZE)].  Left out:
    the error message and the window title (display), [init_workers] and
    [add_new_files_callback] (they start threads and return), and
    [update_libs_list], which writes the settings group and is modelled on
    its own. *)
Definition init_library (success : bool) (page_size_pref : Z) : M unit :=
  if negb success then ret tt
  else
    modify (fun d => with_filter (filter_set_page_size page_size_pref (filter d)) d) ;;
    modify (with_selected []) ;;
    filter_items TAG_ARCHIVED TAG_FAVORITE None.

End DriverMore.

(** [QSettings.remove(key)] inside the group: the key goes, with every key
    below it ([key/...]); the empty key stands for the whole group. *)
Definition below_key (key k : string) : bool :=
  String.eqb k key || String.prefix (key ++ "/") k.

Definition settings_remove (key : string) (s : settings_group) : settings_group :=
  match key with
  | EmptyString => []
  | _ => List.filter (fun kv => negb (below_key key (fst kv))) s
  end.

(** [QtDriver.remove_recent_library] *)
Definition remove_recent_library (item_key : string) (settings : settings_group)
  : settings_group :=
  settings_remove item_key settings.

(** ** Definitions used by the statements *)

(** [m] never changes the projection [f] of the driver, whether it returns
    or raises. *)
Definition preserves {X A : Type} (f : QtDriver -> X) (m : M A) : Prop :=
  forall d, f (fst (m d)) = f d.

(** Projections that do not look at the widgets, the queue, the cutoff or
    the clock position. *)
Record display_blind {X : Type} (f : QtDriver -> X) : Prop := {
  blind_thumbs : forall t d, f (with_item_thumbs t d) = f d;
  blind_queue : forall q d, f (with_queue q d) = f d;
  blind_cutoff : forall c d, f (with_cutoff c d) = f d;
  blind_time : forall n d, f (with_time_calls n d) = f d;
  blind_autofill : forall b d, f (with_autofill_disabled b d) = f d
}.

(** The thumb of a populated slot after the second loop has passed it. *)
Definition rendered_thumb (TAG_ARCHIVED TAG_FAVORITE : Z)
    (k : nat) (e : Entry) (t : ItemThumb) : ItemThumb :=
  thumb_set_selected false
    (thumb_update_clickable (Z.of_nat k)
       (thumb_assign_badges (py_in TAG_ARCHIVED (entry_tags e))
          (py_in TAG_FAVORITE (entry_tags e)) t)).


(** The render call returned, or raised something [except RuntimeError]
    catches. *)
Definition survived (r : outcome unit) : bool :=
  match r with
  | Return _ => true
  | Raise e => is_RuntimeError e
  end.

(** Most recent first: no entry has a key below the key of its successor. *)
Definition newer_first (a b : string * string) : Prop :=
  String.ltb (fst a) (fst b) = false.

(** The dict [all_libs] has one value per key, and only the entry made
    for the opened path can hold it. *)
Definition all_libs_ok (Path_eqb : string -> string -> bool)
    (Path_str : string -> string) (now path : string)
    (all_libs : list (string * string)) : Prop :=
  NoDup (map fst all_libs)
  /\ forall k v, In (k, v) all_libs -> Path_eqb v path = true ->
                 k = now /\ v = Path_str path.

(** Stored recent libraries whose keys were written while the clock was
    ahead of the present reading. *)
Definition libs_from_fast_clock : settings_group :=
  [("1800000005.0", "/e"); ("1800000004.0", "/d"); ("1800000003.0", "/c");
   ("1800000002.0", "/b"); ("1800000001.0", "/a")].

(** No slot of the frame has been emptied. *)
Definition frame_dense (d : QtDriver) : bool :=
  forallb (fun x : option Entry => match x with Some _ => true | None => false end)
    (frame_content d).

(** Sample grids. *)
Definition grid_one_entry : QtDriver :=
  sample_driver (sample_library [] 0) [Some (sample_entry 1)] 2 [].

Definition grid_with_gap : QtDriver :=
  sample_driver (sample_library [] 0)
    [Some (sample_entry 1); None; Some (sample_entry 3)] 4 [].

Definition grid_two_entries : QtDriver :=
  sample_driver (sample_library [] 0)
    [Some (sample_entry 1); Some (sample_entry 2)] 4 [].

(** Six entries shown, the last slot selected, and a library whose next
    search finds two entries. *)
Definition grid_last_selected : QtDriver :=
  sample_driver (sample_library [sample_entry 10; sample_entry 11] 2)
    (map (fun n => Some (sample_entry n)) [1; 2; 3; 4; 5; 6]) 10 [5].

(** An open library of 23 results, before its first search. *)
Definition library_of_23 : QtDriver :=
  sample_driver (sample_library [sample_entry 1; sample_entry 2] 23) [] 10 [].

(** The same after its first search, on page 2 of 3, the library having
    meanwhile gone down to 5 results. *)
Definition library_shrunk : QtDriver :=
  with_lib (sample_library [sample_entry 1] 5)
    (exec (page_move 0 1 None (Some 2)) (exec (filter_items 0 1 None) library_of_23)).

(** No search made yet: no page. *)
Definition no_pages : QtDriver := sample_driver (sample_library [] 0) [] 10 [].


(** The thumb at grid position [k] after a refresh, facing frame slot
    [slot] ([None] for an emptied slot and past the end of the frame). *)
Definition refreshed_thumb (TAG_ARCHIVED TAG_FAVORITE : Z) (k : nat)
    (slot : option Entry) (t : ItemThumb) : ItemThumb :=
  match slot with
  | Some e =>
      rendered_thumb TAG_ARCHIVED TAG_FAVORITE k e
        (thumb_set_visible true (thumb_set_item_id e (thumb_set_mode (Some ENTRY) t)))
  | None => thumb_set_visible false t
  end.

(** The frame slot at position [k], [None] when emptied or absent. *)
Definition slot_entry (fc : list (option Entry)) (k : nat) : option Entry :=
  match nth_error fc k with
  | Some (Some e) => Some e
  | _ => None
  end.

(** The marks on the thumbs agree with the selection: the thumb at grid
    position [k] is marked exactly when [k] is selected. *)
Definition marks_match (d : QtDriver) : Prop :=
  forall k t, nth_error (item_thumbs d) k = Some t ->
              thumb_selected t = py_in (Z.of_nat k) (selected d).

(** Number of thumbs of the grid. *)
Definition thumb_count (d : QtDriver) : nat := List.length (item_thumbs d).

(** [f] applied along the grid: to the thumb at position [k] with the
    entry of frame slot [k]. *)
Fixpoint map_slots (f : nat -> option Entry -> ItemThumb -> ItemThumb) (k : nat)
    (fc : list (option Entry)) (ts : list ItemThumb) : list ItemThumb :=
  match ts with
  | [] => []
  | t :: r =>
      f k (match fc with Some e :: _ => Some e | _ => None end) t
      :: map_slots f (S k) (tl fc) r
  end.

(** The thumb of a slot after the first loop of the refresh. *)
Definition placeholder_thumb (slot : option Entry) (t : ItemThumb) : ItemThumb :=
  match slot with
  | Some e => thumb_set_visible true (thumb_set_item_id e (thumb_set_mode (Some ENTRY) t))
  | None => thumb_set_visible false t
  end.

(** The thumb of a slot after the second loop of the refresh. *)
Definition rendered_slot_thumb (TAG_ARCHIVED TAG_FAVORITE : Z) (k : nat)
    (slot : option Entry) (t : ItemThumb) : ItemThumb :=
  match slot with
  | Some e => rendered_thumb TAG_ARCHIVED TAG_FAVORITE k e t
  | None => t
  end.

(** Every thumb marked in [d] is still there and still marked in [d']. *)
Definition marks_kept (d d' : QtDriver) : Prop :=
  forall k t, nth_error (item_thumbs d) k = Some t ->
    exists t', nth_error (item_thumbs d') k = Some t'
               /\ (thumb_selected t = true -> thumb_selected t' = true).

(** The library is open and, for the present query and page size, every
    page from 0 to the last one fits the grid and gives the page count the
    driver holds. *)
Definition pages_settled (d : QtDriver) : Prop :=
  library_dir (lib d) <> None
  /\ engine (lib d) = true
  /\ page_size (filter d) <> 0
  /\ (forall i,
        0 <= i <= Z.max 0 (pages_count d - 1) ->
        (List.length (items (search_library (lib d)
                               (filter_set_page_index i (filter d))))
         <= thumb_count d)%nat
        /\ ceil_div (total_count (search_library (lib d)
                                    (filter_set_page_index i (filter d))))
             (page_size (filter d))
           = pages_count d).

(** The autofill macro is disabled exactly when nothing is selected. *)
Definition menu_matches (d : QtDriver) : Prop :=
  autofill_disabled d = match selected d with [] => true | _ :: _ => false end.

(** One worker is started, the control thread queues a placeholder job,
    the worker takes it, and the render call raises [ValueError]. *)
Definition worker_dies_trace : list ThumbQueue.action :=
  [ThumbQueue.InitWorkers 1;
   ThumbQueue.Start (ThumbQueue.CallPutPlaceholder 0 (128, 128) (1 # 1)%Q);
   ThumbQueue.ControlStep; ThumbQueue.ControlStep; ThumbQueue.ControlStep;
   ThumbQueue.WorkerStep 0; ThumbQueue.WorkerStep 0; ThumbQueue.WorkerStep 0;
   ThumbQueue.RenderEnds 0 (Raise ValueError)].

(** The state this leads to: the only worker has ended. *)
Definition dead_pool : ThumbQueue.state :=
  ThumbQueue.mkState [] (Time 7) None 7 ThumbQueue.CIdle [ThumbQueue.WDone].

(** Another library is opened on four processors ([init_workers] runs
    again) and a placeholder job is queued. *)
Definition reopen_trace : list ThumbQueue.action :=
  [ThumbQueue.InitWorkers 4;
   ThumbQueue.Start (ThumbQueue.CallPutPlaceholder 0 (128, 128) (1 # 1)%Q);
   ThumbQueue.ControlStep; ThumbQueue.ControlStep; ThumbQueue.ControlStep].

(** The state after that: the job waits and the pool is as it was. *)
Definition dead_pool_with_job : ThumbQueue.state :=
  ThumbQueue.mkState [Job (placeholder_job (128, 128) (1 # 1)%Q 0)]
    (Time 7) None 7 ThumbQueue.CIdle [ThumbQueue.WDone].

(** * Properties *)

(** ** Python helpers *)

Lemma py_in_spec (x : Z) (l : list Z) : py_in x l = true <-> In x l.
Proof.
  unfold py_in. rewrite existsb_exists. split.
  - intros [y [Hy Heq]]. apply Z.eqb_eq in Heq. now subst.
  - intros H. exists x. split; [assumption | apply Z.eqb_refl].
Qed.

Lemma py_in_false (x : Z) (l : list Z) : py_in x l = false <-> ~ In x l.
Proof.
  rewrite <- py_in_spec. destruct (py_in x l); split; congruence.
Qed.

Lemma In_py_range (a b k : Z) : In k (py_range a b) <-> a <= k < b.
Proof.
  unfold py_range. rewrite in_map_iff. split.
  - intros [n [Hk Hn]]. apply in_seq in Hn. lia.
  - intros H. exists (Z.to_nat (k - a)). split; [lia |].
    apply in_seq. lia.
Qed.

Lemma NoDup_py_range (a b : Z) : NoDup (py_range a b).
Proof.
  unfold py_range. apply Finite.Injective_map_NoDup.
  - intros x y H. lia.
  - apply seq_NoDup.
Qed.

Lemma fold_min_spec (r : list Z) (x : Z) :
  (fold_left Z.min r x = x \/ In (fold_left Z.min r x) r)
  /\ fold_left Z.min r x <= x
  /\ (forall k, In k r -> fold_left Z.min r x <= k).
Proof.
  revert x. induction r as [| y r IH]; intros x; simpl.
  - repeat split; [now left | lia | intros k []].
  - destruct (IH (Z.min x y)) as [Hin [Hle Hall]].
    repeat split.
    + destruct Hin as [He | Hi]; [| now right; right].
      rewrite He. destruct (Z.min_spec x y) as [[_ E] | [_ E]]; rewrite E; auto.
    + lia.
    + intros k [Hk | Hk]; [subst; lia | now apply Hall].
Qed.

Lemma fold_max_spec (r : list Z) (x : Z) :
  (fold_left Z.max r x = x \/ In (fold_left Z.max r x) r)
  /\ x <= fold_left Z.max r x
  /\ (forall k, In k r -> k <= fold_left Z.max r x).
Proof.
  revert x. induction r as [| y r IH]; intros x; simpl.
  - repeat split; [now left | lia | intros k []].
  - destruct (IH (Z.max x y)) as [Hin [Hle Hall]].
    repeat split.
    + destruct Hin as [He | Hi]; [| now right; right].
      rewrite He. destruct (Z.max_spec x y) as [[_ E] | [_ E]]; rewrite E; auto.
    + lia.
    + intros k [Hk | Hk]; [subst; lia | now apply Hall].
Qed.

Lemma py_min_spec (l : list Z) (m : Z) :
  py_min l = Some m -> In m l /\ forall k, In k l -> m <= k.
Proof.
  destruct l as [| x r]; simpl; [discriminate |].
  intros H. injection H as <-.
  destruct (fold_min_spec r x) as [Hin [Hle Hall]]. split.
  - destruct Hin as [-> | Hi]; auto.
  - intros k [<- | Hk]; auto.
Qed.

Lemma py_max_spec (l : list Z) (m : Z) :
  py_max l = Some m -> In m l /\ forall k, In k l -> k <= m.
Proof.
  destruct l as [| x r]; simpl; [discriminate |].
  intros H. injection H as <-.
  destruct (fold_max_spec r x) as [Hin [Hle Hall]]. split.
  - destruct Hin as [-> | Hi]; auto.
  - intros k [<- | Hk]; auto.
Qed.

Lemma py_remove_spec (x : Z) (l : list Z) :
  In x l ->
  exists l', py_remove x l = Some l'
    /\ (forall j, j <> x -> (In j l' <-> In j l))
    /\ (forall j, In j l' -> In j l)
    /\ (NoDup l -> ~ In x l' /\ NoDup l').
Proof.
  induction l as [| y r IH]; simpl; [intros [] |].
  intros Hin. destruct (Z.eqb_spec x y) as [-> | Hne].
  - exists r. split; [reflexivity |]. split; [| split].
    + intros j Hj. split; [now right | intros [E | E]; congruence].
    + intros j Hj; now right.
    + intros Hnd. inversion Hnd; subst. now split.
  - destruct Hin as [E | Hin]; [congruence |].
    destruct (IH Hin) as [r' [-> [Hiff [Hsub Hnd]]]].
    exists (y :: r'). split; [reflexivity |]. split; [| split].
    + intros j Hj. simpl. rewrite (Hiff j Hj). tauto.
    + intros j [E | E]; [now left | right; now apply Hsub].
    + intros Hl. inversion Hl as [| ? ? Hy Hr]; subst.
      destruct (Hnd Hr) as [Hx Hr']. split.
      * intros [E | E]; [congruence | contradiction].
      * constructor; [| assumption]. intros E. apply Hy. now apply Hsub.
Qed.

(** ** Framing: what a method leaves untouched *)

Lemma preserves_ret {X A} (f : QtDriver -> X) (a : A) : preserves f (ret a).
Proof. intros d; reflexivity. Qed.

Lemma preserves_raise {X A} (f : QtDriver -> X) (e : exn) : preserves f (@raise A e).
Proof. intros d; reflexivity. Qed.

Lemma preserves_gets {X A} (f : QtDriver -> X) (g : QtDriver -> A) : preserves f (gets g).
Proof. intros d; reflexivity. Qed.

Lemma preserves_modify {X} (f : QtDriver -> X) (g : QtDriver -> QtDriver) :
  (forall d, f (g d) = f d) -> preserves f (modify g).
Proof. intros H d; apply H. Qed.

Lemma bind_tail {X A B} (f : QtDriver -> X) (m : M A) (k : A -> M B) :
  (forall a, preserves f (k a)) ->
  forall d, f (fst (bind m k d)) = f (fst (m d)).
Proof.
  intros Hk d. unfold bind. destruct (m d) as [d' [a | e]]; simpl.
  - apply Hk.
  - reflexivity.
Qed.

Lemma preserves_bind {X A B} (f : QtDriver -> X) (m : M A) (k : A -> M B) :
  preserves f m -> (forall a, preserves f (k a)) -> preserves f (bind m k).
Proof.
  intros Hm Hk d. rewrite bind_tail by assumption. apply Hm.
Qed.

Lemma preserves_for_each {X A} (f : QtDriver -> X) (l : list A) (body : A -> M unit) :
  (forall x, preserves f (body x)) -> preserves f (for_each l body).
Proof.
  intros Hb. induction l as [| x r IH]; simpl.
  - apply preserves_ret.
  - apply preserves_bind; auto.
Qed.

Lemma preserves_for_enumerate {X A} (f : QtDriver -> X) (l : list A)
    (body : nat -> A -> M unit) :
  (forall k x, preserves f (body k x)) ->
  forall start, preserves f (for_enumerate start l body).
Proof.
  intros Hb. induction l as [| x r IH]; intros start; simpl.
  - apply preserves_ret.
  - apply preserves_bind; auto.
Qed.

Lemma selected_blind : display_blind selected.
Proof. constructor; reflexivity. Qed.

Lemma frame_content_blind : display_blind frame_content.
Proof. constructor; reflexivity. Qed.

Lemma filter_blind : display_blind filter.
Proof. constructor; reflexivity. Qed.

Lemma pages_count_blind : display_blind pages_count.
Proof. constructor; reflexivity. Qed.

Lemma lib_blind : display_blind lib.
Proof. constructor; reflexivity. Qed.

Create HintDb frame.
#[export] Hint Resolve preserves_ret preserves_raise preserves_gets
  selected_blind frame_content_blind filter_blind pages_count_blind lib_blind : frame.

(** Discharges a goal [preserves f m] by following the structure of [m]. *)
Ltac frame :=
  repeat first
    [ solve [auto with frame]
    | apply preserves_modify; reflexivity
    | apply preserves_bind; [| intros ?]
    | apply preserves_for_each; intros ?
    | apply preserves_for_enumerate; intros ? ?
    | match goal with
      | |- preserves _ (match ?x with _ => _ end) => destruct x
      end ].

Lemma preserves_set_thumb_selected {X} (f : QtDriver -> X) (i : Z) (b : bool) :
  display_blind f -> preserves f (set_thumb_selected i b).
Proof.
  intros Hf. unfold set_thumb_selected. frame.
  apply preserves_modify. intros d. apply (blind_thumbs f Hf).
Qed.

Lemma preserves_set_macro_menu_viability {X} (f : QtDriver -> X) :
  display_blind f -> preserves f set_macro_menu_viability.
Proof.
  intros Hf. unfold set_macro_menu_viability. frame.
  apply preserves_modify. intros d. apply (blind_autofill f Hf).
Qed.

Lemma preserves_on_thumb {X} (f : QtDriver -> X) (k : nat) (p : option ItemThumb)
    (g : ItemThumb -> ItemThumb) :
  display_blind f -> preserves f (on_thumb k p g).
Proof.
  intros Hf. unfold on_thumb. frame.
  apply preserves_modify. intros d. apply (blind_thumbs f Hf).
Qed.

Lemma preserves_put {X} (f : QtDriver -> X) (item : queue_item) :
  display_blind f -> preserves f (put item).
Proof.
  intros Hf. apply preserves_modify. intros d. apply (blind_queue f Hf).
Qed.

Lemma preserves_time_time {X} (f : QtDriver -> X) :
  display_blind f -> preserves f time_time.
Proof.
  intros Hf d. unfold time_time; simpl. apply (blind_time f Hf).
Qed.

#[export] Hint Resolve preserves_set_thumb_selected preserves_set_macro_menu_viability
  preserves_on_thumb preserves_put preserves_time_time : frame.

(** ** Selection *)

(** What [select_item] does to the selection list, in every mode and
    whether or not a widget access raised afterwards. *)
Lemma select_item_selected (d : QtDriver) (i : Z) (append bridge : bool) :
  selected (exec (select_item i append bridge) d) =
  if append then
    if py_in i (selected d) then
      match py_remove i (selected d) with
      | Some s => s
      | None => selected d
      end
    else (selected d ++ [i])%list
  else
    match bridge, py_min (selected d), py_max (selected d) with
    | true, Some lo, Some hi =>
        if hi <? i then py_range lo (i + 1) else py_range i (hi + 1)
    | _, _, _ => [i]
    end.
Proof.
  unfold exec, select_item.
  unfold bind at 1. unfold gets at 1.
  rewrite bind_tail
    by (intros ?; apply preserves_set_macro_menu_viability, selected_blind).
  destruct append.
  - destruct (py_in i (selected d)); simpl.
    + destruct (py_remove i (selected d)) as [s |]; [| reflexivity].
      rewrite bind_tail
        by (intros ?; apply preserves_set_thumb_selected, selected_blind).
      reflexivity.
    + rewrite bind_tail
        by (intros ?; apply preserves_set_thumb_selected, selected_blind).
      reflexivity.
  - destruct bridge, (py_min (selected d)) as [lo |], (py_max (selected d)) as [hi |];
      try (rewrite bind_tail
             by (intros ?; apply preserves_modify; intros ?; reflexivity);
           reflexivity).
    rewrite bind_tail
      by (intros ?; apply preserves_for_each; intros ?;
          apply preserves_set_thumb_selected, selected_blind).
    reflexivity.
Qed.

(** The selection never holds an index twice: every way of selecting
    keeps the list duplicate-free. *)
Lemma select_item_NoDup (d : QtDriver) (i : Z) (append bridge : bool) :
  NoDup (selected d) -> NoDup (selected (exec (select_item i append bridge) d)).
Proof.
  intros Hnd. rewrite select_item_selected. destruct append.
  - destruct (py_in i (selected d)) eqn:Hin.
    + apply py_in_spec in Hin.
      destruct (py_remove_spec i (selected d) Hin) as [s [-> [_ [_ Hs]]]].
      now apply Hs.
    + apply py_in_false in Hin.
      apply NoDup_app; [assumption | repeat constructor; intros [] |].
      intros x Hx [<- | []]. contradiction.
  - destruct bridge, (py_min (selected d)), (py_max (selected d));
      try (repeat constructor; intros []).
    destruct (z0 <? i); apply NoDup_py_range.
Qed.

Lemma select_all_NoDup (d : QtDriver) :
  NoDup (selected (exec select_all_action_callback d)).
Proof.
  unfold exec, select_all_action_callback.
  unfold bind at 1. unfold gets at 1.
  rewrite bind_tail.
  - apply NoDup_py_range.
  - intros ?. apply preserves_bind;
      [| intros ?; apply preserves_set_macro_menu_viability, selected_blind].
    apply preserves_for_each. intros ?.
    apply preserves_set_thumb_selected, selected_blind.
Qed.

(** C6.  Bridge selection ([append] off, [bridge] on) over a non-empty
    selection: with [lo] and [hi] the least and greatest selected index,
    the new selection is the run of consecutive indices from [lo] to the
    clicked index when the click lies beyond [hi], and from the clicked
    index to [hi] otherwise, both ends included. *)
Theorem select_item_bridge_range (d : QtDriver) (i : Z) :
  selected d <> [] ->
  exists lo hi,
    (In lo (selected d) /\ forall k, In k (selected d) -> lo <= k)
    /\ (In hi (selected d) /\ forall k, In k (selected d) -> k <= hi)
    /\ selected (exec (select_item i false true) d)
       = (if hi <? i then py_range lo (i + 1) else py_range i (hi + 1))
    /\ (forall k, In k (selected (exec (select_item i false true) d))
                  <-> (if hi <? i then lo <= k <= i else i <= k <= hi)).
Proof.
  intros Hne. rewrite select_item_selected.
  destruct (py_min (selected d)) as [lo |] eqn:Hlo;
    [| destruct (selected d); [congruence | discriminate]].
  destruct (py_max (selected d)) as [hi |] eqn:Hhi;
    [| destruct (selected d); [congruence | discriminate]].
  exists lo, hi.
  split; [now apply py_min_spec |]. split; [now apply py_max_spec |].
  split; [reflexivity |].
  intros k. destruct (hi <? i); rewrite In_py_range; lia.
Qed.

Lemma select_item_bridge_range_witness :
  exists lo hi,
    (In lo [2; 5] /\ forall k, In k [2; 5] -> lo <= k)
    /\ (In hi [2; 5] /\ forall k, In k [2; 5] -> k <= hi)
    /\ selected (exec (select_item 0 false true)
                   (sample_driver (sample_library [] 0) [] 10 [2; 5]))
       = (if hi <? 0 then py_range lo (0 + 1) else py_range 0 (hi + 1))
    /\ (forall k, In k (selected (exec (select_item 0 false true)
                                    (sample_driver (sample_library [] 0) [] 10 [2; 5])))
                  <-> (if hi <? 0 then lo <= k <= 0 else 0 <= k <= hi)).
Proof.
  apply (select_item_bridge_range (sample_driver (sample_library [] 0) [] 10 [2; 5]) 0).
  simpl. discriminate.
Defined.

(** The two clicks of the specification on the selection 2, 5. *)
Example bridge_click_before :
  selected (exec (select_item 0 false true)
              (sample_driver (sample_library [] 0) [] 10 [2; 5]))
  = [0; 1; 2; 3; 4; 5].
Proof. reflexivity. Qed.

Example bridge_click_after :
  selected (exec (select_item 8 false true)
              (sample_driver (sample_library [] 0) [] 10 [2; 5]))
  = [2; 3; 4; 5; 6; 7; 8].
Proof. reflexivity. Qed.

(** C7.  Append selection toggles the clicked index and keeps every other
    member: a selected index is taken out, an unselected one is put in (at
    the end of the list).  The selection is a duplicate-free list, as every
    operation of the driver leaves it. *)
Theorem select_item_append_toggle (d : QtDriver) (i : Z) (bridge : bool) :
  NoDup (selected d) ->
  (In i (selected d) -> ~ In i (selected (exec (select_item i true bridge) d)))
  /\ (~ In i (selected d) -> In i (selected (exec (select_item i true bridge) d)))
  /\ (forall j, j <> i ->
        (In j (selected (exec (select_item i true bridge) d)) <-> In j (selected d)))
  /\ NoDup (selected (exec (select_item i true bridge) d)).
Proof.
  intros Hnd. rewrite select_item_selected.
  destruct (py_in i (selected d)) eqn:Hin.
  - apply py_in_spec in Hin.
    destruct (py_remove_spec i (selected d) Hin) as [s [-> [Hiff [_ Hs]]]].
    destruct (Hs Hnd) as [Hni Hnd'].
    split; [auto |]. split; [intros H; contradiction |]. split; auto.
  - apply py_in_false in Hin.
    split; [intros H; contradiction |].
    split; [intros _; apply in_or_app; right; now left |].
    split.
    + intros j Hj. rewrite in_app_iff. simpl. split; [| tauto].
      intros [H | [H | []]]; [assumption | congruence].
    + apply NoDup_app; [assumption | repeat constructor; intros [] |].
      intros x Hx [<- | []]. contradiction.
Qed.

Lemma select_item_append_toggle_witness :
  (In 5 [2; 5] ->
   ~ In 5 (selected (exec (select_item 5 true false)
                       (sample_driver (sample_library [] 0) [] 10 [2; 5]))))
  /\ (~ In 5 [2; 5] ->
      In 5 (selected (exec (select_item 5 true false)
                        (sample_driver (sample_library [] 0) [] 10 [2; 5]))))
  /\ (forall j, j <> 5 ->
        (In j (selected (exec (select_item 5 true false)
                           (sample_driver (sample_library [] 0) [] 10 [2; 5])))
         <-> In j [2; 5]))
  /\ NoDup (selected (exec (select_item 5 true false)
                        (sample_driver (sample_library [] 0) [] 10 [2; 5]))).
Proof.
  apply (select_item_append_toggle
           (sample_driver (sample_library [] 0) [] 10 [2; 5]) 5 false).
  simpl. repeat constructor; simpl; intuition discriminate.
Defined.

Example append_click_selected :
  selected (exec (select_item 5 true false)
              (sample_driver (sample_library [] 0) [] 10 [2; 5; 7]))
  = [2; 7].
Proof. reflexivity. Qed.

Example append_click_unselected :
  selected (exec (select_item 3 true false)
              (sample_driver (sample_library [] 0) [] 10 [2; 5; 7]))
  = [2; 5; 7; 3].
Proof. reflexivity. Qed.

(** ** Refresh of the thumbnails *)

Lemma length_list_set {A} (l : list A) (n : nat) (a : A) :
  List.length (list_set l n a) = List.length l.
Proof.
  revert n. induction l as [| x r IH]; intros [| n]; simpl; auto.
Qed.

Lemma nth_error_list_set_eq {A} (l : list A) (n : nat) (a x : A) :
  nth_error l n = Some x -> nth_error (list_set l n a) n = Some a.
Proof.
  revert n. induction l as [| y r IH]; intros [| n]; simpl; try discriminate; auto.
Qed.

Lemma nth_error_list_set_neq {A} (l : list A) (n m : nat) (a : A) :
  n <> m -> nth_error (list_set l n a) m = nth_error l m.
Proof.
  revert n m. induction l as [| y r IH]; intros [| n] [| m] H; simpl; auto.
  congruence.
Qed.

Lemma list_set_twice {A} (l : list A) (n : nat) (a b : A) :
  list_set (list_set l n a) n b = list_set l n b.
Proof.
  revert n. induction l as [| x r IH]; intros [| n]; simpl; auto.
  now rewrite IH.
Qed.

Lemma zip_longest_nil_l {A B} (l2 : list B) :
  zip_longest (@nil A) l2 = map (fun b => (None, Some b)) l2.
Proof. destruct l2; reflexivity. Qed.

(** A tuple is never found among the ints of the selection. *)
Lemma tuple_not_in_selection (m : option ItemType) (e : option Entry) (sel : list Z) :
  py_contains (PyTuple m e) (map PyInt sel) = false.
Proof.
  unfold py_contains. induction sel as [| x r IH]; simpl; auto.
Qed.

Lemma on_thumb_ok (k : nat) (b t : ItemThumb) (g : ItemThumb -> ItemThumb) (d : QtDriver) :
  nth_error (item_thumbs d) k = Some t ->
  on_thumb k (Some b) g d
  = (with_item_thumbs (list_set (item_thumbs d) k (g t)) d, Return tt).
Proof.
  intros H. unfold on_thumb, bind, gets, modify. rewrite H. reflexivity.
Qed.

Lemma populated_from_ge (fc : list (option Entry)) (k j : nat) (e : Entry) :
  In (j, e) (populated_from k fc) -> (k <= j)%nat.
Proof.
  revert k. induction fc as [| [x |] r IH]; intros k; simpl.
  - intros [].
  - intros [H | H]; [injection H; lia | apply IH in H; lia].
  - intros H. apply IH in H. lia.
Qed.

Lemma populated_from_spec (fc : list (option Entry)) (k j : nat) (e : Entry) :
  In (j, e) (populated_from k fc) <->
  (k <= j)%nat /\ nth_error fc (j - k) = Some (Some e).
Proof.
  revert k. induction fc as [| x r IH]; intros k.
  - simpl. split; [intros [] | intros [_ H]]. destruct (j - k)%nat; discriminate.
  - assert (Hstep : In (j, e) (populated_from (S k) r) <->
                    (k < j)%nat /\ nth_error (x :: r) (j - k) = Some (Some e)).
    { rewrite IH. split; intros [H1 H2]; (split; [lia |]).
      - replace (j - k)%nat with (S (j - S k)) by lia. exact H2.
      - replace (j - k)%nat with (S (j - S k)) in H2 by lia. exact H2. }
    destruct x as [x |]; simpl populated_from.
    + simpl In. rewrite Hstep. split.
      * intros [H | [H1 H2]]; [| split; [lia | exact H2]].
        injection H as <- <-. split; [lia |]. now rewrite Nat.sub_diag.
      * intros [H1 H2]. destruct (Nat.eq_dec k j) as [<- | Hne].
        -- rewrite Nat.sub_diag in H2. simpl in H2. left. congruence.
        -- right. split; [lia | exact H2].
    + rewrite Hstep. split; intros [H1 H2]; (split; [| exact H2]); [lia |].
      destruct (Nat.eq_dec k j) as [<- | Hne]; [| lia].
      rewrite Nat.sub_diag in H2. discriminate.
Qed.

Lemma nth_error_in_range {A} (l : list A) (k : nat) :
  (k < List.length l)%nat -> exists x, nth_error l k = Some x.
Proof.
  intros H. destruct (nth_error l k) as [x |] eqn:E; [now exists x |].
  apply nth_error_None in E. lia.
Qed.

Lemma bind_return {A B} (m : M A) (k : A -> M B) (d d' : QtDriver) (a : A) :
  m d = (d', Return a) -> bind m k d = k a d'.
Proof. intros H. unfold bind. now rewrite H. Qed.

Section RefreshLoops.

Variables TAG_ARCHIVED TAG_FAVORITE : Z.
Variable size : Z * Z.
Variable ratio : Q.

Lemma show_placeholder_hide (k : nat) (p : option (option Entry) * option ItemThumb)
    (b t : ItemThumb) (d : QtDriver) :
  pair_entry p = None -> snd p = Some b ->
  nth_error (item_thumbs d) k = Some t ->
  show_placeholder size ratio k p d
  = (with_item_thumbs (list_set (item_thumbs d) k (thumb_set_visible false t)) d,
     Return tt).
Proof.
  intros Hp Hb Ht. unfold show_placeholder. rewrite Hp, Hb.
  apply on_thumb_ok, Ht.
Qed.

Lemma show_placeholder_put (k : nat) (p : option (option Entry) * option ItemThumb)
    (e : Entry) (b t : ItemThumb) (d : QtDriver) :
  pair_entry p = Some e -> snd p = Some b ->
  nth_error (item_thumbs d) k = Some t ->
  show_placeholder size ratio k p d
  = (with_queue (thumb_job_queue d ++ [Job (placeholder_job size ratio k)])
       (with_item_thumbs
          (list_set (item_thumbs d) k
             (thumb_set_visible true
                (thumb_set_item_id e (thumb_set_mode (Some ENTRY) t)))) d),
     Return tt).
Proof.
  intros Hp Hb Ht. unfold show_placeholder. rewrite Hp, Hb.
  rewrite (bind_return _ _ _ _ _ (on_thumb_ok k b t _ d Ht)).
  reflexivity.
Qed.

(** Slots past the end of the frame are hidden, nothing is queued. *)
Lemma placeholder_loop_tail (snap : list ItemThumb) :
  forall (k : nat) (d : QtDriver),
    (k + List.length snap <= List.length (item_thumbs d))%nat ->
    exists ts',
      List.length ts' = List.length (item_thumbs d)
      /\ for_enumerate k (map (fun b => (@None (option Entry), Some b)) snap)
           (show_placeholder size ratio) d
         = (with_item_thumbs ts' d, Return tt).
Proof.
  induction snap as [| b r IH]; intros k d Hlen; simpl.
  - exists (item_thumbs d). split; [reflexivity |]. now destruct d.
  - simpl in Hlen.
    destruct (nth_error_in_range (item_thumbs d) k ltac:(lia)) as [t Ht].
    rewrite (bind_return _ _ _ _ _
               (show_placeholder_hide k (None, Some b) b t d eq_refl eq_refl Ht)).
    destruct (IH (S k) (with_item_thumbs (list_set (item_thumbs d) k
                                           (thumb_set_visible false t)) d))
      as [ts' [Hl He]].
    { simpl. rewrite length_list_set. lia. }
    exists ts'. split.
    + rewrite Hl. simpl. apply length_list_set.
    + rewrite He. reflexivity.
Qed.

(** First loop of [update_thumbs]: one placeholder job per populated
    slot, in grid order. *)
Lemma placeholder_loop (fc : list (option Entry)) :
  forall (snap : list ItemThumb) (k : nat) (d : QtDriver),
    (List.length fc <= List.length snap)%nat ->
    (k + List.length snap <= List.length (item_thumbs d))%nat ->
    exists ts',
      List.length ts' = List.length (item_thumbs d)
      /\ for_enumerate k (zip_longest fc snap) (show_placeholder size ratio) d
         = (with_queue
              (thumb_job_queue d
               ++ map (fun p => Job (placeholder_job size ratio (fst p)))
                    (populated_from k fc))
              (with_item_thumbs ts' d),
            Return tt).
Proof.
  induction fc as [| x r IH]; intros snap k d Hfc Hlen.
  - rewrite zip_longest_nil_l. simpl populated_from. simpl map at 2.
    destruct (placeholder_loop_tail snap k d Hlen) as [ts' [Hl He]].
    exists ts'. split; [assumption |]. rewrite He, app_nil_r.
    now destruct d.
  - destruct snap as [| b snap]; [simpl in Hfc; lia |].
    simpl in Hfc, Hlen. simpl zip_longest. simpl for_enumerate.
    destruct (nth_error_in_range (item_thumbs d) k ltac:(lia)) as [t Ht].
    destruct x as [e |].
    + rewrite (bind_return _ _ _ _ _
                 (show_placeholder_put k (Some (Some e), Some b) e b t d
                    eq_refl eq_refl Ht)).
      match goal with |- context [for_enumerate _ _ _ ?d1] =>
        destruct (IH snap (S k) d1) as [ts' [Hl He]] end.
      { lia. }
      { simpl. rewrite length_list_set. lia. }
      exists ts'. split.
      * rewrite Hl. simpl. apply length_list_set.
      * rewrite He. simpl. unfold with_queue, with_item_thumbs; simpl.
        rewrite <- app_assoc. reflexivity.
    + rewrite (bind_return _ _ _ _ _
                 (show_placeholder_hide k (Some None, Some b) b t d
                    eq_refl eq_refl Ht)).
      match goal with |- context [for_enumerate _ _ _ ?d1] =>
        destruct (IH snap (S k) d1) as [ts' [Hl He]] end.
      { lia. }
      { simpl. rewrite length_list_set. lia. }
      exists ts'. split.
      * rewrite Hl. simpl. apply length_list_set.
      * rewrite He. reflexivity.
Qed.

Lemma show_rendered_skip (k : nat) (p : option (option Entry) * option ItemThumb)
    (d : QtDriver) :
  pair_entry p = None ->
  show_rendered TAG_ARCHIVED TAG_FAVORITE size ratio k p d = (d, Return tt).
Proof.
  intros Hp. unfold show_rendered. now rewrite Hp.
Qed.

Lemma show_rendered_put (k : nat) (p : option (option Entry) * option ItemThumb)
    (e : Entry) (b t : ItemThumb) (dir : string) (d : QtDriver) :
  pair_entry p = Some e -> snd p = Some b ->
  library_dir (lib d) = Some dir ->
  nth_error (item_thumbs d) k = Some t ->
  show_rendered TAG_ARCHIVED TAG_FAVORITE size ratio k p d
  = (with_time_calls (S (S (time_calls d)))
       (with_queue
          (thumb_job_queue d
           ++ [Job (rendered_job size ratio dir k e (clock d (time_calls d)));
               Job (rendered_job size ratio dir k e (clock d (S (time_calls d))))])
          (with_item_thumbs (list_set (item_thumbs d) k (rendered_thumb TAG_ARCHIVED TAG_FAVORITE k e t)) d)),
     Return tt).
Proof.
  intros Hp Hb Hdir Ht. unfold show_rendered. rewrite Hp, Hb.
  unfold bind at 1. unfold gets at 1. rewrite Hdir.
  unfold bind at 1. unfold time_time at 1.
  unfold bind at 1. unfold put at 1. unfold modify at 1.
  unfold bind at 1.
  rewrite (on_thumb_ok k b t).
  2:{ exact Ht. }
  unfold bind at 1. unfold gets at 1.
  unfold bind at 1. unfold gets at 1.
  cbn [item_thumbs with_item_thumbs with_queue with_time_calls].
  rewrite (nth_error_list_set_eq _ _ _ _ Ht).
  rewrite tuple_not_in_selection.
  unfold bind at 1.
  erewrite on_thumb_ok
    by (cbn [item_thumbs with_item_thumbs];
        apply nth_error_list_set_eq with (x := t); exact Ht).
  unfold bind, time_time, put, modify.
  cbn [item_thumbs with_item_thumbs with_queue with_time_calls thumb_job_queue
       time_calls clock lib frame_content filter pages_count thumb_size
       update_cutoff selected autofill_disabled device_pixel_ratio].
  rewrite list_set_twice, <- app_assoc. reflexivity.
Qed.

Lemma rendered_loop_tail (snap : list ItemThumb) :
  forall (k : nat) (d : QtDriver),
    for_enumerate k (map (fun b => (@None (option Entry), Some b)) snap)
      (show_rendered TAG_ARCHIVED TAG_FAVORITE size ratio) d
    = (d, Return tt).
Proof.
  induction snap as [| b r IH]; intros k d; simpl; [reflexivity |].
  rewrite (bind_return _ _ _ _ _ (show_rendered_skip k (None, Some b) d eq_refl)).
  apply IH.
Qed.

(** Second loop of [update_thumbs]: two content jobs per populated slot,
    in grid order, each stamped with its own clock reading; the thumb of
    every populated slot ends up unselected. *)
Lemma rendered_loop (dir : string) (fc : list (option Entry)) :
  forall (snap : list ItemThumb) (k : nat) (d : QtDriver),
    library_dir (lib d) = Some dir ->
    (List.length fc <= List.length snap)%nat ->
    (k + List.length snap <= List.length (item_thumbs d))%nat ->
    exists ts',
      List.length ts' = List.length (item_thumbs d)
      /\ (forall j, (j < k)%nat -> nth_error ts' j = nth_error (item_thumbs d) j)
      /\ (forall j e, In (j, e) (populated_from k fc) ->
            exists t, nth_error ts' j = Some t /\ thumb_selected t = false)
      /\ for_enumerate k (zip_longest fc snap)
           (show_rendered TAG_ARCHIVED TAG_FAVORITE size ratio) d
         = (with_time_calls
              (time_calls d + 2 * List.length (populated_from k fc))
              (with_queue
                 (thumb_job_queue d
                  ++ map Job (rendered_jobs size ratio dir (clock d) (time_calls d)
                                (populated_from k fc)))
                 (with_item_thumbs ts' d)),
            Return tt).
Proof.
  induction fc as [| x r IH]; intros snap k d Hdir Hfc Hlen.
  - rewrite zip_longest_nil_l, rendered_loop_tail. simpl.
    exists (item_thumbs d). repeat split; auto.
    + intros j e [].
    + rewrite app_nil_r, Nat.add_0_r. now destruct d.
  - destruct snap as [| b snap]; [simpl in Hfc; lia |].
    simpl in Hfc, Hlen. simpl zip_longest. simpl for_enumerate.
    destruct (nth_error_in_range (item_thumbs d) k ltac:(lia)) as [t Ht].
    destruct x as [e |].
    + rewrite (bind_return _ _ _ _ _
                 (show_rendered_put k (Some (Some e), Some b) e b t dir d
                    eq_refl eq_refl Hdir Ht)).
      match goal with |- context [for_enumerate _ _ _ ?d1] =>
        destruct (IH snap (S k) d1) as [ts' [Hl [Hlow [Hsel He]]]] end.
      { exact Hdir. }
      { lia. }
      { simpl. rewrite length_list_set. lia. }
      simpl in Hl, Hlow. rewrite length_list_set in Hl.
      exists ts'. split; [exact Hl |]. split; [| split].
      * intros j Hj. rewrite Hlow by lia.
        apply nth_error_list_set_neq. lia.
      * intros j e' [Hin | Hin].
        -- injection Hin as <- <-. exists (rendered_thumb TAG_ARCHIVED TAG_FAVORITE k e t). split; [| reflexivity].
           rewrite Hlow by lia. apply nth_error_list_set_eq with (x := t). exact Ht.
        -- apply (Hsel j e' Hin).
      * rewrite He. f_equal.
        simpl populated_from. simpl rendered_jobs.
        unfold with_time_calls, with_queue, with_item_thumbs.
        cbn [item_thumbs thumb_job_queue time_calls clock lib frame_content filter
             pages_count thumb_size update_cutoff selected autofill_disabled
             device_pixel_ratio].
        f_equal.
        -- rewrite <- app_assoc. reflexivity.
        -- simpl List.length. lia.
    + rewrite (bind_return _ _ _ _ _
                 (show_rendered_skip k (Some None, Some b) d eq_refl)).
      destruct (IH snap (S k) d Hdir) as [ts' [Hl [Hlow [Hsel He]]]]; [lia | lia |].
      exists ts'. split; [exact Hl |]. split; [| split].
      * intros j Hj. apply Hlow. lia.
      * intros j e' Hin. apply (Hsel j e' Hin).
      * rewrite He. reflexivity.
Qed.

End RefreshLoops.

Lemma cancel_thumb_jobs_run (d : QtDriver) :
  cancel_thumb_jobs d
  = (with_cutoff (Time (clock d (time_calls d)))
       (with_time_calls (S (time_calls d)) (with_queue [] d)),
     Return tt).
Proof. reflexivity. Qed.

(** A refresh on a grid that covers the frame, with a library directory
    set, returns; it leaves the placeholder jobs followed by the content
    jobs in the queue and every populated slot's thumb unselected. *)
Lemma update_thumbs_run (TAG_ARCHIVED TAG_FAVORITE : Z) (d : QtDriver) (dir : string) :
  library_dir (lib d) = Some dir ->
  (List.length (frame_content d) <= List.length (item_thumbs d))%nat ->
  exists ts',
    List.length ts' = List.length (item_thumbs d)
    /\ (forall j e, nth_error (frame_content d) j = Some (Some e) ->
          exists t, nth_error ts' j = Some t /\ thumb_selected t = false)
    /\ update_thumbs TAG_ARCHIVED TAG_FAVORITE d
       = (with_time_calls
            (S (time_calls d) + 2 * List.length (populated_from 0 (frame_content d)))
            (with_queue
               (map (fun p => Job (placeholder_job (thumb_size d, thumb_size d)
                                     (device_pixel_ratio d) (fst p)))
                    (populated_from 0 (frame_content d))
                ++ map Job (rendered_jobs (thumb_size d, thumb_size d)
                              (device_pixel_ratio d) dir (clock d)
                              (S (time_calls d))
                              (populated_from 0 (frame_content d))))
               (with_item_thumbs ts'
                  (with_cutoff (Time (clock d (time_calls d))) d))),
          Return tt).
Proof.
  intros Hdir Hlen. unfold update_thumbs.
  rewrite (bind_return _ _ _ _ _ (cancel_thumb_jobs_run d)).
  do 4 (unfold bind at 1; unfold gets at 1).
  set (d0 := with_cutoff _ _).
  destruct (placeholder_loop (thumb_size d0, thumb_size d0) (device_pixel_ratio d0)
              (frame_content d0) (item_thumbs d0) 0 d0)
    as [ts1 [Hl1 He1]]; [exact Hlen | simpl; lia |].
  rewrite (bind_return _ _ _ _ _ He1).
  do 2 (unfold bind at 1; unfold gets at 1).
  match goal with |- context [for_enumerate _ _ _ ?x] => set (d1 := x) end.
  destruct (rendered_loop TAG_ARCHIVED TAG_FAVORITE
              (thumb_size d0, thumb_size d0) (device_pixel_ratio d0) dir
              (frame_content d1) (item_thumbs d1) 0 d1)
    as [ts2 [Hl2 [_ [Hsel He2]]]].
  { exact Hdir. }
  { subst d1. simpl. rewrite Hl1. exact Hlen. }
  { simpl. lia. }
  exists ts2. split; [| split].
  - rewrite Hl2. subst d1. simpl. exact Hl1.
  - intros j e Hj. apply (Hsel j e). apply populated_from_spec.
    split; [lia |]. subst d1 d0. simpl. now rewrite Nat.sub_0_r.
  - rewrite He2. reflexivity.
Qed.

Lemma jobs_for_slot_app (k : nat) (a b : list queue_item) :
  jobs_for_slot k (a ++ b) = (jobs_for_slot k a ++ jobs_for_slot k b)%list.
Proof. unfold jobs_for_slot. apply flat_map_app. Qed.

Section SlotJobs.

Variable size : Z * Z.
Variable ratio : Q.

Lemma placeholders_unpopulated (fc : list (option Entry)) :
  forall s k, (k < s)%nat ->
    jobs_for_slot k (map (fun p => Job (placeholder_job size ratio (fst p)))
                       (populated_from s fc)) = [].
Proof.
  induction fc as [| [e |] r IH]; intros s k Hk; simpl; auto.
  replace (Nat.eqb s k) with false by (symmetry; apply Nat.eqb_neq; lia).
  simpl. apply IH. lia.
Qed.

Lemma placeholders_for_slot (fc : list (option Entry)) :
  forall s k e, (s <= k)%nat -> nth_error fc (k - s) = Some (Some e) ->
    jobs_for_slot k (map (fun p => Job (placeholder_job size ratio (fst p)))
                       (populated_from s fc))
    = [placeholder_job size ratio k].
Proof.
  induction fc as [| x r IH]; intros s k e Hs Hn.
  - destruct (k - s)%nat; discriminate.
  - destruct (Nat.eq_dec s k) as [<- | Hne].
    + rewrite Nat.sub_diag in Hn. simpl in Hn. injection Hn as ->.
      simpl. rewrite Nat.eqb_refl. simpl.
      rewrite placeholders_unpopulated by lia. reflexivity.
    + replace (k - s)%nat with (S (k - S s)) in Hn by lia. simpl in Hn.
      assert (Hr := IH (S s) k e ltac:(lia) Hn).
      destruct x as [e0 |]; simpl; [| exact Hr].
      replace (Nat.eqb s k) with false by (symmetry; apply Nat.eqb_neq; lia).
      simpl. exact Hr.
Qed.

Variable dir : string.
Variable clk : nat -> N.

Lemma rendered_unpopulated (fc : list (option Entry)) :
  forall s k c, (k < s)%nat ->
    jobs_for_slot k (map Job (rendered_jobs size ratio dir clk c (populated_from s fc)))
    = [].
Proof.
  induction fc as [| [e |] r IH]; intros s k c Hk; simpl; auto.
  replace (Nat.eqb s k) with false by (symmetry; apply Nat.eqb_neq; lia).
  simpl. apply IH. lia.
Qed.

Lemma rendered_for_slot (fc : list (option Entry)) :
  forall s k c e, (s <= k)%nat -> nth_error fc (k - s) = Some (Some e) ->
    exists c', (c <= c')%nat
      /\ jobs_for_slot k (map Job (rendered_jobs size ratio dir clk c
                                    (populated_from s fc)))
         = [rendered_job size ratio dir k e (clk c');
            rendered_job size ratio dir k e (clk (S c'))].
Proof.
  induction fc as [| x r IH]; intros s k c e Hs Hn.
  - destruct (k - s)%nat; discriminate.
  - destruct (Nat.eq_dec s k) as [<- | Hne].
    + rewrite Nat.sub_diag in Hn. simpl in Hn. injection Hn as ->.
      exists c. split; [lia |].
      simpl. rewrite Nat.eqb_refl. simpl.
      rewrite rendered_unpopulated by lia. reflexivity.
    + replace (k - s)%nat with (S (k - S s)) in Hn by lia. simpl in Hn.
      destruct x as [e0 |]; simpl.
      * destruct (IH (S s) k (S (S c)) e ltac:(lia) Hn) as [c' [Hc Hr]].
        exists c'. split; [lia |].
        replace (Nat.eqb s k) with false by (symmetry; apply Nat.eqb_neq; lia).
        simpl. exact Hr.
      * destruct (IH (S s) k c e ltac:(lia) Hn) as [c' [Hc Hr]].
        exists c'. split; [lia | exact Hr].
Qed.

End SlotJobs.

Lemma preserves_cancel_thumb_jobs {X} (f : QtDriver -> X) :
  display_blind f -> preserves f cancel_thumb_jobs.
Proof.
  intros Hf d. rewrite cancel_thumb_jobs_run. simpl.
  now rewrite (blind_cutoff f Hf), (blind_time f Hf), (blind_queue f Hf).
Qed.

Lemma preserves_show_placeholder {X} (f : QtDriver -> X) size ratio k p :
  display_blind f -> preserves f (show_placeholder size ratio k p).
Proof. intros Hf. unfold show_placeholder. frame. Qed.

Lemma preserves_show_rendered {X} (f : QtDriver -> X) ta tf size ratio k p :
  display_blind f -> preserves f (show_rendered ta tf size ratio k p).
Proof. intros Hf. unfold show_rendered. frame. Qed.

#[export] Hint Resolve preserves_cancel_thumb_jobs preserves_show_placeholder
  preserves_show_rendered : frame.

(** A refresh changes only widgets, queue, cutoff and clock position. *)
Lemma preserves_update_thumbs {X} (f : QtDriver -> X) ta tf :
  display_blind f -> preserves f (update_thumbs ta tf).
Proof. intros Hf. unfold update_thumbs. frame. Qed.

#[export] Hint Resolve preserves_update_thumbs : frame.

(** A search never touches the selection. *)
Lemma filter_items_selected ta tf (new_filter : option FilterState) :
  preserves selected (filter_items ta tf new_filter).
Proof. unfold filter_items. frame. Qed.

Lemma page_move_selected ta tf (delta page_id : option Z) :
  preserves selected (page_move ta tf delta page_id).
Proof.
  pose proof (filter_items_selected ta tf None). unfold page_move. frame.
Qed.

(** A search without a new filter keeps the filter, page index included. *)
Lemma filter_items_keeps_filter ta tf :
  preserves filter (filter_items ta tf None).
Proof. unfold filter_items. frame. Qed.

(** C3, as stated, fails: a populated slot gets three jobs, not two.  On a
    frame of one entry the refresh queues the placeholder job of slot 0 and
    then two content jobs for it. *)
Lemma update_thumbs_two_jobs_counterexample :
  result (update_thumbs 0 1) grid_one_entry = Return tt
  /\ jobs_for_slot 0 (thumb_job_queue (exec (update_thumbs 0 1) grid_one_entry))
     = [placeholder_job (128, 128) (1 # 1)%Q 0;
        rendered_job (128, 128) (1 # 1)%Q "/lib" 0 (sample_entry 1) 101;
        rendered_job (128, 128) (1 # 1)%Q "/lib" 0 (sample_entry 1) 102]
  /\ List.length
       (jobs_for_slot 0 (thumb_job_queue (exec (update_thumbs 0 1) grid_one_entry)))
     <> 2%nat.
Proof.
  split; [reflexivity |]. split; [reflexivity |].
  vm_compute. discriminate.
Qed.

(** C3, amended.  A refresh of a frame that fits the grid, with a library
    directory set, returns and leaves in the queue first one placeholder job
    (empty path, [sys.float_info.max]) per populated slot, then two content
    jobs per populated slot, both with the entry's path under the library
    directory and stamped with consecutive clock readings.  So each
    populated slot has three jobs: its placeholder, queued before every
    content job, and two content jobs. *)
Theorem update_thumbs_jobs_per_slot (TAG_ARCHIVED TAG_FAVORITE : Z)
    (d : QtDriver) (dir : string) :
  library_dir (lib d) = Some dir ->
  (List.length (frame_content d) <= List.length (item_thumbs d))%nat ->
  result (update_thumbs TAG_ARCHIVED TAG_FAVORITE) d = Return tt
  /\ thumb_job_queue (exec (update_thumbs TAG_ARCHIVED TAG_FAVORITE) d)
     = (map (fun p => Job (placeholder_job (thumb_size d, thumb_size d)
                             (device_pixel_ratio d) (fst p)))
          (populated_from 0 (frame_content d))
        ++ map Job (rendered_jobs (thumb_size d, thumb_size d)
                      (device_pixel_ratio d) dir (clock d) (S (time_calls d))
                      (populated_from 0 (frame_content d))))%list
  /\ (forall k e,
        nth_error (frame_content d) k = Some (Some e) ->
        exists c,
          (time_calls d < c)%nat
          /\ jobs_for_slot k
               (thumb_job_queue (exec (update_thumbs TAG_ARCHIVED TAG_FAVORITE) d))
             = [placeholder_job (thumb_size d, thumb_size d) (device_pixel_ratio d) k;
                rendered_job (thumb_size d, thumb_size d) (device_pixel_ratio d)
                  dir k e (clock d c);
                rendered_job (thumb_size d, thumb_size d) (device_pixel_ratio d)
                  dir k e (clock d (S c))]).
Proof.
  intros Hdir Hlen.
  destruct (update_thumbs_run TAG_ARCHIVED TAG_FAVORITE d dir Hdir Hlen)
    as [ts' [_ [_ He]]].
  unfold result, exec. rewrite He. simpl.
  split; [reflexivity |]. split; [reflexivity |].
  intros k e Hk. rewrite jobs_for_slot_app.
  rewrite (placeholders_for_slot _ _ _ 0%nat k e)
    by (try lia; now rewrite Nat.sub_0_r).
  destruct (rendered_for_slot (thumb_size d, thumb_size d) (device_pixel_ratio d)
              dir (clock d) (frame_content d) 0%nat k (S (time_calls d)) e)
    as [c [Hc Hr]]; [lia | now rewrite Nat.sub_0_r |].
  exists c. split; [lia |]. rewrite Hr. reflexivity.
Qed.

Lemma update_thumbs_jobs_per_slot_witness :
  result (update_thumbs 0 1) grid_with_gap = Return tt
  /\ thumb_job_queue (exec (update_thumbs 0 1) grid_with_gap)
     = (map (fun p => Job (placeholder_job (thumb_size grid_with_gap,
                                            thumb_size grid_with_gap)
                             (device_pixel_ratio grid_with_gap) (fst p)))
          (populated_from 0 (frame_content grid_with_gap))
        ++ map Job (rendered_jobs (thumb_size grid_with_gap, thumb_size grid_with_gap)
                      (device_pixel_ratio grid_with_gap) "/lib" (clock grid_with_gap)
                      (S (time_calls grid_with_gap))
                      (populated_from 0 (frame_content grid_with_gap))))%list
  /\ (forall k e,
        nth_error (frame_content grid_with_gap) k = Some (Some e) ->
        exists c,
          (time_calls grid_with_gap < c)%nat
          /\ jobs_for_slot k (thumb_job_queue (exec (update_thumbs 0 1) grid_with_gap))
             = [placeholder_job (thumb_size grid_with_gap, thumb_size grid_with_gap)
                  (device_pixel_ratio grid_with_gap) k;
                rendered_job (thumb_size grid_with_gap, thumb_size grid_with_gap)
                  (device_pixel_ratio grid_with_gap) "/lib" k e
                  (clock grid_with_gap c);
                rendered_job (thumb_size grid_with_gap, thumb_size grid_with_gap)
                  (device_pixel_ratio grid_with_gap) "/lib" k e
                  (clock grid_with_gap (S c))]).
Proof.
  apply (update_thumbs_jobs_per_slot 0 1 grid_with_gap "/lib").
  - reflexivity.
  - simpl. lia.
Defined.

(** Whatever the selection, a refresh that returns leaves the thumb of
    every populated slot unselected: the membership test looks up a
    [(mode, item_id)] tuple among grid indices. *)
Lemma update_thumbs_unselects_populated (TAG_ARCHIVED TAG_FAVORITE : Z)
    (d : QtDriver) (dir : string) (k : nat) (e : Entry) :
  library_dir (lib d) = Some dir ->
  (List.length (frame_content d) <= List.length (item_thumbs d))%nat ->
  nth_error (frame_content d) k = Some (Some e) ->
  exists t,
    nth_error (item_thumbs (exec (update_thumbs TAG_ARCHIVED TAG_FAVORITE) d)) k = Some t
    /\ thumb_selected t = false.
Proof.
  intros Hdir Hlen Hk.
  destruct (update_thumbs_run TAG_ARCHIVED TAG_FAVORITE d dir Hdir Hlen)
    as [ts' [_ [Hsel He]]].
  unfold exec. rewrite He. simpl. apply (Hsel k e Hk).
Qed.

(** C5 fails on the code.  Slot 0 is selected by a plain click, which
    marks its thumb; the refresh that follows returns, keeps 0 in the
    selection, and leaves the thumb of slot 0 unmarked. *)
Theorem update_thumbs_loses_selected_border :
  map thumb_selected (item_thumbs (exec (select_item 0 false false) grid_two_entries))
  = [true; false; false; false]
  /\ result (update_thumbs 0 1) (exec (select_item 0 false false) grid_two_entries)
     = Return tt
  /\ selected (exec (update_thumbs 0 1)
                 (exec (select_item 0 false false) grid_two_entries)) = [0]
  /\ populated_index (exec (update_thumbs 0 1)
                        (exec (select_item 0 false false) grid_two_entries)) 0 = true
  /\ map thumb_selected
       (item_thumbs (exec (update_thumbs 0 1)
                       (exec (select_item 0 false false) grid_two_entries)))
     = [false; false; false; false].
Proof.
  repeat split; reflexivity.
Qed.

(** C4 fails on the code.  With six entries shown and slot 5 selected, a
    search that finds two entries replaces the frame and keeps the
    selection: index 5 then designates no populated slot. *)
Theorem filter_items_keeps_stale_selection :
  selection_within_frame grid_last_selected = true
  /\ result (filter_items 0 1 None) grid_last_selected = Return tt
  /\ frame_content (exec (filter_items 0 1 None) grid_last_selected)
     = [Some (sample_entry 10); Some (sample_entry 11)]
  /\ selected (exec (filter_items 0 1 None) grid_last_selected) = [5]
  /\ selection_within_frame (exec (filter_items 0 1 None) grid_last_selected) = false.
Proof.
  repeat split; reflexivity.
Qed.

(** The other operations on the selection keep it within the frame, on a
    frame without emptied slots (as every search leaves it): a click on a
    populated slot in any mode, select-all, clear-select and the closing of
    the library. *)
Lemma select_item_frame (i : Z) (append bridge : bool) :
  preserves frame_content (select_item i append bridge).
Proof. unfold select_item. frame. Qed.

Lemma selection_within_frame_spec (d : QtDriver) :
  selection_within_frame d = true
  <-> forall i, In i (selected d) -> populated_index d i = true.
Proof. unfold selection_within_frame. apply forallb_forall. Qed.

Lemma populated_index_dense (d : QtDriver) (i : Z) :
  frame_dense d = true ->
  (populated_index d i = true
   <-> 0 <= i < Z.of_nat (List.length (frame_content d))).
Proof.
  unfold frame_dense, populated_index. intros Hd.
  rewrite Bool.andb_true_iff, Z.leb_le. split.
  - intros [H0 Hn]. split; [exact H0 |].
    destruct (nth_error (frame_content d) (Z.to_nat i)) eqn:E; [| discriminate].
    assert (E' : nth_error (frame_content d) (Z.to_nat i) <> None) by congruence.
    apply nth_error_Some in E'. lia.
  - intros [H0 Hn]. split; [exact H0 |].
    destruct (nth_error_in_range (frame_content d) (Z.to_nat i) ltac:(lia)) as [x Hx].
    rewrite Hx. rewrite forallb_forall in Hd.
    specialize (Hd x (nth_error_In _ _ Hx)). destruct x; [reflexivity | discriminate].
Qed.

Lemma select_item_within_frame (d : QtDriver) (i : Z) (append bridge : bool) :
  frame_dense d = true ->
  selection_within_frame d = true ->
  populated_index d i = true ->
  selection_within_frame (exec (select_item i append bridge) d) = true.
Proof.
  intros Hd Hs Hi.
  rewrite selection_within_frame_spec in *.
  assert (Hpop : forall k, populated_index (exec (select_item i append bridge) d) k
                           = populated_index d k).
  { intros k. unfold populated_index, exec. now rewrite select_item_frame. }
  intros k Hk. rewrite Hpop. rewrite select_item_selected in Hk.
  destruct append.
  - destruct (py_in i (selected d)) eqn:Ein.
    + apply py_in_spec in Ein.
      destruct (py_remove_spec i (selected d) Ein) as [s' [Hr [_ [Hsub _]]]].
      rewrite Hr in Hk. auto.
    + apply in_app_or in Hk. destruct Hk as [Hk | [<- | []]]; auto.
  - destruct bridge, (py_min (selected d)) as [lo |] eqn:Elo,
      (py_max (selected d)) as [hi |] eqn:Ehi;
      try (destruct Hk as [<- | []]; exact Hi).
    apply py_min_spec in Elo. apply py_max_spec in Ehi.
    destruct Elo as [Hlo _], Ehi as [Hhi _].
    apply Hs in Hlo. apply Hs in Hhi.
    rewrite populated_index_dense in * by exact Hd.
    destruct (hi <? i); apply In_py_range in Hk; lia.
Qed.

Lemma select_all_within_frame (d : QtDriver) :
  frame_dense d = true ->
  selection_within_frame (exec select_all_action_callback d) = true.
Proof.
  intros Hd. rewrite selection_within_frame_spec.
  assert (Hsel : selected (exec select_all_action_callback d)
                 = py_range 0 (Z.of_nat (List.length (frame_content d)))).
  { unfold exec, select_all_action_callback.
    unfold bind at 1. unfold gets at 1.
    rewrite bind_tail; [reflexivity |].
    intros ?. apply preserves_bind;
      [| intros ?; apply preserves_set_macro_menu_viability, selected_blind].
    apply preserves_for_each. intros ?.
    apply preserves_set_thumb_selected, selected_blind. }
  assert (Hfc : frame_content (exec select_all_action_callback d) = frame_content d).
  { unfold exec, select_all_action_callback.
    unfold bind at 1. unfold gets at 1.
    rewrite bind_tail; [reflexivity |].
    intros ?. apply preserves_bind;
      [| intros ?; apply preserves_set_macro_menu_viability, frame_content_blind].
    apply preserves_for_each. intros ?.
    apply preserves_set_thumb_selected, frame_content_blind. }
  intros i Hi. rewrite Hsel in Hi. apply In_py_range in Hi.
  unfold populated_index. rewrite Hfc.
  apply (populated_index_dense d i Hd). lia.
Qed.

Lemma clear_select_within_frame (d : QtDriver) :
  selection_within_frame (exec clear_select_action_callback d) = true.
Proof. reflexivity. Qed.

Lemma close_library_within_frame (lib_close : Library -> Library)
    (is_shutdown : bool) (d : QtDriver) :
  selection_within_frame d = true ->
  selection_within_frame (exec (close_library lib_close is_shutdown) d) = true.
Proof.
  intros Hs. unfold exec, close_library, bind, gets, modify, ret. simpl.
  destruct (library_dir (lib d)); [| exact Hs].
  destruct is_shutdown; simpl; [exact Hs | reflexivity].
Qed.

(** ** Pagination *)








(** A search on an open library whose results fit the grid returns, shows
    the found entries and sets the page count from the total. *)
Lemma filter_items_run (TAG_ARCHIVED TAG_FAVORITE : Z) (d : QtDriver)
    (new_filter : option FilterState) (dir : string) :
  let flt := match new_filter with Some f => f | None => filter d end in
  let results := search_library (lib d) flt in
  library_dir (lib d) = Some dir ->
  engine (lib d) = true ->
  page_size flt <> 0 ->
  (List.length (items results) <= List.length (item_thumbs d))%nat ->
  result (filter_items TAG_ARCHIVED TAG_FAVORITE new_filter) d = Return tt
  /\ frame_content (exec (filter_items TAG_ARCHIVED TAG_FAVORITE new_filter) d)
     = map Some (items results)
  /\ filter (exec (filter_items TAG_ARCHIVED TAG_FAVORITE new_filter) d) = flt
  /\ pages_count (exec (filter_items TAG_ARCHIVED TAG_FAVORITE new_filter) d)
     = ceil_div (total_count results) (page_size flt).
Proof.
  intros flt results Hdir Heng Hps Hlen.
  set (d1 := match new_filter with
             | Some f => with_filter f d
             | None => d
             end).
  set (d2 := with_frame_content (map Some (items results))
               (with_time_calls (S (S (time_calls d1))) d1)).
  assert (Hflt : filter d1 = flt) by (subst d1 flt; now destruct new_filter).
  destruct (update_thumbs_run TAG_ARCHIVED TAG_FAVORITE d2 dir) as [ts' [_ [_ He]]].
  { subst d2 d1. now destruct new_filter. }
  { subst d2 d1. simpl. rewrite length_map. now destruct new_filter. }
  set (d3 := fst (update_thumbs TAG_ARCHIVED TAG_FAVORITE d2)).
  assert (Hrun : filter_items TAG_ARCHIVED TAG_FAVORITE new_filter d
                 = (with_pages_count
                      (ceil_div (total_count results) (page_size flt)) d3,
                    Return tt)).
  { unfold filter_items.
    unfold bind at 1. unfold gets at 1. rewrite Hdir, Heng. cbn [negb].
    assert (H1 : (match new_filter with
                  | Some f => modify (with_filter f)
                  | None => ret tt
                  end) d = (d1, Return tt)) by (subst d1; now destruct new_filter).
    rewrite (bind_return _ _ _ _ _ H1).
    unfold bind at 1. unfold gets at 1. rewrite Hflt.
    unfold bind at 1. unfold time_time at 1.
    unfold bind at 1. unfold time_time at 1.
    unfold bind at 1. unfold modify at 1.
    assert (H2 : update_thumbs TAG_ARCHIVED TAG_FAVORITE d2 = (d3, Return tt)).
    { subst d3. rewrite He. reflexivity. }
    change (with_frame_content _ _) with d2.
    rewrite (bind_return _ _ _ _ _ H2).
    destruct (Z.eqb_spec (page_size flt) 0) as [E | _]; [contradiction |].
    reflexivity. }
  unfold result, exec. rewrite Hrun. simpl.
  split; [reflexivity |].
  subst d3.
  rewrite (preserves_update_thumbs frame_content _ _ frame_content_blind d2).
  rewrite (preserves_update_thumbs filter _ _ filter_blind d2).
  subst d2. simpl. rewrite Hflt. repeat split; reflexivity.
Qed.




(** The figures of the specification: 23 results on pages of 10 give 3
    pages; from there page 5 becomes page 2 and page -1 becomes page 0. *)
Example page_count_23_by_10 :
  pages_count (exec (filter_items 0 1 None) library_of_23) = 3.
Proof. reflexivity. Qed.

Example page_move_above_range :
  page_index
    (filter (exec (page_move 0 1 None (Some 5))
               (exec (filter_items 0 1 None) library_of_23))) = 2.
Proof. reflexivity. Qed.

Example page_move_below_range :
  page_index
    (filter (exec (page_move 0 1 None (Some (-1)))
               (exec (filter_items 0 1 None) library_of_23))) = 0.
Proof. reflexivity. Qed.

(** The range is that of the page count found by the previous search: when
    the results have shrunk, the index stays beyond the count that the
    search inside [page_move] then computes. *)
Example page_move_after_shrink :
  pages_count library_shrunk = 3
  /\ page_index (filter library_shrunk) = 2
  /\ result (page_move 0 1 (Some 0) None) library_shrunk = Return tt
  /\ page_index (filter (exec (page_move 0 1 (Some 0) None) library_shrunk)) = 2
  /\ pages_count (exec (page_move 0 1 (Some 0) None) library_shrunk) = 1.
Proof. repeat split; reflexivity. Qed.

(** ** The worker loop *)

Lemma Consumer_run_survived (call : RenderJob -> outcome unit)
    (j : RenderJob) (rest : list queue_item) :
  survived (call j) = true ->
  Consumer_run call (Job j :: rest) = trace_cons j (Consumer_run call rest).
Proof.
  simpl. destruct (call j) as [u | e]; simpl; [reflexivity |].
  intros ->. reflexivity.
Qed.

(** C2, as stated, fails: a job raising [ValueError] ends the loop, and the
    job queued behind it is not invoked. *)
Lemma Consumer_run_crash_counterexample :
  Consumer_run
    (fun j => if Nat.eqb (job_slot j) 0 then Raise ValueError else Return tt)
    [Job (placeholder_job (128, 128) (1 # 1)%Q 0);
     Job (placeholder_job (128, 128) (1 # 1)%Q 1);
     MARKER_QUIT]
  = mkTrace [placeholder_job (128, 128) (1 # 1)%Q 0]
      (Uncaught ValueError)
      [Job (placeholder_job (128, 128) (1 # 1)%Q 1); MARKER_QUIT].
Proof. reflexivity. Qed.

(** C2, amended.  The loop goes on to the next job after a render call
    that returns or raises a [RuntimeError] (the error is dropped); it ends
    at the quit marker.  Any other exception leaves [run]: the worker loop
    ends there and the jobs behind stay in the queue. *)
Theorem Consumer_run_outcomes (call : RenderJob -> outcome unit) :
  (forall pre post,
      (forall j, In j pre -> survived (call j) = true) ->
      Consumer_run call (map Job pre ++ MARKER_QUIT :: post) = mkTrace pre Quit post)
  /\ (forall pre,
        (forall j, In j pre -> survived (call j) = true) ->
        Consumer_run call (map Job pre) = mkTrace pre Waiting [])
  /\ (forall pre j e post,
        (forall j', In j' pre -> survived (call j') = true) ->
        call j = Raise e ->
        is_RuntimeError e = false ->
        Consumer_run call (map Job pre ++ Job j :: post)
        = mkTrace (pre ++ [j]) (Uncaught e) post).
Proof.
  split; [| split].
  - intros pre post. induction pre as [| x r IH]; intros H; simpl map; simpl app.
    + reflexivity.
    + rewrite Consumer_run_survived by (apply H; now left).
      rewrite IH by (intros j Hj; apply H; now right). reflexivity.
  - intros pre. induction pre as [| x r IH]; intros H; simpl map.
    + reflexivity.
    + rewrite Consumer_run_survived by (apply H; now left).
      rewrite IH by (intros j Hj; apply H; now right). reflexivity.
  - intros pre j e post. induction pre as [| x r IH]; intros H Hj He;
      simpl map; simpl app.
    + simpl. rewrite Hj, He. reflexivity.
    + rewrite Consumer_run_survived by (apply H; now left).
      rewrite IH by (auto; intros j' Hj'; apply H; now right). reflexivity.
Qed.

Lemma Consumer_run_outcomes_witness :
  Consumer_run
    (fun j => if Nat.eqb (job_slot j) 0 then Raise RuntimeError else Return tt)
    (map Job [placeholder_job (128, 128) (1 # 1)%Q 0;
              placeholder_job (128, 128) (1 # 1)%Q 1]
     ++ MARKER_QUIT :: [Job (placeholder_job (128, 128) (1 # 1)%Q 2)])
  = mkTrace [placeholder_job (128, 128) (1 # 1)%Q 0;
             placeholder_job (128, 128) (1 # 1)%Q 1]
      Quit [Job (placeholder_job (128, 128) (1 # 1)%Q 2)].
Proof.
  apply (proj1 (Consumer_run_outcomes
                  (fun j => if Nat.eqb (job_slot j) 0
                            then Raise RuntimeError else Return tt))).
  intros j [<- | [<- | []]]; reflexivity.
Defined.

(** ** Recent libraries *)

Lemma ltb_asym (a b : string) : String.ltb a b = true -> String.ltb b a = false.
Proof.
  unfold String.ltb. rewrite (String.compare_antisym b a).
  destruct (String.compare a b); simpl; congruence.
Qed.

Lemma ltb_irrefl (a : string) : String.ltb a a = false.
Proof.
  destruct (String.ltb a a) eqn:E; [| reflexivity].
  pose proof (ltb_asym a a E). congruence.
Qed.

Lemma ltb_total (a b : string) :
  String.ltb a b = false -> a <> b -> String.ltb b a = true.
Proof.
  unfold String.ltb. rewrite (String.compare_antisym b a).
  destruct (String.compare a b) eqn:E; simpl; try congruence.
  intros _ Hne. apply String.compare_eq_iff in E. congruence.
Qed.

Lemma assign_fresh (k v : string) (d : list (string * string)) :
  ~ In k (map fst d) -> assign k v d = (d ++ [(k, v)])%list.
Proof.
  induction d as [| [k' w] r IH]; simpl; intros H; [reflexivity |].
  destruct (String.eqb_spec k' k) as [-> | Hne]; [tauto |].
  rewrite IH by tauto. reflexivity.
Qed.

Lemma assign_present (k v : string) (d : list (string * string)) :
  In k (map fst d) -> map fst (assign k v d) = map fst d.
Proof.
  induction d as [| [k' w] r IH]; simpl; intros H; [contradiction |].
  destruct (String.eqb_spec k' k) as [-> | Hne]; [reflexivity |].
  simpl. rewrite IH; [reflexivity |]. destruct H; congruence.
Qed.

Lemma assign_keys_NoDup (k v : string) (d : list (string * string)) :
  NoDup (map fst d) -> NoDup (map fst (assign k v d)).
Proof.
  intros H. destruct (in_dec string_dec k (map fst d)) as [Hin | Hni].
  - now rewrite assign_present.
  - rewrite assign_fresh, map_app by assumption. simpl.
    apply NoDup_app; [assumption | repeat constructor; intros [] |].
    intros x Hx [<- | []]. contradiction.
Qed.

Lemma assign_In (k v : string) (d : list (string * string)) (k' v' : string) :
  In (k', v') (assign k v d) -> (k' = k /\ v' = v) \/ In (k', v') d.
Proof.
  induction d as [| [k0 w] r IH]; simpl.
  - intros [H | []]. left. split; congruence.
  - destruct (String.eqb_spec k0 k) as [-> | Hne]; simpl.
    + intros [H | H]; [left; split; congruence | right; now right].
    + intros [H | H]; [right; now left |].
      destruct (IH H) as [E | E]; [now left | right; now right].
Qed.

Lemma insert_desc_perm (x : string * string) (l : list (string * string)) :
  Permutation (insert_desc x l) (x :: l).
Proof.
  induction l as [| y r IH]; simpl; [reflexivity |].
  destruct (String.ltb (fst x) (fst y)); [| reflexivity].
  rewrite IH. apply perm_swap.
Qed.

Lemma sorted_desc_perm (l : list (string * string)) : Permutation (sorted_desc l) l.
Proof.
  induction l as [| x r IH]; simpl; [reflexivity |].
  rewrite insert_desc_perm. now constructor.
Qed.

Lemma insert_desc_sorted (x : string * string) (l : list (string * string)) :
  Sorted newer_first l -> Sorted newer_first (insert_desc x l).
Proof.
  induction l as [| y r IH]; intros Hs; simpl.
  - repeat constructor.
  - destruct (String.ltb (fst x) (fst y)) eqn:E.
    + apply Sorted_inv in Hs. destruct Hs as [Hr Hhd].
      constructor; [now apply IH |].
      destruct r as [| z r']; simpl.
      * constructor. now apply ltb_asym.
      * destruct (String.ltb (fst x) (fst z)).
        -- inversion Hhd; subst. now constructor.
        -- constructor. now apply ltb_asym.
    + constructor; [assumption |]. now constructor.
Qed.

Lemma sorted_desc_sorted (l : list (string * string)) : Sorted newer_first (sorted_desc l).
Proof.
  induction l as [| x r IH]; simpl; [constructor |].
  now apply insert_desc_sorted.
Qed.

Lemma Sorted_firstn {A} (R : A -> A -> Prop) (n : nat) (l : list A) :
  Sorted R l -> Sorted R (firstn n l).
Proof.
  revert l. induction n as [| n IH]; intros l Hs; simpl; [constructor |].
  destruct l as [| x r]; [constructor |].
  apply Sorted_inv in Hs. destruct Hs as [Hr Hhd].
  constructor; [now apply IH |].
  destruct n; simpl; [constructor |].
  destruct r; [constructor |]. inversion Hhd; subst. now constructor.
Qed.

Lemma NoDup_firstn {A} (n : nat) (l : list A) : NoDup l -> NoDup (firstn n l).
Proof.
  intros H. rewrite <- (firstn_skipn n l) in H.
  now apply NoDup_app_remove_r in H.
Qed.

Lemma In_firstn {A} (n : nat) (l : list A) (x : A) : In x (firstn n l) -> In x l.
Proof.
  intros H. rewrite <- (firstn_skipn n l). apply in_or_app. now left.
Qed.

(** Writing items of pairwise distinct keys into the emptied group stores
    them as they come. *)
Lemma store_distinct (l : list (string * string)) :
  forall acc, NoDup (map fst (acc ++ l)) ->
    fold_left (fun s item => assign (fst item) (snd item) s) l acc = (acc ++ l)%list.
Proof.
  induction l as [| [k v] r IH]; intros acc H; simpl.
  - now rewrite app_nil_r.
  - rewrite assign_fresh.
    + rewrite IH; rewrite <- app_assoc; [reflexivity | exact H].
    + rewrite map_app in H. simpl in H.
      apply NoDup_remove_2 in H. intros Hin. apply H.
      apply in_or_app. now left.
Qed.

Lemma value_of_entry (s : settings_group) (k v : string) :
  NoDup (allKeys s) -> In (k, v) s -> value s k = v.
Proof.
  unfold allKeys. induction s as [| [k' w] r IH]; simpl; [intros _ [] |].
  intros Hnd [H | H].
  - injection H as -> ->. now rewrite String.eqb_refl.
  - inversion Hnd as [| ? ? Hk Hr]; subst.
    destruct (String.eqb_spec k' k) as [-> | Hne]; [| now apply IH].
    exfalso. apply Hk. apply (in_map fst) in H. exact H.
Qed.


Section RecentLibrariesFacts.

Variable Path_eqb : string -> string -> bool.
Variable Path_str : string -> string.
Variables now path : string.

Lemma collect_libs_ok (settings : settings_group) (keys : list string) :
  forall all_libs,
    all_libs_ok Path_eqb Path_str now path all_libs ->
    all_libs_ok Path_eqb Path_str now path (collect_libs Path_eqb settings path keys all_libs).
Proof.
  induction keys as [| k r IH]; intros all_libs H; simpl; [exact H |].
  apply IH. destruct (Path_eqb (value settings k) path) eqn:E; simpl; [exact H |].
  destruct H as [Hnd Hval]. split.
  - now apply assign_keys_NoDup.
  - intros k' v' Hin Hp. apply assign_In in Hin.
    destruct Hin as [[-> ->] | Hin]; [congruence | now apply Hval].
Qed.

Lemma all_libs_ok_init :
  all_libs_ok Path_eqb Path_str now path [(now, Path_str path)].
Proof.
  split; simpl.
  - repeat constructor. intros [].
  - intros k v [H | []] _. injection H as <- <-. now split.
Qed.

(** The group after the call: the first [item_limit] items of the sorted
    dict. *)
Lemma update_libs_list_stored (settings : settings_group) :
  update_libs_list Path_eqb Path_str now path settings
  = firstn item_limit
      (sorted_desc (collect_libs Path_eqb settings path (allKeys settings)
                      [(now, Path_str path)])).
Proof.
  unfold update_libs_list. apply (store_distinct _ []). cbn [app].
  rewrite <- firstn_map. apply NoDup_firstn.
  apply (Permutation_NoDup (l := map fst (collect_libs Path_eqb settings path
                                             (allKeys settings) [(now, Path_str path)]))).
  - apply Permutation_map. symmetry. apply sorted_desc_perm.
  - apply collect_libs_ok, all_libs_ok_init.
Qed.


(** With distinct stored keys, none of them equal to the new key, the
    dict is the new entry followed by the stored entries of other paths. *)
Lemma collect_libs_fresh (settings : settings_group) :
  NoDup (allKeys settings) ->
  ~ In now (allKeys settings) ->
  forall todo done all_libs,
    settings = (done ++ todo)%list ->
    (forall k, In k (map fst all_libs) -> k = now \/ In k (allKeys done)) ->
    collect_libs Path_eqb settings path (allKeys todo) all_libs
    = (all_libs ++ List.filter (fun kv => negb (Path_eqb (snd kv) path)) todo)%list.
Proof.
  intros Hnd Hnow. induction todo as [| [k v] r IH]; intros done all_libs Hs Hkeys.
  - simpl. now rewrite app_nil_r.
  - simpl. rewrite (value_of_entry settings k v Hnd)
      by (rewrite Hs; apply in_or_app; right; now left).
    assert (Hk : ~ In k (map fst all_libs)).
    { intros Hin. destruct (Hkeys k Hin) as [-> | Hd].
      - apply Hnow. rewrite Hs. unfold allKeys. rewrite map_app.
        apply in_or_app. right. now left.
      - rewrite Hs in Hnd. unfold allKeys in Hnd, Hd. rewrite map_app in Hnd.
        simpl in Hnd. apply NoDup_remove_2 in Hnd. apply Hnd.
        apply in_or_app. now left. }
    rewrite (IH (done ++ [(k, v)])%list).
    + destruct (Path_eqb v path); simpl; [reflexivity |].
      rewrite assign_fresh by exact Hk. now rewrite <- app_assoc.
    + rewrite Hs, <- app_assoc. reflexivity.
    + intros k' Hin. unfold allKeys. rewrite map_app. simpl.
      destruct (Path_eqb v path); simpl in Hin.
      * destruct (Hkeys k' Hin) as [E | E]; [now left |].
        right. apply in_or_app. now left.
      * rewrite assign_fresh, map_app in Hin by exact Hk.
        apply in_app_or in Hin. destruct Hin as [Hin | [<- | []]].
        -- destruct (Hkeys k' Hin) as [E | E]; [now left |].
           right. apply in_or_app. now left.
        -- right. apply in_or_app. right. now left.
Qed.

Lemma sorted_desc_head (x : string * string) (l : list (string * string)) :
  (forall y, In y l -> y = x \/ String.ltb (fst y) (fst x) = true) ->
  In x l -> hd_error (sorted_desc l) = Some x.
Proof.
  induction l as [| a r IH]; intros Hall Hin; [destruct Hin |].
  assert (Hr : forall y, In y r -> y = x \/ String.ltb (fst y) (fst x) = true)
    by (intros y Hy; apply Hall; now right).
  simpl. destruct (sorted_desc r) as [| y t] eqn:Es.
  - assert (r = []) as ->.
    { apply Permutation_nil. rewrite <- Es. apply sorted_desc_perm. }
    destruct Hin as [-> | []]. reflexivity.
  - assert (Hy : In y r).
    { apply (Permutation_in _ (sorted_desc_perm r)). rewrite Es. now left. }
    assert (Ha : a = x \/ String.ltb (fst a) (fst x) = true) by (apply Hall; now left).
    simpl. destruct (String.ltb (fst a) (fst y)) eqn:E; simpl.
    + destruct Ha as [-> | Ha].
      * destruct (Hr y Hy) as [-> | Hlt].
        -- rewrite ltb_irrefl in E. discriminate.
        -- apply ltb_asym in Hlt. congruence.
      * destruct Hin as [-> | Hin].
        -- rewrite ltb_irrefl in Ha. discriminate.
        -- specialize (IH Hr Hin). simpl in IH. exact IH.
    + destruct Ha as [-> | Ha]; [reflexivity |].
      destruct Hin as [-> | Hin]; [reflexivity |].
      specialize (IH Hr Hin). simpl in IH. injection IH as ->. congruence.
Qed.

End RecentLibrariesFacts.

(** C9, as stated, fails: the items are sorted on their key strings, so a
    path opened now comes behind stored keys that compare above the new
    key; behind one such item it is listed second, behind five it is not
    stored at all. *)
Lemma update_libs_list_newest_counterexample :
  update_libs_list String.eqb (fun s => s) "1700000000.5" "/new"
    [("1800000001.0", "/a")]
  = [("1800000001.0", "/a"); ("1700000000.5", "/new")]
  /\ update_libs_list String.eqb (fun s => s) "1700000000.5" "/new"
       libs_from_fast_clock
     = libs_from_fast_clock
  /\ hd_error (update_libs_list String.eqb (fun s => s) "1700000000.5" "/new"
                 libs_from_fast_clock)
     <> Some ("1700000000.5", "/new").
Proof.
  split; [reflexivity |]. split; [reflexivity |].
  vm_compute. discriminate.
Qed.

(** C9, amended.  After every call the group holds at most 5 items, in
    descending order of their keys.  When the stored keys are distinct and
    all below the new key, the opened path is the first item and the group
    is the first five of: the new item and the stored items of other paths,
    sorted on their keys, greatest first. *)
Theorem update_libs_list_newest_first (Path_eqb : string -> string -> bool)
    (Path_str : string -> string) (now path : string) :
  (forall settings,
      (List.length (update_libs_list Path_eqb Path_str now path settings) <= 5)%nat
      /\ Sorted newer_first (update_libs_list Path_eqb Path_str now path settings))
  /\ (forall settings,
        NoDup (allKeys settings) ->
        (forall k, In k (allKeys settings) -> String.ltb k now = true) ->
        hd_error (update_libs_list Path_eqb Path_str now path settings)
        = Some (now, Path_str path)
        /\ update_libs_list Path_eqb Path_str now path settings
           = firstn 5
               (sorted_desc
                  ((now, Path_str path)
                   :: List.filter (fun kv => negb (Path_eqb (snd kv) path)) settings))).
Proof.
  split.
  - intros settings. rewrite update_libs_list_stored. split.
    + apply firstn_le_length.
    + apply Sorted_firstn, sorted_desc_sorted.
  - intros settings Hnd Hlt.
    assert (Hnow : ~ In now (allKeys settings)).
    { intros Hin. apply Hlt in Hin. rewrite ltb_irrefl in Hin. discriminate. }
    rewrite update_libs_list_stored.
    rewrite (collect_libs_fresh Path_eqb now path settings Hnd Hnow
               settings [] [(now, Path_str path)] eq_refl)
      by (intros k [<- | []]; now left).
    cbn [app]. split; [| reflexivity].
    set (l := (now, Path_str path) :: _).
    assert (Hhd : hd_error (sorted_desc l) = Some (now, Path_str path)).
    { apply sorted_desc_head; [| now left].
      intros y [<- | Hy]; [now left |]. right.
      apply filter_In in Hy. destruct Hy as [Hy _].
      apply Hlt. unfold allKeys. now apply in_map. }
    destruct (sorted_desc l); [discriminate |]. exact Hhd.
Qed.

Lemma update_libs_list_newest_first_witness :
  hd_error (update_libs_list String.eqb (fun s => s) "1700000009.5" "/b"
              [("1700000001.0", "/a"); ("1700000002.0", "/b")])
  = Some ("1700000009.5", "/b")
  /\ update_libs_list String.eqb (fun s => s) "1700000009.5" "/b"
       [("1700000001.0", "/a"); ("1700000002.0", "/b")]
     = firstn 5
         (sorted_desc
            (("1700000009.5", "/b")
             :: List.filter (fun kv => negb (String.eqb (snd kv) "/b"))
                  [("1700000001.0", "/a"); ("1700000002.0", "/b")])).
Proof.
  apply (proj2 (update_libs_list_newest_first String.eqb (fun s => s)
                  "1700000009.5" "/b")).
  - repeat constructor; simpl; intuition discriminate.
  - intros k [<- | [<- | []]]; reflexivity.
Defined.

(** Six stored libraries, one of them opened again: its old item goes, the
    path comes first under the new key, and the oldest item is dropped. *)
Example update_libs_list_reopen :
  update_libs_list String.eqb (fun s => s) "1700000009.5" "/b"
    [("1700000001.0", "/a"); ("1700000002.0", "/b"); ("1700000003.0", "/c");
     ("1700000004.0", "/d"); ("1700000005.0", "/e"); ("1700000006.0", "/f")]
  = [("1700000009.5", "/b"); ("1700000006.0", "/f"); ("1700000005.0", "/e");
     ("1700000004.0", "/d"); ("1700000003.0", "/c")].
Proof. reflexivity. Qed.







(** The list of the witness: the stored item of the path is gone and the
    path stands under the new key, behind a library whose key is above. *)
Example update_libs_list_reinserted :
  update_libs_list String.eqb (fun s => s) "1700000009.5" "/b"
    [("1700000001.0", "/a"); ("1700000002.0", "/b"); ("1800000003.0", "/c")]
  = [("1800000003.0", "/c"); ("1700000009.5", "/b"); ("1700000001.0", "/a")].
Proof. reflexivity. Qed.

(** ** The cancellation step among the threads *)

Module ThumbQueueFacts.
Import ThumbQueue.

Lemma jobs_of_app (a b : list queue_item) :
  jobs_of (a ++ b) = (jobs_of a ++ jobs_of b)%list.
Proof. unfold jobs_of. apply flat_map_app. Qed.

Lemma nth_error_list_set_cases {A} (l : list A) (n m : nat) (x old y : A) :
  nth_error l n = Some old ->
  nth_error (list_set l n x) m = Some y ->
  (m = n /\ y = x) \/ (m <> n /\ nth_error l m = Some y).
Proof.
  intros Hold H. destruct (Nat.eq_dec n m) as [<- | Hne].
  - rewrite (nth_error_list_set_eq _ _ _ _ Hold) in H. left. split; congruence.
  - rewrite nth_error_list_set_neq in H by exact Hne. right. split; congruence.
Qed.

Lemma in_flight_list_set (ws : list worker_pc) (n : nat) (old pc : worker_pc)
    (j : RenderJob) :
  nth_error ws n = Some old ->
  In j (flat_map taken_by (list_set ws n pc)) ->
  In j (taken_by pc) \/ In j (flat_map taken_by ws).
Proof.
  revert n. induction ws as [| w r IH]; intros [| n] Hold; simpl in *; try discriminate.
  - rewrite !in_app_iff. tauto.
  - rewrite !in_app_iff. intros [H | H]; [tauto |].
    destruct (IH n Hold H); tauto.
Qed.

Lemma in_flight_member (ws : list worker_pc) (n : nat) (pc : worker_pc) (j : RenderJob) :
  nth_error ws n = Some pc -> In j (taken_by pc) -> In j (flat_map taken_by ws).
Proof.
  intros Hn Hj. apply in_flat_map. exists pc. split; [| exact Hj].
  eapply nth_error_In, Hn.
Qed.

Lemma stamped_by_later (t t' : N) (j : RenderJob) :
  (t <= t')%N -> stamped_by t j -> stamped_by t' j.
Proof.
  intros Hle H Hl. destruct (H Hl) as [x [Hx Hxt]]. exists x. split; [exact Hx | lia].
Qed.

Lemma ts_leb_later (c : timestamp) (t t' : N) :
  (t <= t')%N -> ts_leb c (Time t) = true -> ts_leb c (Time t') = true.
Proof.
  unfold ts_leb. destruct c as [x |]; simpl; [| discriminate].
  rewrite !Bool.negb_true_iff, !N.ltb_ge. lia.
Qed.

Lemma in_flight_repeat (n : nat) : flat_map taken_by (repeat WGet n) = [].
Proof. induction n; simpl; auto. Qed.

(** *** Mutual exclusion *)

Lemma init_consistent (t0 : N) : consistent (init t0).
Proof.
  constructor; simpl.
  - split; discriminate.
  - intros [| n] pc H; discriminate.
  - intros n H. discriminate.
  - reflexivity.
Qed.

Lemma tick_consistent (t : N) (s : state) :
  consistent s ->
  consistent (mkState (queue s) (cutoff s) (mutex s) t (control s) (workers s)).
Proof. intros [Hc Hw Ho He]. constructor; simpl; auto. Qed.

Lemma init_workers_consistent (cpus : nat) (s : state) :
  consistent s -> control s = CIdle ->
  consistent (mkState (queue s) (cutoff s) (mutex s) (now s) CIdle
                match workers s with
                | [] => repeat WGet cpus
                | _ :: _ => workers s
                end).
Proof.
  intros [Hc Hw Ho He] Ec. rewrite Ec in *.
  destruct (workers s) as [| w ws] eqn:Ew.
  - assert (Hfree : forall n, mutex s <> Some (Worker n)).
    { intros n Hn. apply Ho in Hn. simpl in Hn. lia. }
    constructor; simpl.
    + exact Hc.
    + intros n pc Hn. apply nth_error_In, repeat_spec in Hn. subst pc.
      split; [intros Hm; now apply Hfree in Hm | discriminate].
    + intros n Hn. now apply Hfree in Hn.
    + intros [E | E]; discriminate.
  - constructor; simpl; auto.
Qed.

Lemma start_consistent (c : call) (s : state) :
  consistent s -> control s = CIdle ->
  consistent (mkState (queue s) (cutoff s) (mutex s) (now s)
                (begin c (now s)) (workers s)).
Proof.
  intros [Hc Hw Ho He] Ec. rewrite Ec in *.
  constructor; simpl; auto.
  - rewrite Hc. destruct c; simpl; split; auto.
  - destruct c; simpl; intros [E | E]; discriminate.
Qed.

Lemma control_step_consistent (s s' : state) :
  consistent s -> control_step s = Some s' -> consistent s'.
Proof.
  intros [Hc Hw Ho He] H. unfold control_step in H.
  destruct (control s) eqn:Ec; try discriminate.
  - (* acquire for the cancellation *)
    destruct (mutex s) eqn:Em; [discriminate |]. injection H as <-.
    constructor; simpl.
    + split; auto.
    + intros n pc Hn. split; [discriminate |].
      intros Hh. apply (Hw n pc Hn) in Hh. discriminate.
    + intros n Hn. discriminate.
    + intros [E | E]; discriminate.
  - (* queue.clear() *)
    injection H as <-. constructor; simpl.
    + exact Hc.
    + exact Hw.
    + exact Ho.
    + reflexivity.
  - (* cutoff assignment *)
    injection H as <-. constructor; simpl.
    + exact Hc.
    + exact Hw.
    + exact Ho.
    + intros _. apply He. auto.
  - (* release after the cancellation *)
    injection H as <-. constructor; simpl.
    + split; discriminate.
    + intros n pc Hn. split; [discriminate |].
      intros Hh. apply (Hw n pc Hn) in Hh.
      assert (Hm : mutex s = Some Control) by (apply Hc; reflexivity).
      congruence.
    + intros n Hn. discriminate.
    + intros [E | E]; discriminate.
  - (* acquire for put *)
    destruct (mutex s) eqn:Em; [discriminate |]. injection H as <-.
    constructor; simpl.
    + split; auto.
    + intros n pc Hn. split; [discriminate |].
      intros Hh. apply (Hw n pc Hn) in Hh. discriminate.
    + intros n Hn. discriminate.
    + intros [E | E]; discriminate.
  - (* append *)
    injection H as <-. constructor; simpl.
    + exact Hc.
    + exact Hw.
    + exact Ho.
    + intros [E | E]; discriminate.
  - (* release after put *)
    injection H as <-. constructor; simpl.
    + split; discriminate.
    + intros n pc Hn. split; [discriminate |].
      intros Hh. apply (Hw n pc Hn) in Hh.
      assert (Hm : mutex s = Some Control) by (apply Hc; reflexivity).
      congruence.
    + intros n Hn. discriminate.
    + intros [E | E]; discriminate.
Qed.

Lemma worker_step_consistent (n : nat) (s s' : state) :
  consistent s -> worker_step n s = Some s' -> consistent s'.
Proof.
  intros [Hc Hw Ho He] H. unfold worker_step in H.
  destruct (nth_error (workers s) n) as [pc |] eqn:En; [| discriminate].
  destruct pc as [| | item | j0 |]; try discriminate.
  - (* get acquires *)
    destruct (mutex s) eqn:Em; [discriminate |]. injection H as <-.
    constructor; simpl.
    + split; [discriminate |]. intros Hh. apply Hc in Hh. discriminate.
    + intros m pc Hm.
      destruct (nth_error_list_set_cases _ _ _ _ _ _ En Hm) as [[-> ->] | [Hne Hm']].
      * split; auto.
      * split; [intros E; injection E; congruence |].
        intros Hh. apply (Hw m pc Hm') in Hh. discriminate.
    + intros m Hm. injection Hm as <-. rewrite length_list_set.
      apply nth_error_Some. congruence.
    + exact He.
  - (* get holds the mutex *)
    assert (Hm : mutex s = Some (Worker n)) by (apply (Hw n WLocked En); reflexivity).
    assert (Hctl : control_holds (control s) = false).
    { destruct (control_holds (control s)) eqn:E; [| reflexivity].
      assert (mutex s = Some Control) by (apply Hc; reflexivity). congruence. }
    destruct (queue s) as [| item rest] eqn:Eq; injection H as <-.
    + (* empty: wait *)
      constructor; simpl.
      * split; [discriminate | congruence].
      * intros m pc Hm'.
        destruct (nth_error_list_set_cases _ _ _ _ _ _ En Hm') as [[-> ->] | [Hne Hm2]].
        -- split; discriminate.
        -- split; [discriminate |].
           intros Hh. apply (Hw m pc Hm2) in Hh. congruence.
      * intros m Hm'. discriminate.
      * reflexivity.
    + (* pop *)
      constructor; simpl.
      * exact Hc.
      * intros m pc Hm'.
        destruct (nth_error_list_set_cases _ _ _ _ _ _ En Hm') as [[-> ->] | [Hne Hm2]].
        -- split; auto.
        -- apply (Hw m pc Hm2).
      * intros m Hm'. rewrite length_list_set. apply Ho. exact Hm'.
      * intros Hcc. destruct Hcc as [E | E]; rewrite E in Hctl; discriminate.
  - (* get releases *)
    assert (Hm : mutex s = Some (Worker n)) by (apply (Hw n (WTaken item) En); reflexivity).
    assert (Hctl : control_holds (control s) = false).
    { destruct (control_holds (control s)) eqn:E; [| reflexivity].
      assert (mutex s = Some Control) by (apply Hc; reflexivity). congruence. }
    injection H as <-. constructor; simpl.
    + split; [discriminate | congruence].
    + intros m pc Hm'.
      destruct (nth_error_list_set_cases _ _ _ _ _ _ En Hm') as [[-> ->] | [Hne Hm2]].
      * split; [discriminate | destruct item; discriminate].
      * split; [discriminate |].
        intros Hh. apply (Hw m pc Hm2) in Hh. congruence.
    + intros m Hm'. discriminate.
    + exact He.
Qed.

Lemma render_ends_consistent (n : nat) (r : outcome unit) (s s' : state) :
  consistent s -> render_ends n r s = Some s' -> consistent s'.
Proof.
  intros [Hc Hw Ho He] H. unfold render_ends in H.
  destruct (nth_error (workers s) n) as [pc |] eqn:En; [| discriminate].
  destruct pc as [| | item | j0 |]; try discriminate.
  injection H as <-. constructor; simpl.
  - exact Hc.
  - intros m pc Hm'.
    destruct (nth_error_list_set_cases _ _ _ _ _ _ En Hm') as [[-> ->] | [Hne Hm2]].
    + pose proof (Hw n (WRender j0) En) as Hn. simpl in Hn.
      destruct r as [u | e]; [| destruct (is_RuntimeError e)]; simpl; exact Hn.
    + apply (Hw m pc Hm2).
  - intros m Hm'. rewrite length_list_set. apply Ho. exact Hm'.
  - exact He.
Qed.

Lemma step_consistent (a : action) (s s' : state) :
  consistent s -> step a s = Some s' -> consistent s'.
Proof.
  intros Hs H. destruct a as [t | cpus | c | | n | n r]; simpl in H.
  - injection H as <-. now apply tick_consistent.
  - destruct (control s) eqn:Ec; try discriminate.
    injection H as <-. now apply init_workers_consistent.
  - destruct (control s) eqn:Ec; try discriminate.
    injection H as <-. now apply start_consistent.
  - eapply control_step_consistent; eauto.
  - eapply worker_step_consistent; eauto.
  - eapply render_ends_consistent; eauto.
Qed.

Lemma run_consistent (acts : list action) :
  forall s s', consistent s -> run acts s = Some s' -> consistent s'.
Proof.
  induction acts as [| a r IH]; intros s s' Hs H; simpl in H.
  - injection H as <-. exact Hs.
  - destruct (step a s) as [s1 |] eqn:E; [| discriminate].
    apply (IH s1 s'); [| exact H]. eapply step_consistent; eauto.
Qed.

Lemma reachable_consistent (s : state) : reachable s -> consistent s.
Proof.
  intros [t0 [acts H]].
  apply (run_consistent acts (init t0) s); [apply init_consistent | exact H].
Qed.

(** *** Where the jobs of a state come from *)

(** A job held anywhere after a step was held before it, or is the job the
    control thread builds when it enters [put]. *)
Lemma step_held (a : action) (s s' : state) :
  step a s = Some s' ->
  forall j,
    In j (jobs_of (queue s')) \/ In j (in_hand (control s')) \/ In j (in_flight s') ->
    (In j (jobs_of (queue s)) \/ In j (in_hand (control s)) \/ In j (in_flight s))
    \/ exists c, a = Start c /\ In j (in_hand (begin c (now s))).
Proof.
  destruct a as [t | cpus | c | | n | n r]; simpl; intros H j Hin.
  - injection H as <-. now left.
  - destruct (control s) eqn:Ec; try discriminate. injection H as <-.
    left. simpl in Hin. destruct Hin as [Hin | [[] | Hin]]; [now left |].
    right. right. unfold in_flight in *. simpl in Hin.
    destruct (workers s); [| exact Hin].
    rewrite in_flight_repeat in Hin. destruct Hin.
  - destruct (control s) eqn:Ec; try discriminate. injection H as <-.
    simpl in Hin. destruct Hin as [Hin | [Hin | Hin]].
    + left. now left.
    + right. exists c. auto.
    + left. right. now right.
  - left. unfold control_step in H.
    destruct (control s) eqn:Ec; try discriminate;
      try (destruct (mutex s); [discriminate |]);
      injection H as <-; simpl in Hin;
      try (destruct Hin as [Hin | [Hin | Hin]]; now auto).
    destruct Hin as [Hin | [[] | Hin]]; [| auto].
    rewrite jobs_of_app in Hin. apply in_app_or in Hin.
    destruct Hin; [left | right; left]; assumption.
  - left. unfold worker_step in H.
    destruct (nth_error (workers s) n) as [pc |] eqn:En; [| discriminate].
    destruct pc as [| | item | j0 |]; try discriminate.
    + destruct (mutex s); [discriminate |]. injection H as <-. simpl in Hin.
      destruct Hin as [Hin | [Hin | Hin]]; auto.
      destruct (in_flight_list_set _ _ _ _ _ En Hin) as [[] | Hin']. auto.
    + destruct (queue s) as [| item rest] eqn:Eq; injection H as <-; simpl in Hin.
      * destruct Hin as [[] | [Hin | Hin]]; auto.
        destruct (in_flight_list_set _ _ _ _ _ En Hin) as [[] | Hin']. auto.
      * assert (Hq : forall x, In x (jobs_of [item]) \/ In x (jobs_of rest) ->
                               In x (jobs_of (item :: rest))).
        { intros x Hx. change (item :: rest) with ([item] ++ rest)%list.
          rewrite jobs_of_app. apply in_or_app. exact Hx. }
        destruct Hin as [Hin | [Hin | Hin]]; auto.
        destruct (in_flight_list_set _ _ _ _ _ En Hin) as [Hin' | Hin']; auto.
        left. apply Hq. left. destruct item; simpl in *; auto.
    + injection H as <-. simpl in Hin.
      destruct Hin as [Hin | [Hin | Hin]]; auto.
      destruct (in_flight_list_set _ _ _ _ _ En Hin) as [Hin' | Hin']; auto.
      right. right. apply (in_flight_member _ _ _ _ En).
      destruct item; simpl in *; auto.
  - left. unfold render_ends in H.
    destruct (nth_error (workers s) n) as [pc |] eqn:En; [| discriminate].
    destruct pc as [| | item | j0 |]; try discriminate.
    injection H as <-. simpl in Hin.
    destruct Hin as [Hin | [Hin | Hin]]; auto.
    destruct (in_flight_list_set _ _ _ _ _ En Hin) as [Hin' | Hin']; auto.
    destruct r as [u | e]; [| destruct (is_RuntimeError e)]; destruct Hin'.
Qed.

(** The same for the jobs no worker has taken yet. *)
Lemma step_pending (a : action) (s s' : state) :
  step a s = Some s' ->
  forall j,
    In j (jobs_of (queue s')) \/ In j (in_hand (control s')) ->
    (In j (jobs_of (queue s)) \/ In j (in_hand (control s)))
    \/ exists c, a = Start c /\ In j (in_hand (begin c (now s))).
Proof.
  destruct a as [t | cpus | c | | n | n r]; simpl; intros H j Hin.
  - injection H as <-. now left.
  - destruct (control s) eqn:Ec; try discriminate. injection H as <-.
    left. simpl in Hin. destruct Hin as [Hin | []]. now left.
  - destruct (control s) eqn:Ec; try discriminate. injection H as <-.
    simpl in Hin. destruct Hin as [Hin | Hin].
    + left. now left.
    + right. exists c. auto.
  - left. unfold control_step in H.
    destruct (control s) eqn:Ec; try discriminate;
      try (destruct (mutex s); [discriminate |]);
      injection H as <-; simpl in Hin;
      try (destruct Hin as [Hin | Hin]; now auto).
    destruct Hin as [Hin | []].
    rewrite jobs_of_app in Hin. apply in_app_or in Hin.
    destruct Hin; [left | right]; assumption.
  - left. unfold worker_step in H.
    destruct (nth_error (workers s) n) as [pc |] eqn:En; [| discriminate].
    destruct pc as [| | item | j0 |]; try discriminate.
    + destruct (mutex s); [discriminate |]. injection H as <-. exact Hin.
    + destruct (queue s) as [| item rest] eqn:Eq; injection H as <-; simpl in Hin.
      * exact Hin.
      * destruct Hin as [Hin | Hin]; auto.
        left. change (item :: rest) with ([item] ++ rest)%list.
        rewrite jobs_of_app. apply in_or_app. now right.
    + injection H as <-. exact Hin.
  - left. unfold render_ends in H.
    destruct (nth_error (workers s) n) as [pc |] eqn:En; [| discriminate].
    destruct pc as [| | item | j0 |]; try discriminate.
    injection H as <-. exact Hin.
Qed.

(** What a step does to the clock and to the cutoff. *)
Lemma step_clock (a : action) (s s' : state) :
  step a s = Some s' ->
  now s' = match a with Tick t => t | _ => now s end
  /\ (cutoff s' = cutoff s
      \/ (a = ControlStep /\ control s = CCleared /\ cutoff s' = Time (now s))).
Proof.
  destruct a as [t | cpus | c | | n | n r]; simpl; intros H.
  - injection H as <-. auto.
  - destruct (control s); try discriminate. injection H as <-. auto.
  - destruct (control s); try discriminate. injection H as <-. auto.
  - unfold control_step in H.
    destruct (control s) eqn:Ec; try discriminate;
      try (destruct (mutex s); [discriminate |]);
      injection H as <-; simpl; auto.
  - unfold worker_step in H.
    destruct (nth_error (workers s) n) as [[| | item | j0 |] |]; try discriminate.
    + destruct (mutex s); [discriminate |]. injection H as <-. auto.
    + destruct (queue s); injection H as <-; auto.
    + injection H as <-. auto.
  - unfold render_ends in H.
    destruct (nth_error (workers s) n) as [[| | item | j0 |] |]; try discriminate.
    injection H as <-. auto.
Qed.

(** *** Placeholder jobs *)

Lemma step_placeholders (a : action) (s s' : state) :
  placeholders_max s -> step a s = Some s' -> placeholders_max s'.
Proof.
  intros Hm H j Hin Hl.
  destruct (step_held a s s' H j Hin) as [Hold | [c [_ Hnew]]]; [now apply Hm |].
  destruct c; simpl in Hnew; try contradiction; destruct Hnew as [<- | []].
  - reflexivity.
  - discriminate.
Qed.

Lemma reachable_placeholders (s : state) : reachable s -> placeholders_max s.
Proof.
  intros [t0 [acts H]].
  assert (Hinit : placeholders_max (init t0)) by (intros j [[] | [[] | []]]).
  revert H Hinit. generalize (init t0). induction acts as [| a r IH]; intros s0 H H0.
  - injection H as <-. exact H0.
  - simpl in H. destruct (step a s0) as [s1 |] eqn:E; [| discriminate].
    apply (IH s1 H). eapply step_placeholders; eauto.
Qed.

(** *** Timestamps while the clock is not set back *)

Lemma init_stamped (t0 : N) : stamped (init t0).
Proof.
  constructor; simpl.
  - unfold ts_leb. simpl. now rewrite N.ltb_irrefl.
  - intros j [[] | [[] | []]].
  - intros j [[] | []].
Qed.

Lemma step_stamped (a : action) (s s' : state) :
  consistent s -> stamped s -> clock_kept a s = true ->
  step a s = Some s' -> stamped s'.
Proof.
  intros [Hc Hw Ho He] [Hp Hj Hf] Hk H.
  destruct (step_clock a s s' H) as [Hnow Hcut].
  assert (Hle : (now s <= now s')%N).
  { rewrite Hnow. destruct a; simpl in Hk; try lia. now apply N.leb_le. }
  constructor.
  - destruct Hcut as [-> | [_ [_ ->]]].
    + now apply ts_leb_later with (t := now s).
    + unfold ts_leb. simpl. rewrite Bool.negb_true_iff, N.ltb_ge. exact Hle.
  - intros j Hin.
    destruct (step_held a s s' H j Hin) as [Hold | [c [_ Hnew]]].
    + apply stamped_by_later with (t := now s); [exact Hle | now apply Hj].
    + destruct c; simpl in Hnew; try contradiction; destruct Hnew as [<- | []].
      * intros Hl. discriminate.
      * intros _. exists (now s). split; [reflexivity | exact Hle].
  - intros j Hin.
    destruct (step_pending a s s' H j Hin) as [Hold | [c [Ea Hnew]]].
    + destruct Hcut as [-> | [_ [Ec ->]]]; [now apply Hf |].
      rewrite (He (or_introl Ec)), Ec in Hold. destruct Hold as [[] | []].
    + destruct Hcut as [-> | [E _]]; [| congruence].
      destruct c; simpl in Hnew; try contradiction; destruct Hnew as [<- | []]; simpl.
      * destruct (cutoff s); reflexivity.
      * exact Hp.
Qed.

Lemma run_stamped (acts : list action) :
  forall s s',
    consistent s -> stamped s -> steady acts s = true ->
    run acts s = Some s' -> stamped s'.
Proof.
  induction acts as [| a r IH]; intros s s' Hs Ht Hst H; simpl in H, Hst.
  - injection H as <-. exact Ht.
  - destruct (step a s) as [s1 |] eqn:E; [| discriminate].
    apply Bool.andb_true_iff in Hst. destruct Hst as [Hk Hst].
    apply (IH s1 s'); auto.
    + eapply step_consistent; eauto.
    + eapply step_stamped; eauto.
Qed.

Lemma reachable_steady_reachable (s : state) : reachable_steady s -> reachable s.
Proof. intros [t0 [acts [H _]]]. now exists t0, acts. Qed.

Lemma reachable_steady_stamped (s : state) : reachable_steady s -> stamped s.
Proof.
  intros [t0 [acts [H Hst]]].
  apply (run_stamped acts (init t0) s);
    [apply init_consistent | apply init_stamped | exact Hst | exact H].
Qed.

Lemma ts_ltb_max (c : timestamp) : ts_ltb FloatMax c = false.
Proof. reflexivity. Qed.

(** C1, as stated, fails on the timestamps.  A placeholder job taken by a
    worker before the cancellation carries [sys.float_info.max], which is
    not below the new cutoff; a content job stamped at the reading that
    the cutoff takes is level with it, not below; and a content job taken
    before the clock was set back is above the cutoff assigned after. *)
Lemma cancel_stale_counterexample :
  (exists s,
      run placeholder_in_flight_trace (init 100) = Some s
      /\ control s = CCutoffSet
      /\ cutoff s = Time 105
      /\ in_flight s = [placeholder_job (128, 128) (1 # 1)%Q 0]
      /\ all_stale s = false)
  /\ (exists s,
        run rendered_in_flight_trace (init 100) = Some s
        /\ control s = CCutoffSet
        /\ cutoff s = Time 100
        /\ in_flight s
           = [rendered_job (128, 128) (1 # 1)%Q "/lib" 0 (mkEntry 0 "img.png" []) 100]
        /\ all_stale s = false)
  /\ (exists s,
        run clock_set_back_trace (init 100) = Some s
        /\ control s = CCutoffSet
        /\ cutoff s = Time 50
        /\ in_flight s
           = [rendered_job (128, 128) (1 # 1)%Q "/lib" 0 (mkEntry 0 "img.png" []) 100]
        /\ all_stale s = false).
Proof.
  split; [| split].
  - exists (mkState [] (Time 105) (Some Control) 105 CCutoffSet
              [WRender (placeholder_job (128, 128) (1 # 1)%Q 0)]).
    split; [vm_compute; reflexivity |].
    split; [reflexivity |]. split; [reflexivity |]. split; reflexivity.
  - exists (mkState [] (Time 100) (Some Control) 100 CCutoffSet
              [WRender (rendered_job (128, 128) (1 # 1)%Q "/lib" 0
                          (mkEntry 0 "img.png" []) 100)]).
    split; [vm_compute; reflexivity |].
    split; [reflexivity |]. split; [reflexivity |]. split; reflexivity.
  - exists (mkState [] (Time 50) (Some Control) 50 CCutoffSet
              [WRender (rendered_job (128, 128) (1 # 1)%Q "/lib" 0
                          (mkEntry 0 "img.png" []) 100)]).
    split; [vm_compute; reflexivity |].
    split; [reflexivity |]. split; [reflexivity |]. split; reflexivity.
Qed.

(** The timestamps order the jobs against the cutoff only while the wall
    clock is not set back: with the clock set back after a cancellation, a
    content job queued then is below the cutoff while it waits. *)
Example clock_set_back :
  exists s,
    run stale_put_trace (init 100) = Some s
    /\ cutoff s = Time 100
    /\ jobs_of (queue s)
       = [rendered_job (128, 128) (1 # 1)%Q "/lib" 0 (mkEntry 0 "img.png" []) 50]
    /\ forallb (fun j => ts_leb (cutoff s) (job_ts j)) (jobs_of (queue s)) = false.
Proof.
  exists (mkState [Job (rendered_job (128, 128) (1 # 1)%Q "/lib" 0
                          (mkEntry 0 "img.png" []) 50)]
            (Time 100) None 50 CIdle []).
  split; [vm_compute; reflexivity |]. repeat split; reflexivity.
Qed.

(** C1, amended.  In every state the threads can reach, whatever the clock
    does:
    - while the control thread is inside the cancellation step it holds the
      mutex, no worker is inside the locked part of [get], and no step of a
      worker or of the clock changes the queue, the cutoff or the position
      of the control thread;
    - each step of the cancellation can be taken whatever the workers do:
      the clear empties the queue, the assignment sets the cutoff to the
      present clock reading with the queue still empty, and the release
      gives the mutex back with the queue empty and that cutoff in place;
    - every placeholder job, waiting in the queue or taken by a worker,
      carries [sys.float_info.max] and is not below the cutoff, before and
      after the assignment.
    In the states reached while the clock was never set back, besides:
    - when the cutoff is assigned, every content job a worker took earlier
      has a timestamp at most the new cutoff;
    - every job waiting in the queue has a timestamp at least the cutoff. *)
Theorem cancellation_under_mutex (s : state) :
  reachable s ->
  (cancelling (control s) = true ->
   mutex s = Some Control
   /\ (forall n pc, nth_error (workers s) n = Some pc -> worker_holds pc = false)
   /\ (forall a s', a <> ControlStep -> step a s = Some s' ->
         queue s' = queue s /\ cutoff s' = cutoff s /\ control s' = control s))
  /\ (control s = CLocked ->
      exists s',
        step ControlStep s = Some s'
        /\ control s' = CCleared /\ queue s' = [] /\ cutoff s' = cutoff s)
  /\ (control s = CCleared ->
      queue s = []
      /\ exists s',
          step ControlStep s = Some s'
          /\ control s' = CCutoffSet /\ queue s' = [] /\ cutoff s' = Time (now s)
          /\ (forall j, In j (in_flight s') -> job_loading j = true ->
                job_ts j = FloatMax /\ ts_ltb (job_ts j) (cutoff s') = false))
  /\ (control s = CCutoffSet ->
      queue s = []
      /\ exists s',
          step ControlStep s = Some s'
          /\ control s' = CIdle /\ mutex s' = None
          /\ queue s' = [] /\ cutoff s' = cutoff s)
  /\ (forall j, In j (jobs_of (queue s)) \/ In j (in_flight s) ->
        job_loading j = true ->
        job_ts j = FloatMax /\ ts_ltb (job_ts j) (cutoff s) = false)
  /\ (reachable_steady s ->
      (control s = CCleared ->
       forall s', step ControlStep s = Some s' ->
         forall j, In j (in_flight s') -> job_loading j = false ->
           ts_leb (job_ts j) (cutoff s') = true)
      /\ (forall j, In j (jobs_of (queue s)) -> ts_leb (cutoff s) (job_ts j) = true)).
Proof.
  intros Hreach. destruct (reachable_consistent s Hreach) as [Hc Hw Ho He].
  pose proof (reachable_placeholders s Hreach) as Hmax.
  assert (Hph : forall c j,
             In j (jobs_of (queue s)) \/ In j (in_flight s) ->
             job_loading j = true ->
             job_ts j = FloatMax /\ ts_ltb (job_ts j) c = false).
  { intros c j Hin Hl.
    assert (E : job_ts j = FloatMax) by (apply Hmax; [tauto | exact Hl]).
    split; [exact E | rewrite E; apply ts_ltb_max]. }
  split; [| split; [| split; [| split; [| split]]]].
  - intros Hcan.
    assert (Hm : mutex s = Some Control).
    { apply Hc. destruct (control s); simpl in *; congruence. }
    assert (Hnw : forall n pc, nth_error (workers s) n = Some pc -> worker_holds pc = false).
    { intros n pc Hn. destruct (worker_holds pc) eqn:E; [| reflexivity].
      apply (Hw n pc Hn) in E. congruence. }
    split; [exact Hm |]. split; [exact Hnw |].
    intros a s' Ha Hstep. destruct a as [t | cpus | c | | n | n r]; simpl in Hstep.
    + injection Hstep as <-. simpl. auto.
    + destruct (control s); simpl in Hcan; discriminate.
    + destruct (control s); simpl in Hcan; discriminate.
    + congruence.
    + unfold worker_step in Hstep.
      destruct (nth_error (workers s) n) as [pc |] eqn:En; [| discriminate].
      specialize (Hnw n pc En).
      destruct pc; simpl in Hnw; try discriminate.
      rewrite Hm in Hstep. discriminate.
    + unfold render_ends in Hstep.
      destruct (nth_error (workers s) n) as [[| | | j0 |] |]; try discriminate.
      injection Hstep as <-. simpl. auto.
  - intros Ec. eexists. split.
    { simpl. unfold control_step. rewrite Ec. reflexivity. }
    simpl. auto.
  - intros Ec. split; [apply He; auto |].
    eexists. split.
    { simpl. unfold control_step. rewrite Ec. reflexivity. }
    simpl. split; [reflexivity |]. split; [apply He; auto |].
    split; [reflexivity |].
    intros j Hin Hl. apply Hph; [now right | exact Hl].
  - intros Ec. split; [apply He; auto |].
    eexists. split.
    { simpl. unfold control_step. rewrite Ec. reflexivity. }
    simpl. split; [reflexivity |]. split; [reflexivity |].
    split; [apply He; auto | reflexivity].
  - intros j Hin Hl. now apply Hph.
  - intros Hsteady. destruct (reachable_steady_stamped s Hsteady) as [Hp Hj Hf].
    split.
    + intros Ec s' Hstep j Hin Hl.
      simpl in Hstep. unfold control_step in Hstep. rewrite Ec in Hstep.
      injection Hstep as <-. simpl in *.
      destruct (Hj j (or_intror (or_intror Hin)) Hl) as [t [-> Ht]].
      unfold ts_leb. simpl. rewrite Bool.negb_true_iff, N.ltb_ge. exact Ht.
    + intros j Hin. apply Hf. now left.
Qed.

Lemma cancellation_under_mutex_witness :
  (exists s',
      step ControlStep cancel_entered = Some s'
      /\ control s' = CCleared /\ queue s' = [] /\ cutoff s' = cutoff cancel_entered)
  /\ (forall j, In j (jobs_of (queue cancel_entered)) \/ In j (in_flight cancel_entered) ->
        job_loading j = true ->
        job_ts j = FloatMax /\ ts_ltb (job_ts j) (cutoff cancel_entered) = false)
  /\ (forall j, In j (jobs_of (queue cancel_entered)) ->
        ts_leb (cutoff cancel_entered) (job_ts j) = true).
Proof.
  assert (Hrun : run cancel_entered_trace (init 100) = Some cancel_entered)
    by (vm_compute; reflexivity).
  assert (Hst : steady cancel_entered_trace (init 100) = true)
    by (vm_compute; reflexivity).
  destruct (cancellation_under_mutex cancel_entered
              (ex_intro _ 100%N (ex_intro _ cancel_entered_trace Hrun)))
    as [_ [Hclear [_ [_ [Hmax Htime]]]]].
  split; [apply Hclear; reflexivity |]. split; [exact Hmax |].
  apply Htime. exists 100%N, cancel_entered_trace. split; assumption.
Defined.

(** From that state the three steps taken in a row do what
    [cancel_thumb_jobs] does in the one-thread reading of [update_thumbs]:
    the waiting job is dropped and the cutoff is the present reading,
    while the worker goes on with the job it holds. *)
Example cancellation_in_a_row :
  run [ControlStep; ControlStep; ControlStep] cancel_entered
  = Some (mkState [] (Time 105) None 105 CIdle
            [WRender (mkJob 0 FloatMax EmptyPath (128, 128) (1 # 1)%Q true true)]).
Proof. reflexivity. Qed.

End ThumbQueueFacts.

(** * Further properties *)

(** ** The refresh in full *)

Lemma nth_error_app_here {A} (done : list A) (t : A) (r : list A) :
  nth_error (done ++ t :: r) (List.length done) = Some t.
Proof. induction done; simpl; auto. Qed.

Lemma list_set_app_here {A} (done : list A) (t x : A) (r : list A) :
  list_set (done ++ t :: r) (List.length done) x = (done ++ x :: r)%list.
Proof. induction done; simpl; [reflexivity | now f_equal]. Qed.

Lemma nth_error_map_slots f (ts : list ItemThumb) :
  forall k fc j,
    nth_error (map_slots f k fc ts) j
    = option_map (f (k + j)%nat (slot_entry fc j)) (nth_error ts j).
Proof.
  induction ts as [| t r IH]; intros k fc j; simpl.
  - now destruct j.
  - destruct j as [| j]; simpl.
    + rewrite Nat.add_0_r. unfold slot_entry.
      destruct fc as [| [e |] fc']; reflexivity.
    + rewrite IH. replace (S k + j)%nat with (k + S j)%nat by lia.
      unfold slot_entry. destruct fc as [| x fc']; simpl; [| reflexivity].
      now destruct j.
Qed.

Lemma length_map_slots f (ts : list ItemThumb) :
  forall k fc, List.length (map_slots f k fc ts) = List.length ts.
Proof. induction ts; intros; simpl; auto. Qed.

Lemma map_slots_compose f g (ts : list ItemThumb) :
  forall k fc,
    map_slots g k fc (map_slots f k fc ts)
    = map_slots (fun k s t => g k s (f k s t)) k fc ts.
Proof. induction ts as [| t r IH]; intros k fc; simpl; [reflexivity | now rewrite IH]. Qed.

Section RefreshExact.

Variables TAG_ARCHIVED TAG_FAVORITE : Z.
Variable size : Z * Z.
Variable ratio : Q.

(** The first loop, whatever the lengths: it raises [AttributeError] at
    the first frame slot that has no thumb, having treated the slots
    before it. *)
Lemma placeholder_loop_exact (snap : list ItemThumb) :
  forall (fc : list (option Entry)) (done : list ItemThumb) (d : QtDriver),
    item_thumbs d = (done ++ snap)%list ->
    for_enumerate (List.length done) (zip_longest fc snap)
      (show_placeholder size ratio) d
    = (with_queue
         (thumb_job_queue d
          ++ map (fun p => Job (placeholder_job size ratio (fst p)))
               (populated_from (List.length done) (firstn (List.length snap) fc)))
         (with_item_thumbs
            (done ++ map_slots (fun _ => placeholder_thumb) (List.length done) fc snap) d),
       if (List.length snap <? List.length fc)%nat
       then Raise AttributeError else Return tt).
Proof.
  induction snap as [| t r IH]; intros fc done d Hd.
  - destruct fc as [| x fc']; simpl.
    + rewrite app_nil_r in Hd. unfold ret. f_equal.
      rewrite !app_nil_r, <- Hd. now destruct d.
    + assert (Hb : show_placeholder size ratio (List.length done)
                     (Some x, @None ItemThumb) d = (d, Raise AttributeError)).
      { unfold show_placeholder. destruct (pair_entry (Some x, None)); reflexivity. }
      rewrite app_nil_r in Hd. unfold bind. rewrite Hb. f_equal.
      rewrite !app_nil_r, <- Hd. now destruct d.
  - assert (Ht : nth_error (item_thumbs d) (List.length done) = Some t)
      by (rewrite Hd; apply nth_error_app_here).
    assert (Hlen : forall x : ItemThumb,
               List.length (done ++ [x]) = S (List.length done))
      by (intros; rewrite length_app; simpl; lia).
    destruct fc as [| x fc'].
    + rewrite zip_longest_nil_l. simpl map. simpl for_enumerate.
      rewrite (bind_return _ _ _ _ _
                 (show_placeholder_hide size ratio (List.length done)
                    (None, Some t) t t d eq_refl eq_refl Ht)).
      rewrite <- (zip_longest_nil_l (A := option Entry) r).
      rewrite <- (Hlen (thumb_set_visible false t)).
      rewrite (IH [] (done ++ [thumb_set_visible false t])%list).
      2:{ simpl. rewrite Hd, list_set_app_here, <- app_assoc. reflexivity. }
      rewrite !length_app. simpl List.length.
      rewrite !firstn_nil. simpl.
      unfold with_queue, with_item_thumbs. simpl. rewrite <- app_assoc.
      replace (List.length done + 1)%nat with (S (List.length done)) by lia.
      reflexivity.
    + simpl zip_longest. simpl for_enumerate.
      destruct x as [e |].
      * rewrite (bind_return _ _ _ _ _
                   (show_placeholder_put size ratio (List.length done)
                      (Some (Some e), Some t) e t t d eq_refl eq_refl Ht)).
        rewrite <- (Hlen (placeholder_thumb (Some e) t)).
        rewrite (IH fc' (done ++ [placeholder_thumb (Some e) t])%list).
        2:{ simpl. rewrite Hd, list_set_app_here, <- app_assoc. reflexivity. }
        rewrite !length_app. simpl List.length.
        replace (List.length done + 1)%nat with (S (List.length done)) by lia.
        simpl. unfold with_queue, with_item_thumbs. simpl.
        rewrite <- !app_assoc. reflexivity.
      * rewrite (bind_return _ _ _ _ _
                   (show_placeholder_hide size ratio (List.length done)
                      (Some None, Some t) t t d eq_refl eq_refl Ht)).
        rewrite <- (Hlen (thumb_set_visible false t)).
        rewrite (IH fc' (done ++ [thumb_set_visible false t])%list).
        2:{ simpl. rewrite Hd, list_set_app_here, <- app_assoc. reflexivity. }
        rewrite !length_app. simpl List.length.
        replace (List.length done + 1)%nat with (S (List.length done)) by lia.
        simpl. unfold with_queue, with_item_thumbs. simpl.
        rewrite <- !app_assoc. reflexivity.
Qed.

(** The second loop on a grid that covers the frame, with a library
    directory. *)
Lemma rendered_loop_exact (dir : string) (snap : list ItemThumb) :
  forall (fc : list (option Entry)) (done : list ItemThumb) (d : QtDriver),
    library_dir (lib d) = Some dir ->
    item_thumbs d = (done ++ snap)%list ->
    (List.length fc <= List.length snap)%nat ->
    for_enumerate (List.length done) (zip_longest fc snap)
      (show_rendered TAG_ARCHIVED TAG_FAVORITE size ratio) d
    = (with_time_calls
         (time_calls d + 2 * List.length (populated_from (List.length done) fc))
         (with_queue
            (thumb_job_queue d
             ++ map Job (rendered_jobs size ratio dir (clock d) (time_calls d)
                           (populated_from (List.length done) fc)))
            (with_item_thumbs
               (done ++ map_slots (rendered_slot_thumb TAG_ARCHIVED TAG_FAVORITE)
                          (List.length done) fc snap) d)),
       Return tt).
Proof.
  induction snap as [| t r IH]; intros fc done d Hdir Hd Hfit.
  - destruct fc; [| simpl in Hfit; lia]. simpl. unfold ret. f_equal.
    rewrite app_nil_r in Hd. rewrite !app_nil_r, Nat.add_0_r, <- Hd.
    now destruct d.
  - assert (Ht : nth_error (item_thumbs d) (List.length done) = Some t)
      by (rewrite Hd; apply nth_error_app_here).
    assert (Hlen : forall x : ItemThumb,
               List.length (done ++ [x]) = S (List.length done))
      by (intros; rewrite length_app; simpl; lia).
    destruct fc as [| x fc'].
    + rewrite zip_longest_nil_l, rendered_loop_tail. simpl populated_from.
      simpl. f_equal. rewrite app_nil_r, Nat.add_0_r.
      assert (Hsame : forall k l, map_slots (rendered_slot_thumb TAG_ARCHIVED TAG_FAVORITE)
                                    k [] l = l).
      { intros k l. revert k. induction l as [| a l IHl]; intros k; simpl;
          [reflexivity | now rewrite IHl]. }
      rewrite Hsame, <- Hd. now destruct d.
    + simpl in Hfit. simpl zip_longest. simpl for_enumerate.
      destruct x as [e |].
      * rewrite (bind_return _ _ _ _ _
                   (show_rendered_put TAG_ARCHIVED TAG_FAVORITE size ratio
                      (List.length done) (Some (Some e), Some t) e t t dir d
                      eq_refl eq_refl Hdir Ht)).
        rewrite <- (Hlen (rendered_thumb TAG_ARCHIVED TAG_FAVORITE (List.length done) e t)).
        rewrite (IH fc' (done ++ [rendered_thumb TAG_ARCHIVED TAG_FAVORITE
                                    (List.length done) e t])%list).
        2:{ exact Hdir. }
        2:{ simpl. rewrite Hd, list_set_app_here, <- app_assoc. reflexivity. }
        2:{ lia. }
        rewrite !Hlen. f_equal.
        simpl populated_from. simpl rendered_jobs. simpl map_slots.
        unfold with_time_calls, with_queue, with_item_thumbs.
        cbn [item_thumbs thumb_job_queue time_calls clock lib frame_content filter
             pages_count thumb_size update_cutoff selected autofill_disabled
             device_pixel_ratio].
        f_equal.
        -- rewrite <- app_assoc. reflexivity.
        -- rewrite <- app_assoc. reflexivity.
        -- simpl List.length. lia.
      * rewrite (bind_return _ _ _ _ _
                   (show_rendered_skip TAG_ARCHIVED TAG_FAVORITE size ratio
                      (List.length done) (Some None, Some t) d eq_refl)).
        rewrite <- (Hlen t).
        rewrite (IH fc' (done ++ [t])%list); [| exact Hdir | | lia].
        2:{ rewrite Hd, <- app_assoc. reflexivity. }
        rewrite !Hlen. simpl populated_from. simpl map_slots.
        rewrite <- app_assoc. reflexivity.
Qed.

(** The second loop without a library directory: it raises [TypeError]
    at the first populated slot and has changed nothing by then. *)
Lemma rendered_loop_no_dir (fc : list (option Entry)) :
  forall (snap : list ItemThumb) (k : nat) (d : QtDriver),
    library_dir (lib d) = None ->
    for_enumerate k (zip_longest fc snap)
      (show_rendered TAG_ARCHIVED TAG_FAVORITE size ratio) d
    = (d, match populated_from k fc with
          | [] => Return tt
          | _ :: _ => Raise TypeError
          end).
Proof.
  induction fc as [| x fc' IH]; intros snap k d Hdir.
  - rewrite zip_longest_nil_l, rendered_loop_tail. reflexivity.
  - destruct x as [e |].
    + assert (Hb : forall p, show_rendered TAG_ARCHIVED TAG_FAVORITE size ratio k
                               (Some (Some e), p) d = (d, Raise TypeError)).
      { intros p. unfold show_rendered.
        change (pair_entry (Some (Some e), p)) with (Some e).
        unfold bind, gets. rewrite Hdir. reflexivity. }
      destruct snap as [| t r]; simpl; unfold bind; rewrite Hb; reflexivity.
    + destruct snap as [| t r]; simpl.
      * rewrite (bind_return _ _ _ _ _
                   (show_rendered_skip TAG_ARCHIVED TAG_FAVORITE size ratio k
                      (Some None, None) d eq_refl)).
        apply (IH [] (S k) d Hdir).
      * rewrite (bind_return _ _ _ _ _
                   (show_rendered_skip TAG_ARCHIVED TAG_FAVORITE size ratio k
                      (Some None, Some t) d eq_refl)).
        apply (IH r (S k) d Hdir).
Qed.

End RefreshExact.

Lemma map_slots_ext f g (ts : list ItemThumb) :
  (forall k s t, f k s t = g k s t) ->
  forall k fc, map_slots f k fc ts = map_slots g k fc ts.
Proof.
  intros H. induction ts as [| t r IH]; intros k fc; simpl; [reflexivity |].
  now rewrite H, IH.
Qed.

Lemma populated_none_slot (fc : list (option Entry)) (k : nat) :
  populated_from 0 fc = [] -> slot_entry fc k = None.
Proof.
  intros H. unfold slot_entry.
  destruct (nth_error fc k) as [[e |] |] eqn:E; try reflexivity.
  assert (Hin : In (k, e) (populated_from 0 fc)).
  { apply populated_from_spec. split; [lia |]. now rewrite Nat.sub_0_r. }
  rewrite H in Hin. destruct Hin.
Qed.

(** [update_thumbs] in closed form, for every state of the driver. *)
Lemma update_thumbs_exact (TAG_ARCHIVED TAG_FAVORITE : Z) (d : QtDriver) :
  update_thumbs TAG_ARCHIVED TAG_FAVORITE d
  = let d0 := with_cutoff (Time (clock d (time_calls d)))
                (with_time_calls (S (time_calls d)) (with_queue [] d)) in
    let size := (thumb_size d, thumb_size d) in
    let placeholders k fc :=
      map (fun p => Job (placeholder_job size (device_pixel_ratio d) (fst p)))
        (populated_from k fc) in
    let d1 := with_queue
                (placeholders 0%nat
                   (firstn (List.length (item_thumbs d)) (frame_content d)))
                (with_item_thumbs
                   (map_slots (fun _ => placeholder_thumb) 0 (frame_content d)
                      (item_thumbs d)) d0) in
    if (List.length (item_thumbs d) <? List.length (frame_content d))%nat
    then (d1, Raise AttributeError)
    else
      match library_dir (lib d) with
      | Some dir =>
          (with_time_calls
             (S (time_calls d) + 2 * List.length (populated_from 0 (frame_content d)))
             (with_queue
                (placeholders 0%nat (frame_content d)
                 ++ map Job (rendered_jobs size (device_pixel_ratio d) dir (clock d)
                               (S (time_calls d))
                               (populated_from 0 (frame_content d))))
                (with_item_thumbs
                   (map_slots (refreshed_thumb TAG_ARCHIVED TAG_FAVORITE) 0
                      (frame_content d) (item_thumbs d)) d0)),
           Return tt)
      | None =>
          (d1, match populated_from 0 (frame_content d) with
               | [] => Return tt
               | _ :: _ => Raise TypeError
               end)
      end.
Proof.
  cbv zeta. unfold update_thumbs.
  rewrite (bind_return _ _ _ _ _ (cancel_thumb_jobs_run d)).
  do 4 (unfold bind at 1; unfold gets at 1).
  set (d0 := with_cutoff _ _).
  pose proof (placeholder_loop_exact (thumb_size d0, thumb_size d0)
                (device_pixel_ratio d0) (item_thumbs d0) (frame_content d0) [] d0
                eq_refl) as H1.
  simpl List.length in H1. cbn [app] in H1.
  change (item_thumbs d0) with (item_thumbs d) in *.
  change (frame_content d0) with (frame_content d) in *.
  change (thumb_size d0) with (thumb_size d) in *.
  change (device_pixel_ratio d0) with (device_pixel_ratio d) in *.
  change (thumb_job_queue d0) with (@nil queue_item) in H1. cbn [app] in H1.
  destruct (List.length (item_thumbs d) <? List.length (frame_content d))%nat eqn:Efit.
  - unfold bind at 1. rewrite H1. reflexivity.
  - apply Nat.ltb_ge in Efit.
    rewrite firstn_all2 in H1 by exact Efit.
    rewrite firstn_all2 by exact Efit.
    rewrite (bind_return _ _ _ _ _ H1).
    do 2 (unfold bind at 1; unfold gets at 1).
    match goal with |- context [for_enumerate _ _ _ ?x] => set (d1 := x) end.
    destruct (library_dir (lib d)) as [dir |] eqn:Edir.
    + pose proof (rendered_loop_exact TAG_ARCHIVED TAG_FAVORITE
                    (thumb_size d, thumb_size d) (device_pixel_ratio d) dir
                    (item_thumbs d1) (frame_content d1) [] d1 Edir eq_refl) as H2.
      simpl List.length in H2. cbn [app] in H2.
      rewrite H2.
      2:{ subst d1. simpl. rewrite length_map_slots. exact Efit. }
      subst d1. simpl. f_equal.
      unfold with_time_calls, with_queue, with_item_thumbs. simpl.
      rewrite map_slots_compose. f_equal.
      apply map_slots_ext. intros k [e |] t; reflexivity.
    + rewrite (rendered_loop_no_dir TAG_ARCHIVED TAG_FAVORITE
                 (thumb_size d, thumb_size d) (device_pixel_ratio d)
                 (frame_content d1) (item_thumbs d1) 0 d1 Edir).
      reflexivity.
Qed.

(** X1.  Outcome of a refresh, for every state of the driver: it raises
    [AttributeError] when the frame is longer than the grid, otherwise
    [TypeError] when no library directory is set and some slot is
    populated, and returns in every other case.  When it raises, only
    placeholder jobs have been queued. *)
Theorem update_thumbs_outcome (TAG_ARCHIVED TAG_FAVORITE : Z) (d : QtDriver) :
  result (update_thumbs TAG_ARCHIVED TAG_FAVORITE) d
  = (if (List.length (item_thumbs d) <? List.length (frame_content d))%nat
     then Raise AttributeError
     else match library_dir (lib d), populated_from 0 (frame_content d) with
          | None, _ :: _ => Raise TypeError
          | _, _ => Return tt
          end)
  /\ (result (update_thumbs TAG_ARCHIVED TAG_FAVORITE) d <> Return tt ->
      forall j,
        In (Job j) (thumb_job_queue (exec (update_thumbs TAG_ARCHIVED TAG_FAVORITE) d)) ->
        job_loading j = true).
Proof.
  unfold result, exec. rewrite update_thumbs_exact. cbv zeta.
  assert (Hph : forall l j,
             In (Job j)
               (map (fun p : nat * Entry =>
                       Job (placeholder_job (thumb_size d, thumb_size d)
                              (device_pixel_ratio d) (fst p))) l) ->
             job_loading j = true).
  { intros l j Hin. apply in_map_iff in Hin. destruct Hin as [p [Hp _]].
    injection Hp as <-. reflexivity. }
  destruct (List.length (item_thumbs d) <? List.length (frame_content d))%nat.
  - simpl. split; [reflexivity |]. intros _ j. apply Hph.
  - destruct (library_dir (lib d)); simpl.
    + split; [reflexivity | congruence].
    + destruct (populated_from 0 (frame_content d)); simpl.
      * split; [reflexivity | congruence].
      * split; [reflexivity |]. intros _ j. apply Hph.
Qed.

Lemma update_thumbs_outcome_witness :
  result (update_thumbs 0 1)
    (sample_driver (sample_library [] 0)
       [Some (sample_entry 1); Some (sample_entry 2)] 1 [])
  <> Return tt
  /\ (forall j,
        In (Job j)
          (thumb_job_queue
             (exec (update_thumbs 0 1)
                (sample_driver (sample_library [] 0)
                   [Some (sample_entry 1); Some (sample_entry 2)] 1 []))) ->
        job_loading j = true).
Proof.
  split; [vm_compute; discriminate |].
  apply (proj2 (update_thumbs_outcome 0 1
                  (sample_driver (sample_library [] 0)
                     [Some (sample_entry 1); Some (sample_entry 2)] 1 []))).
  vm_compute. discriminate.
Defined.

(** X2.  After a refresh that returns, each thumb of the grid shows the
    slot it faces: over a populated slot it is visible, in entry mode,
    holds the entry, carries the archived and favorite badges exactly when
    the entry's tags contain the two tag ids, is bound to its own grid
    index and is unmarked; over an emptied slot or past the end of the
    frame it is hidden and otherwise as before.  The number of thumbs is
    unchanged. *)
Theorem update_thumbs_shows_frame (TAG_ARCHIVED TAG_FAVORITE : Z) (d : QtDriver) :
  result (update_thumbs TAG_ARCHIVED TAG_FAVORITE) d = Return tt ->
  List.length (item_thumbs (exec (update_thumbs TAG_ARCHIVED TAG_FAVORITE) d))
  = List.length (item_thumbs d)
  /\ forall k t,
      nth_error (item_thumbs d) k = Some t ->
      exists t',
        nth_error (item_thumbs (exec (update_thumbs TAG_ARCHIVED TAG_FAVORITE) d)) k
        = Some t'
        /\ match slot_entry (frame_content d) k with
           | Some e =>
               thumb_visible t' = true
               /\ thumb_mode t' = Some ENTRY
               /\ thumb_item_id t' = Some e
               /\ thumb_archived t' = py_in TAG_ARCHIVED (entry_tags e)
               /\ thumb_favorite t' = py_in TAG_FAVORITE (entry_tags e)
               /\ thumb_clickable t' = Some (Z.of_nat k)
               /\ thumb_selected t' = false
           | None => t' = thumb_set_visible false t
           end.
Proof.
  unfold result, exec. rewrite update_thumbs_exact. cbv zeta.
  destruct (List.length (item_thumbs d) <? List.length (frame_content d))%nat;
    [simpl; discriminate |].
  destruct (library_dir (lib d)); simpl.
  - intros _. split; [apply length_map_slots |].
    intros k t Hk. rewrite nth_error_map_slots, Hk. simpl.
    eexists. split; [reflexivity |].
    destruct (slot_entry (frame_content d) k); simpl; [| reflexivity].
    repeat split.
  - destruct (populated_from 0 (frame_content d)) eqn:Ep; [| discriminate].
    intros _. split; [apply length_map_slots |].
    intros k t Hk. rewrite nth_error_map_slots, Hk. simpl.
    eexists. split; [reflexivity |].
    rewrite (populated_none_slot _ k Ep). reflexivity.
Qed.

Lemma update_thumbs_shows_frame_witness :
  List.length (item_thumbs (exec (update_thumbs 0 1) grid_with_gap))
  = List.length (item_thumbs grid_with_gap)
  /\ forall k t,
      nth_error (item_thumbs grid_with_gap) k = Some t ->
      exists t',
        nth_error (item_thumbs (exec (update_thumbs 0 1) grid_with_gap)) k = Some t'
        /\ match slot_entry (frame_content grid_with_gap) k with
           | Some e =>
               thumb_visible t' = true
               /\ thumb_mode t' = Some ENTRY
               /\ thumb_item_id t' = Some e
               /\ thumb_archived t' = py_in 0 (entry_tags e)
               /\ thumb_favorite t' = py_in 1 (entry_tags e)
               /\ thumb_clickable t' = Some (Z.of_nat k)
               /\ thumb_selected t' = false
           | None => t' = thumb_set_visible false t
           end.
Proof.
  apply (update_thumbs_shows_frame 0 1 grid_with_gap). reflexivity.
Defined.

(** ** Marks on the thumbs *)

Lemma py_index_nat (n x : nat) :
  (x < n)%nat -> py_index n (Z.of_nat x) = Some x.
Proof.
  intros H. unfold py_index.
  replace (0 <=? Z.of_nat x) with true by (symmetry; apply Z.leb_le; lia).
  replace (Z.of_nat x <? Z.of_nat n) with true by (symmetry; apply Z.ltb_lt; lia).
  simpl. now rewrite Nat2Z.id.
Qed.

Lemma py_index_beyond (n x : nat) :
  (n <= x)%nat -> py_index n (Z.of_nat x) = None.
Proof.
  intros H. unfold py_index.
  replace (Z.of_nat x <? Z.of_nat n) with false by (symmetry; apply Z.ltb_ge; lia).
  replace (Z.of_nat x <? 0) with false by (symmetry; apply Z.ltb_ge; lia).
  now rewrite Bool.andb_false_r.
Qed.

Lemma set_thumb_selected_at (x : nat) (b : bool) (t : ItemThumb) (d : QtDriver) :
  nth_error (item_thumbs d) x = Some t ->
  set_thumb_selected (Z.of_nat x) b d
  = (with_item_thumbs (list_set (item_thumbs d) x (thumb_set_selected b t)) d,
     Return tt).
Proof.
  intros Hx. unfold set_thumb_selected, bind, gets.
  rewrite py_index_nat by (apply nth_error_Some; congruence).
  rewrite Hx. reflexivity.
Qed.

Lemma set_thumb_selected_beyond (x : nat) (b : bool) (d : QtDriver) :
  (List.length (item_thumbs d) <= x)%nat ->
  set_thumb_selected (Z.of_nat x) b d = (d, Raise IndexError).
Proof.
  intros Hx. unfold set_thumb_selected, bind, gets.
  now rewrite py_index_beyond.
Qed.

Lemma nth_error_mark_only (i : Z) (ts : list ItemThumb) :
  forall s k,
    nth_error (mark_only i s ts) k
    = option_map (thumb_set_selected (s + Z.of_nat k =? i)) (nth_error ts k).
Proof.
  induction ts as [| t r IH]; intros s k.
  - now destruct k.
  - destruct k as [| k]; cbn [mark_only nth_error option_map].
    + now rewrite Z.add_0_r.
    + rewrite IH. replace (s + 1 + Z.of_nat k) with (s + Z.of_nat (S k)) by lia.
      reflexivity.
Qed.

Lemma marks_kept_refl (d : QtDriver) : marks_kept d d.
Proof. intros k t H. exists t. auto. Qed.

Lemma marks_kept_trans (a b c : QtDriver) :
  marks_kept a b -> marks_kept b c -> marks_kept a c.
Proof.
  intros Hab Hbc k t H. destruct (Hab k t H) as [t1 [H1 M1]].
  destruct (Hbc k t1 H1) as [t2 [H2 M2]]. exists t2. auto.
Qed.

Lemma set_thumb_selected_true_keeps (i : Z) (d : QtDriver) :
  marks_kept d (fst (set_thumb_selected i true d)).
Proof.
  unfold set_thumb_selected, bind, gets.
  destruct (py_index (List.length (item_thumbs d)) i) as [n |];
    [| apply marks_kept_refl].
  destruct (nth_error (item_thumbs d) n) as [tn |] eqn:En;
    [| apply marks_kept_refl].
  intros k t Hk. cbn [fst modify item_thumbs with_item_thumbs].
  destruct (Nat.eq_dec n k) as [<- | Hne].
  - rewrite (nth_error_list_set_eq _ _ _ _ En). eexists. split; [reflexivity |].
    reflexivity.
  - rewrite nth_error_list_set_neq by exact Hne. exists t. auto.
Qed.

Lemma for_each_marks_kept (l : list Z) :
  forall d, marks_kept d (fst (for_each l (fun i => set_thumb_selected i true) d)).
Proof.
  induction l as [| x r IH]; intros d; simpl; [apply marks_kept_refl |].
  unfold bind.
  pose proof (set_thumb_selected_true_keeps x d) as H1.
  destruct (set_thumb_selected x true d) as [d1 [u | e]]; simpl in *.
  - eapply marks_kept_trans; [exact H1 | apply IH].
  - exact H1.
Qed.

Lemma select_item_plain_thumbs (d : QtDriver) (i : Z) :
  item_thumbs (exec (select_item i false false) d) = mark_only i 0 (item_thumbs d)
  /\ selected (exec (select_item i false false) d) = [i].
Proof.
  unfold exec, select_item, bind, gets, modify, set_macro_menu_viability.
  simpl. destruct (py_min (selected d)), (py_max (selected d)); simpl; auto.
Qed.

Lemma py_remove_in (x : Z) (l : list Z) :
  py_in x l = true -> exists l', py_remove x l = Some l'.
Proof.
  intros H. apply py_in_spec in H.
  destruct (py_remove_spec x l H) as [l' [Hl _]]. eauto.
Qed.

Lemma select_item_append_thumbs (d : QtDriver) (x : nat) (bridge : bool) (t : ItemThumb) :
  nth_error (item_thumbs d) x = Some t ->
  item_thumbs (exec (select_item (Z.of_nat x) true bridge) d)
  = list_set (item_thumbs d) x
      (thumb_set_selected (negb (py_in (Z.of_nat x) (selected d))) t)
  /\ result (select_item (Z.of_nat x) true bridge) d = Return tt.
Proof.
  intros Hx.
  assert (E : exists sel',
             select_item (Z.of_nat x) true bridge d
             = (with_autofill_disabled (match sel' with [] => true | _ => false end)
                  (with_item_thumbs
                     (list_set (item_thumbs d) x
                        (thumb_set_selected
                           (negb (py_in (Z.of_nat x) (selected d))) t))
                     (with_selected sel' d)),
                Return tt)).
  { unfold select_item.
    unfold bind at 1. unfold gets at 1. cbv iota.
    destruct (py_in (Z.of_nat x) (selected d)) eqn:Ein; cbn [negb].
    - destruct (py_remove_in _ _ Ein) as [l' Hl]. rewrite Hl. exists l'.
      unfold bind at 2. unfold modify at 1. unfold bind at 1. cbv beta.
      rewrite (set_thumb_selected_at x false t (with_selected l' d) Hx).
      reflexivity.
    - exists (selected d ++ [Z.of_nat x])%list.
      unfold bind at 2. unfold modify at 1. unfold bind at 1. cbv beta.
      rewrite (set_thumb_selected_at x true t
                 (with_selected (selected d ++ [Z.of_nat x]) d) Hx).
      reflexivity. }
  destruct E as [sel' E]. unfold exec, result. rewrite E. simpl. auto.
Qed.

Lemma select_item_append_membership (d : QtDriver) (i j : Z) (bridge : bool) :
  NoDup (selected d) ->
  py_in j (selected (exec (select_item i true bridge) d))
  = if j =? i then negb (py_in i (selected d)) else py_in j (selected d).
Proof.
  intros Hnd. rewrite select_item_selected.
  destruct (py_in i (selected d)) eqn:Ein.
  - apply py_in_spec in Ein.
    destruct (py_remove_spec i (selected d) Ein) as [l' [-> [Hiff [_ Hs]]]].
    destruct (Hs Hnd) as [Hni _].
    destruct (Z.eqb_spec j i) as [-> | Hne]; simpl.
    + now apply py_in_false.
    + destruct (py_in j (selected d)) eqn:Ej.
      * apply py_in_spec. apply Hiff; [exact Hne |]. now apply py_in_spec.
      * apply py_in_false. intros Hc. apply Hiff in Hc; [| exact Hne].
        apply py_in_spec in Hc. congruence.
  - destruct (Z.eqb_spec j i) as [-> | Hne]; simpl.
    + apply py_in_spec, in_or_app. right. now left.
    + destruct (py_in j (selected d)) eqn:Ej.
      * apply py_in_spec, in_or_app. left. now apply py_in_spec.
      * apply py_in_false. intros Hc. apply in_app_or in Hc.
        destruct Hc as [Hc | [Hc | []]]; [| congruence].
        apply py_in_spec in Hc. congruence.
Qed.

(** X3.  Marks and selection.  A plain click and clear-select leave the
    marks on the thumbs in agreement with the selection, whatever the state
    before; a click in append mode on a thumb of the grid returns and keeps
    the agreement, the selection being duplicate-free. *)
Theorem selection_marks_agree :
  (forall d i, marks_match (exec (select_item i false false) d))
  /\ (forall d, marks_match (exec clear_select_action_callback d))
  /\ (forall d x bridge,
        marks_match d ->
        NoDup (selected d) ->
        (x < List.length (item_thumbs d))%nat ->
        result (select_item (Z.of_nat x) true bridge) d = Return tt
        /\ marks_match (exec (select_item (Z.of_nat x) true bridge) d)).
Proof.
  split; [| split].
  - intros d i k t. destruct (select_item_plain_thumbs d i) as [-> ->].
    rewrite nth_error_mark_only.
    destruct (nth_error (item_thumbs d) k); simpl; [| discriminate].
    intros H. injection H as <-. simpl.
    rewrite Bool.orb_false_r. reflexivity.
  - intros d k t. simpl. rewrite nth_error_map.
    destruct (nth_error (item_thumbs d) k); simpl; [| discriminate].
    intros H. injection H as <-. reflexivity.
  - intros d x bridge Hm Hnd Hx.
    destruct (nth_error_in_range _ _ Hx) as [t Ht].
    destruct (select_item_append_thumbs d x bridge t Ht) as [Hts Hres].
    split; [exact Hres |].
    intros k t' Hk. rewrite Hts in Hk.
    rewrite (select_item_append_membership d (Z.of_nat x) (Z.of_nat k) bridge Hnd).
    destruct (Nat.eq_dec x k) as [<- | Hne].
    + rewrite (nth_error_list_set_eq _ _ _ _ Ht) in Hk. injection Hk as <-.
      rewrite Z.eqb_refl. reflexivity.
    + rewrite nth_error_list_set_neq in Hk by exact Hne.
      replace (Z.of_nat k =? Z.of_nat x) with false
        by (symmetry; apply Z.eqb_neq; lia).
      apply (Hm k t' Hk).
Qed.

Lemma selection_marks_agree_witness :
  result (select_item (Z.of_nat 5) true false)
    (exec (select_item 2 false false) no_pages) = Return tt
  /\ marks_match (exec (select_item (Z.of_nat 5) true false)
                    (exec (select_item 2 false false) no_pages)).
Proof.
  destruct selection_marks_agree as [Hplain [_ Happend]].
  apply (Happend (exec (select_item 2 false false) no_pages) 5%nat false).
  - apply Hplain.
  - repeat constructor; simpl; intuition discriminate.
  - simpl. lia.
Defined.

Lemma select_item_bridge_state (d : QtDriver) (i lo hi : Z) :
  py_min (selected d) = Some lo ->
  py_max (selected d) = Some hi ->
  marks_kept d (exec (select_item i false true) d).
Proof.
  intros Hlo Hhi. unfold exec, select_item.
  unfold bind at 1. unfold gets at 1. rewrite Hlo, Hhi.
  set (range := if hi <? i then py_range lo (i + 1) else py_range i (hi + 1)).
  unfold bind at 1.
  pose proof (for_each_marks_kept range (with_selected range d)) as Hk.
  unfold bind at 1. unfold modify at 1.
  destruct (for_each range (fun selected_idx => set_thumb_selected selected_idx true)
              (with_selected range d)) as [d1 [u | e]]; simpl in *.
  - exact Hk.
  - exact Hk.
Qed.

(** X4.  Bridge selection only adds marks.  With a non-empty selection,
    every thumb marked before the click is still marked after it, whether
    the method returns or raises; yet a selected index below the clicked one
    leaves the selection when the click is not beyond the greatest selected
    index.  Such a thumb keeps its mark without being selected. *)
Theorem select_item_bridge_keeps_marks (d : QtDriver) (i : Z) :
  selected d <> [] ->
  marks_kept d (exec (select_item i false true) d)
  /\ (forall j hi,
        py_max (selected d) = Some hi ->
        In j (selected d) -> j < i -> i <= hi ->
        ~ In j (selected (exec (select_item i false true) d))).
Proof.
  intros Hne.
  destruct (py_min (selected d)) as [lo |] eqn:Hlo;
    [| destruct (selected d); [congruence | discriminate]].
  destruct (py_max (selected d)) as [hi |] eqn:Hhi;
    [| destruct (selected d); [congruence | discriminate]].
  split; [apply (select_item_bridge_state d i lo hi Hlo Hhi) |].
  intros j hi' Hhi' Hj Hlt Hle. injection Hhi' as <-.
  rewrite select_item_selected, Hlo, Hhi.
  replace (hi <? i) with false by (symmetry; apply Z.ltb_ge; lia).
  rewrite In_py_range. lia.
Qed.

Lemma select_item_bridge_keeps_marks_witness :
  marks_kept (exec (select_item 5 true false) (exec (select_item 2 false false) no_pages))
    (exec (select_item 3 false true)
       (exec (select_item 5 true false) (exec (select_item 2 false false) no_pages)))
  /\ (forall j hi,
        py_max [2; 5] = Some hi ->
        In j [2; 5] -> j < 3 -> 3 <= hi ->
        ~ In j (selected
                  (exec (select_item 3 false true)
                     (exec (select_item 5 true false)
                        (exec (select_item 2 false false) no_pages))))).
Proof.
  apply (select_item_bridge_keeps_marks
           (exec (select_item 5 true false) (exec (select_item 2 false false) no_pages)) 3).
  simpl. discriminate.
Defined.

(** The click of the witness: from the selection 2, 5 a bridge click on 3
    selects 3, 4, 5 and leaves the thumb of slot 2 marked. *)
Example bridge_click_inside :
  selected (exec (select_item 3 false true)
              (exec (select_item 5 true false)
                 (exec (select_item 2 false false) no_pages))) = [3; 4; 5]
  /\ map thumb_selected
       (firstn 6 (item_thumbs
                    (exec (select_item 3 false true)
                       (exec (select_item 5 true false)
                          (exec (select_item 2 false false) no_pages)))))
     = [false; false; true; true; true; true].
Proof. split; reflexivity. Qed.

(** ** Select all *)

Lemma py_range_from_zero (n : nat) :
  py_range 0 (Z.of_nat n) = map Z.of_nat (seq 0 n).
Proof.
  unfold py_range. rewrite Z.sub_0_r, Nat2Z.id. apply map_ext. intros k. lia.
Qed.

Lemma with_item_thumbs_same (d : QtDriver) : with_item_thumbs (item_thumbs d) d = d.
Proof. destruct d; reflexivity. Qed.

(** Marking the thumbs of positions [s], [s + 1], ... in turn: the loop
    stops with an [IndexError] at the first position past the grid. *)
Lemma mark_seq (n : nat) :
  forall (s : nat) (d : QtDriver),
    (s <= List.length (item_thumbs d))%nat ->
    exists ts',
      for_each (map Z.of_nat (seq s n)) (fun i => set_thumb_selected i true) d
      = (with_item_thumbs ts' d,
         if (s + n <=? List.length (item_thumbs d))%nat
         then Return tt else Raise IndexError)
      /\ forall k,
          nth_error ts' k
          = option_map
              (fun t => if ((s <=? k) && (k <? s + n))%nat
                        then thumb_set_selected true t else t)
              (nth_error (item_thumbs d) k).
Proof.
  induction n as [| n IH]; intros s d Hs; cbn [seq map for_each].
  - exists (item_thumbs d). split.
    + rewrite with_item_thumbs_same.
      replace (s + 0 <=? List.length (item_thumbs d))%nat with true
        by (symmetry; apply Nat.leb_le; lia).
      reflexivity.
    + intros k. destruct (nth_error (item_thumbs d) k); [| reflexivity]. simpl.
      destruct (Nat.leb_spec s k), (Nat.ltb_spec k (s + 0)); simpl;
        try reflexivity; lia.
  - destruct (nth_error (item_thumbs d) s) as [t |] eqn:Es.
    + assert (Hlt : (s < List.length (item_thumbs d))%nat)
        by (apply nth_error_Some; congruence).
      unfold bind at 1. rewrite (set_thumb_selected_at s true t d Es).
      set (d1 := with_item_thumbs
                   (list_set (item_thumbs d) s (thumb_set_selected true t)) d).
      assert (Hs1 : (S s <= List.length (item_thumbs d1))%nat)
        by (unfold d1; cbn [item_thumbs with_item_thumbs];
            rewrite length_list_set; lia).
      destruct (IH (S s) d1 Hs1) as [ts' [Hrun Hnth]].
      exists ts'. split.
      * rewrite Hrun. unfold d1. cbn [item_thumbs with_item_thumbs].
        rewrite length_list_set.
        replace (s + S n)%nat with (S s + n)%nat by lia. reflexivity.
      * intros k. rewrite Hnth. unfold d1. cbn [item_thumbs with_item_thumbs].
        destruct (Nat.eq_dec s k) as [<- | Hne].
        -- rewrite (nth_error_list_set_eq _ _ _ _ Es), Es. cbn [option_map].
           destruct (Nat.leb_spec (S s) s); [lia |].
           destruct (Nat.leb_spec s s); [| lia].
           destruct (Nat.ltb_spec s (s + S n)); [| lia].
           reflexivity.
        -- rewrite nth_error_list_set_neq by exact Hne.
           destruct (nth_error (item_thumbs d) k); [| reflexivity]. cbn [option_map].
           destruct (Nat.leb_spec (S s) k), (Nat.leb_spec s k),
             (Nat.ltb_spec k (S s + n)), (Nat.ltb_spec k (s + S n));
             simpl; try reflexivity; lia.
    + apply nth_error_None in Es.
      unfold bind at 1. rewrite (set_thumb_selected_beyond s true d Es).
      exists (item_thumbs d). split.
      * rewrite with_item_thumbs_same.
        replace (s + S n <=? List.length (item_thumbs d))%nat with false
          by (symmetry; apply Nat.leb_gt; lia).
        reflexivity.
      * intros k. destruct (nth_error (item_thumbs d) k) eqn:Ek; [| reflexivity].
        assert (k < List.length (item_thumbs d))%nat
          by (apply nth_error_Some; congruence).
        simpl. destruct (Nat.leb_spec s k); [lia | reflexivity].
Qed.

(** X5.  Select all takes every slot of the frame, emptied ones included,
    and marks the thumbs of those positions only.  On a frame longer than
    the grid it raises [IndexError] after the selection has been replaced
    and every thumb of the grid has been marked. *)
Theorem select_all_outcome (d : QtDriver) :
  selected (exec select_all_action_callback d)
  = py_range 0 (Z.of_nat (List.length (frame_content d)))
  /\ result select_all_action_callback d
     = (if (List.length (frame_content d) <=? List.length (item_thumbs d))%nat
        then Return tt else Raise IndexError)
  /\ forall k,
      nth_error (item_thumbs (exec select_all_action_callback d)) k
      = option_map
          (fun t => if (k <? List.length (frame_content d))%nat
                    then thumb_set_selected true t else t)
          (nth_error (item_thumbs d) k).
Proof.
  set (n := List.length (frame_content d)).
  set (sel := py_range 0 (Z.of_nat n)).
  destruct (mark_seq n 0 (with_selected sel d) (Nat.le_0_l _)) as [ts' [Hrun Hnth]].
  cbn [item_thumbs with_selected] in Hrun, Hnth.
  rewrite <- py_range_from_zero in Hrun. fold sel in Hrun.
  assert (Hall : select_all_action_callback d
                 = if (n <=? List.length (item_thumbs d))%nat
                   then set_macro_menu_viability
                          (with_item_thumbs ts' (with_selected sel d))
                   else (with_item_thumbs ts' (with_selected sel d), Raise IndexError)).
  { unfold select_all_action_callback.
    unfold bind at 1. unfold gets at 1. fold n. fold sel.
    unfold bind at 1. unfold modify at 1.
    unfold bind at 1. rewrite Hrun.
    cbn [Nat.add]. destruct (n <=? List.length (item_thumbs d))%nat; reflexivity. }
  unfold exec, result. rewrite Hall.
  assert (Hk : forall k,
             nth_error ts' k
             = option_map
                 (fun t => if (k <? n)%nat then thumb_set_selected true t else t)
                 (nth_error (item_thumbs d) k)).
  { intros k. rewrite Hnth. destruct (nth_error (item_thumbs d) k); reflexivity. }
  destruct (n <=? List.length (item_thumbs d))%nat.
  - repeat split; try reflexivity. exact Hk.
  - repeat split; try reflexivity. exact Hk.
Qed.

(** ** Clicks outside the grid *)

Lemma py_index_lt (len : nat) (i : Z) (n : nat) :
  py_index len i = Some n -> (n < len)%nat.
Proof.
  unfold py_index.
  destruct (Z.leb_spec 0 i), (Z.ltb_spec i (Z.of_nat len)); simpl;
    try (intros [= <-]; lia);
    destruct (Z.ltb_spec i 0), (Z.leb_spec (- Z.of_nat len) i); simpl;
    try discriminate; intros [= <-]; lia.
Qed.

Lemma set_thumb_selected_run (i : Z) (b : bool) (d : QtDriver) :
  (exists n t,
      py_index (List.length (item_thumbs d)) i = Some n
      /\ nth_error (item_thumbs d) n = Some t
      /\ set_thumb_selected i b d
         = (with_item_thumbs (list_set (item_thumbs d) n (thumb_set_selected b t)) d,
            Return tt))
  \/ (py_index (List.length (item_thumbs d)) i = None
      /\ set_thumb_selected i b d = (d, Raise IndexError)).
Proof.
  unfold set_thumb_selected, bind, gets.
  destruct (py_index (List.length (item_thumbs d)) i) as [n |] eqn:Ei; [left | now right].
  pose proof (py_index_lt _ _ _ Ei) as Hlt.
  destruct (nth_error (item_thumbs d) n) as [t |] eqn:En.
  - exists n, t. auto.
  - apply nth_error_None in En. lia.
Qed.

Lemma py_remove_length (x : Z) (l l' : list Z) :
  py_remove x l = Some l' -> List.length l = S (List.length l').
Proof.
  revert l'. induction l as [| y r IH]; intros l'; simpl; [discriminate |].
  destruct (x =? y); [intros [= <-]; reflexivity |].
  destruct (py_remove x r) as [r' |]; [| discriminate].
  intros [= <-]. simpl. f_equal. now apply IH.
Qed.

(** X6.  A plain click never raises, whatever the index.  A click with
    [append] returns exactly when the index designates a thumb of the grid
    (negative indices count from the end); otherwise it raises [IndexError]
    with the selection already changed by one index, no thumb touched and
    the macro menu left as it was. *)
Theorem select_item_outcome (d : QtDriver) (i : Z) :
  result (select_item i false false) d = Return tt
  /\ forall bridge,
      result (select_item i true bridge) d
      = match py_index (List.length (item_thumbs d)) i with
        | Some _ => Return tt
        | None => Raise IndexError
        end
      /\ (py_index (List.length (item_thumbs d)) i = None ->
          List.length (selected (exec (select_item i true bridge) d))
          <> List.length (selected d)
          /\ item_thumbs (exec (select_item i true bridge) d) = item_thumbs d
          /\ autofill_disabled (exec (select_item i true bridge) d)
             = autofill_disabled d).
Proof.
  split.
  - unfold result, select_item, bind, gets, modify. simpl.
    destruct (py_min (selected d)), (py_max (selected d)); reflexivity.
  - intros bridge.
    assert (Hrun : exists l',
               List.length l' <> List.length (selected d)
               /\ select_item i true bridge d
                  = bind (set_thumb_selected i (negb (py_in i (selected d))))
                      (fun _ => set_macro_menu_viability) (with_selected l' d)).
    { unfold select_item. unfold bind at 1. unfold gets at 1. cbv iota.
      destruct (py_in i (selected d)) eqn:Hin; cbn [negb].
      - destruct (py_remove_in i (selected d) Hin) as [l' Hl']. rewrite Hl'.
        exists l'. split; [apply py_remove_length in Hl'; lia |].
        reflexivity.
      - exists (selected d ++ [i])%list. split; [rewrite length_app; simpl; lia |].
        reflexivity. }
    destruct Hrun as [l' [Hlen Hrun]].
    unfold result, exec. rewrite Hrun. unfold bind.
    destruct (set_thumb_selected_run i (negb (py_in i (selected d)))
                (with_selected l' d)) as [[n [t [Hi [Hn ->]]]] | [Hi ->]];
      cbn [item_thumbs with_selected] in Hi; rewrite Hi.
    + split; [reflexivity | discriminate].
    + split; [reflexivity |]. intros _. repeat split. exact Hlen.
Qed.

Lemma select_item_outcome_witness :
  result (select_item 10 true false) no_pages = Raise IndexError
  /\ List.length (selected (exec (select_item 10 true false) no_pages))
     <> List.length (selected no_pages)
  /\ item_thumbs (exec (select_item 10 true false) no_pages) = item_thumbs no_pages
  /\ autofill_disabled (exec (select_item 10 true false) no_pages)
     = autofill_disabled no_pages.
Proof.
  destruct (proj2 (select_item_outcome no_pages 10) false) as [Hres Hstate].
  split; [exact Hres | apply Hstate; reflexivity].
Defined.

(** ** What a worker takes from the queue *)

(** X7.  A worker takes the items from the head of the queue, in order,
    each one once: the queue is the jobs it invoked, then the quit marker
    when it met one, then what it left.  It leaves nothing when it ends
    waiting; every job it invoked survived, except the last one when an
    exception other than [RuntimeError] ended the loop. *)
Theorem Consumer_run_takes_prefix (call : RenderJob -> outcome unit)
    (queue : list queue_item) :
  (map Job (invoked (Consumer_run call queue))
   ++ match worker_end (Consumer_run call queue) with
      | Quit => [MARKER_QUIT]
      | _ => []
      end
   ++ left_in_queue (Consumer_run call queue))%list = queue
  /\ match worker_end (Consumer_run call queue) with
     | Waiting =>
         left_in_queue (Consumer_run call queue) = []
         /\ Forall (fun j => survived (call j) = true)
              (invoked (Consumer_run call queue))
     | Quit =>
         Forall (fun j => survived (call j) = true)
           (invoked (Consumer_run call queue))
     | Uncaught e =>
         exists pre j,
           invoked (Consumer_run call queue) = (pre ++ [j])%list
           /\ Forall (fun j' => survived (call j') = true) pre
           /\ call j = Raise e
           /\ is_RuntimeError e = false
     end.
Proof.
  induction queue as [| item rest [IHq IHe]]; [simpl; auto |].
  destruct item as [| j]; [simpl; auto |].
  assert (Hgo : survived (call j) = true ->
                (map Job (invoked (trace_cons j (Consumer_run call rest)))
                 ++ match worker_end (trace_cons j (Consumer_run call rest)) with
                    | Quit => [MARKER_QUIT]
                    | _ => []
                    end
                 ++ left_in_queue (trace_cons j (Consumer_run call rest)))%list
                = Job j :: rest
                /\ match worker_end (trace_cons j (Consumer_run call rest)) with
                   | Waiting =>
                       left_in_queue (trace_cons j (Consumer_run call rest)) = []
                       /\ Forall (fun j => survived (call j) = true)
                            (invoked (trace_cons j (Consumer_run call rest)))
                   | Quit =>
                       Forall (fun j => survived (call j) = true)
                         (invoked (trace_cons j (Consumer_run call rest)))
                   | Uncaught e =>
                       exists pre j0,
                         invoked (trace_cons j (Consumer_run call rest))
                         = (pre ++ [j0])%list
                         /\ Forall (fun j' => survived (call j') = true) pre
                         /\ call j0 = Raise e
                         /\ is_RuntimeError e = false
                   end).
  { intros Hs. unfold trace_cons. cbn [invoked worker_end left_in_queue map app].
    split; [now rewrite IHq |].
    destruct (worker_end (Consumer_run call rest)) as [| e |].
    - now constructor.
    - destruct IHe as [pre [j0 [Hinv [Hpre [Hc He]]]]].
      exists (j :: pre), j0. rewrite Hinv. repeat split; auto.
    - destruct IHe as [Hleft Hall]. split; [assumption | now constructor]. }
  destruct (survived (call j)) eqn:Hs.
  - rewrite Consumer_run_survived by exact Hs. now apply Hgo.
  - unfold survived in Hs. simpl.
    destruct (call j) as [u | e] eqn:Hc; [discriminate |]. rewrite Hs. simpl.
    split; [reflexivity |]. exists [], j. repeat split; auto.
Qed.

(** ** Shutdown *)

Lemma put_markers (n : nat) :
  forall d,
    for_each (repeat tt n) (fun _ => put MARKER_QUIT) d
    = (with_queue (thumb_job_queue d ++ repeat MARKER_QUIT n) d, Return tt).
Proof.
  induction n as [| n IH]; intros d; cbn [repeat for_each].
  - rewrite app_nil_r. destruct d; reflexivity.
  - unfold bind at 1. unfold put at 1, modify at 1.
    rewrite IH. cbn [thumb_job_queue with_queue].
    rewrite <- app_assoc. reflexivity.
Qed.

Lemma shutdown_requests_run (lib_close : Library -> Library) (threads : nat)
    (d : QtDriver) :
  shutdown_requests lib_close threads d
  = (match library_dir (lib d) with
     | Some _ => with_queue (repeat MARKER_QUIT threads) (with_lib (lib_close (lib d)) d)
     | None => with_queue (thumb_job_queue d ++ repeat MARKER_QUIT threads) d
     end, Return tt).
Proof.
  unfold shutdown_requests. unfold bind at 1. unfold close_library.
  unfold bind at 1. unfold gets at 1.
  destruct (library_dir (lib d)).
  - unfold bind, modify, ret. rewrite put_markers. reflexivity.
  - unfold ret. rewrite put_markers. reflexivity.
Qed.

(** X8.  What shutdown asks of the workers before it waits for them.  The
    statements of [shutdown] up to its loop of [put] never raise and append
    one quit marker per thread to the queue.  With a library open the jobs
    still queued are dropped first, so a worker that reads the queue as the
    driver left it ends at once without rendering; with no library open
    nothing is dropped and the markers follow the jobs that were queued.
    Selection, frame and thumbs stay.  (The waits on the threads that
    follow in [shutdown] are outside this statement.) *)
Theorem shutdown_leaves_markers (lib_close : Library -> Library)
    (threads : nat) (d : QtDriver) :
  result (shutdown_requests lib_close threads) d = Return tt
  /\ thumb_job_queue (exec (shutdown_requests lib_close threads) d)
     = (match library_dir (lib d) with
        | Some _ => []
        | None => thumb_job_queue d
        end ++ repeat MARKER_QUIT threads)%list
  /\ selected (exec (shutdown_requests lib_close threads) d) = selected d
  /\ frame_content (exec (shutdown_requests lib_close threads) d) = frame_content d
  /\ item_thumbs (exec (shutdown_requests lib_close threads) d) = item_thumbs d
  /\ forall call n,
      library_dir (lib d) <> None ->
      threads = S n ->
      Consumer_run call (thumb_job_queue (exec (shutdown_requests lib_close threads) d))
      = mkTrace [] Quit (repeat MARKER_QUIT n).
Proof.
  unfold result, exec. rewrite shutdown_requests_run.
  destruct (library_dir (lib d)) as [dir |]; cbn [fst snd];
    repeat split; try reflexivity.
  - intros call n _ ->. reflexivity.
  - intros call n H. congruence.
Qed.

Lemma shutdown_leaves_markers_witness :
  Consumer_run (fun _ => Return tt)
    (thumb_job_queue
       (exec (shutdown_requests (fun l => l) 4)
          (exec (update_thumbs 0 1) grid_two_entries)))
  = mkTrace [] Quit (repeat MARKER_QUIT 3).
Proof.
  apply (proj2 (proj2 (proj2 (proj2 (proj2
           (shutdown_leaves_markers (fun l => l) 4
              (exec (update_thumbs 0 1) grid_two_entries))))))
           (fun _ => Return tt) 3%nat).
  - discriminate.
  - reflexivity.
Defined.

(** ** Outcome of a search *)

Lemma update_thumbs_result (TAG_ARCHIVED TAG_FAVORITE : Z) (d : QtDriver) :
  snd (update_thumbs TAG_ARCHIVED TAG_FAVORITE d)
  = if (List.length (item_thumbs d) <? List.length (frame_content d))%nat
    then Raise AttributeError
    else match library_dir (lib d), populated_from 0 (frame_content d) with
         | None, _ :: _ => Raise TypeError
         | _, _ => Return tt
         end.
Proof.
  rewrite update_thumbs_exact. cbv zeta.
  destruct (List.length (item_thumbs d) <? List.length (frame_content d))%nat;
    [reflexivity |].
  destruct (library_dir (lib d)); [reflexivity |].
  destruct (populated_from 0 (frame_content d)); reflexivity.
Qed.

(** The state in which [filter_items] calls the refresh. *)
Lemma filter_items_unfold (TAG_ARCHIVED TAG_FAVORITE : Z) (d : QtDriver)
    (new_filter : option FilterState) (dir : string) :
  library_dir (lib d) = Some dir ->
  engine (lib d) = true ->
  exists d2,
    frame_content d2
    = map Some (items (search_library (lib d)
                         match new_filter with Some f => f | None => filter d end))
    /\ filter d2 = match new_filter with Some f => f | None => filter d end
    /\ lib d2 = lib d
    /\ item_thumbs d2 = item_thumbs d
    /\ pages_count d2 = pages_count d
    /\ filter_items TAG_ARCHIVED TAG_FAVORITE new_filter d
       = bind (update_thumbs TAG_ARCHIVED TAG_FAVORITE)
           (fun _ =>
              if page_size match new_filter with Some f => f | None => filter d end =? 0
              then raise ZeroDivisionError
              else modify
                     (with_pages_count
                        (ceil_div
                           (total_count
                              (search_library (lib d)
                                 match new_filter with
                                 | Some f => f
                                 | None => filter d
                                 end))
                           (page_size
                              match new_filter with
                              | Some f => f
                              | None => filter d
                              end))))
           d2.
Proof.
  intros Hdir Heng.
  set (flt := match new_filter with Some f => f | None => filter d end).
  set (d1 := match new_filter with
             | Some f => with_filter f d
             | None => d
             end).
  exists (with_frame_content (map Some (items (search_library (lib d) flt)))
            (with_time_calls (S (S (time_calls d1))) d1)).
  assert (Hflt : filter d1 = flt) by (subst d1 flt; now destruct new_filter).
  cbn [frame_content filter lib item_thumbs pages_count
         with_frame_content with_time_calls].
  split; [reflexivity |]. split; [exact Hflt |].
  split; [subst d1; now destruct new_filter |].
  split; [subst d1; now destruct new_filter |].
  split; [subst d1; now destruct new_filter |].
  unfold filter_items.
  unfold bind at 1. unfold gets at 1. rewrite Hdir, Heng. cbn [negb].
  assert (H1 : (match new_filter with
                | Some f => modify (with_filter f)
                | None => ret tt
                end) d = (d1, Return tt)) by (subst d1; now destruct new_filter).
  rewrite (bind_return _ _ _ _ _ H1).
  unfold bind at 1. unfold gets at 1. rewrite Hflt.
  unfold bind at 1. unfold time_time at 1.
  unfold bind at 1. unfold time_time at 1.
  unfold bind at 1. unfold modify at 1.
  reflexivity.
Qed.

(** X9.  Outcome of a search, for every state and filter.  With no library
    directory it does nothing; with a directory and no engine it stops at
    the assertion with nothing changed.  Otherwise the frame and the filter
    are replaced before anything can fail: more results than thumbs raise
    [AttributeError], a page size of zero raises [ZeroDivisionError], and in
    both cases the page count keeps its former value. *)
Theorem filter_items_outcome (TAG_ARCHIVED TAG_FAVORITE : Z) (d : QtDriver)
    (new_filter : option FilterState) :
  result (filter_items TAG_ARCHIVED TAG_FAVORITE new_filter) d
  = match library_dir (lib d) with
    | None => Return tt
    | Some _ =>
        if negb (engine (lib d)) then Raise AssertionError
        else if (List.length (item_thumbs d)
                 <? List.length
                      (items (search_library (lib d)
                                match new_filter with
                                | Some f => f
                                | None => filter d
                                end)))%nat
        then Raise AttributeError
        else if page_size match new_filter with Some f => f | None => filter d end =? 0
        then Raise ZeroDivisionError
        else Return tt
    end
  /\ (library_dir (lib d) = None \/ engine (lib d) = false ->
      exec (filter_items TAG_ARCHIVED TAG_FAVORITE new_filter) d = d)
  /\ (library_dir (lib d) <> None ->
      engine (lib d) = true ->
      frame_content (exec (filter_items TAG_ARCHIVED TAG_FAVORITE new_filter) d)
      = map Some (items (search_library (lib d)
                           match new_filter with Some f => f | None => filter d end))
      /\ filter (exec (filter_items TAG_ARCHIVED TAG_FAVORITE new_filter) d)
         = match new_filter with Some f => f | None => filter d end
      /\ (result (filter_items TAG_ARCHIVED TAG_FAVORITE new_filter) d <> Return tt ->
          pages_count (exec (filter_items TAG_ARCHIVED TAG_FAVORITE new_filter) d)
          = pages_count d)).
Proof.
  destruct (library_dir (lib d)) as [dir |] eqn:Hdir.
  2:{ assert (Hrun : filter_items TAG_ARCHIVED TAG_FAVORITE new_filter d
                     = (d, Return tt)).
      { unfold filter_items. unfold bind at 1. unfold gets at 1.
        rewrite Hdir. reflexivity. }
      unfold result, exec. rewrite Hrun.
      split; [reflexivity |]. split; [reflexivity |]. intros H. congruence. }
  destruct (engine (lib d)) eqn:Heng.
  2:{ assert (Hrun : filter_items TAG_ARCHIVED TAG_FAVORITE new_filter d
                     = (d, Raise AssertionError)).
      { unfold filter_items. unfold bind at 1. unfold gets at 1.
        rewrite Hdir, Heng. reflexivity. }
      unfold result, exec. rewrite Hrun.
      split; [reflexivity |]. split; [reflexivity |]. intros _ H. discriminate. }
  destruct (filter_items_unfold TAG_ARCHIVED TAG_FAVORITE d new_filter dir Hdir Heng)
    as [d2 [Hfc [Hflt [Hlib [Hts [Hpc Hrun]]]]]].
  pose proof (update_thumbs_result TAG_ARCHIVED TAG_FAVORITE d2) as Hres.
  rewrite Hfc, Hts, Hlib, Hdir, length_map in Hres.
  pose proof (preserves_update_thumbs frame_content TAG_ARCHIVED TAG_FAVORITE
                frame_content_blind d2) as Kfc.
  pose proof (preserves_update_thumbs filter TAG_ARCHIVED TAG_FAVORITE
                filter_blind d2) as Kflt.
  pose proof (preserves_update_thumbs pages_count TAG_ARCHIVED TAG_FAVORITE
                pages_count_blind d2) as Kpc.
  unfold result, exec. rewrite Hrun. unfold bind. cbn [negb].
  destruct (update_thumbs TAG_ARCHIVED TAG_FAVORITE d2) as [d3 [u | e]];
    cbn [fst snd] in *.
  - destruct (List.length (item_thumbs d) <? _)%nat; [discriminate |].
    split; [| split; [intros [H | H]; discriminate |]].
    + destruct (page_size _ =? 0); reflexivity.
    + intros _ _. destruct (page_size _ =? 0); cbn [fst snd raise modify].
      * rewrite Kfc, Kflt, Kpc, Hfc, Hflt, Hpc. auto.
      * cbn [frame_content filter with_pages_count].
        rewrite Kfc, Kflt, Hfc, Hflt.
        split; [reflexivity |]. split; [reflexivity |]. intros H. congruence.
  - split; [| split; [intros [H | H]; discriminate |]].
    + destruct (List.length (item_thumbs d) <? _)%nat; [exact Hres | discriminate].
    + intros _ _. rewrite Kfc, Kflt, Kpc, Hfc, Hflt, Hpc. auto.
Qed.

Lemma filter_items_outcome_witness :
  frame_content
    (exec (filter_items 0 1 None)
       (sample_driver (sample_library [sample_entry 1; sample_entry 2] 2) [] 1 []))
  = map Some [sample_entry 1; sample_entry 2]
  /\ filter
       (exec (filter_items 0 1 None)
          (sample_driver (sample_library [sample_entry 1; sample_entry 2] 2) [] 1 []))
     = mkFilter 0 10 EmptyString
  /\ (result (filter_items 0 1 None)
        (sample_driver (sample_library [sample_entry 1; sample_entry 2] 2) [] 1 [])
      <> Return tt ->
      pages_count
        (exec (filter_items 0 1 None)
           (sample_driver (sample_library [sample_entry 1; sample_entry 2] 2) [] 1 []))
      = 0).
Proof.
  apply (proj2 (proj2 (filter_items_outcome 0 1
                         (sample_driver
                            (sample_library [sample_entry 1; sample_entry 2] 2) [] 1 [])
                         None))).
  - discriminate.
  - reflexivity.
Defined.

(** ** The grid keeps its size *)

Lemma length_mark_only (i : Z) (ts : list ItemThumb) :
  forall s, List.length (mark_only i s ts) = List.length ts.
Proof. induction ts as [| t r IH]; intros s; simpl; auto. Qed.

Lemma count_set_thumb_selected (i : Z) (b : bool) :
  preserves thumb_count (set_thumb_selected i b).
Proof.
  intros d. unfold set_thumb_selected, bind, gets.
  destruct (py_index (List.length (item_thumbs d)) i) as [n |]; [| reflexivity].
  destruct (nth_error (item_thumbs d) n); [| reflexivity].
  unfold thumb_count. simpl. apply length_list_set.
Qed.

Lemma count_on_thumb (k : nat) (p : option ItemThumb) (f : ItemThumb -> ItemThumb) :
  preserves thumb_count (on_thumb k p f).
Proof.
  intros d. unfold on_thumb. destruct p; [| reflexivity].
  unfold bind, gets. destruct (nth_error (item_thumbs d) k); [| reflexivity].
  unfold thumb_count. simpl. apply length_list_set.
Qed.

Lemma count_set_macro_menu_viability : preserves thumb_count set_macro_menu_viability.
Proof. intros d. reflexivity. Qed.

Lemma count_put (item : queue_item) : preserves thumb_count (put item).
Proof. intros d. reflexivity. Qed.

Lemma count_time_time : preserves thumb_count time_time.
Proof. intros d. reflexivity. Qed.

Create HintDb count.
#[export] Hint Resolve preserves_ret preserves_raise preserves_gets
  count_set_thumb_selected count_on_thumb count_set_macro_menu_viability
  count_put count_time_time : count.

(** Discharges [preserves thumb_count m] by following the structure of [m]. *)
Ltac count :=
  repeat first
    [ solve [auto with count]
    | apply preserves_modify; reflexivity
    | apply preserves_modify; intros ?; unfold thumb_count; simpl;
      first [apply length_map | apply length_mark_only | apply length_list_set]
    | apply preserves_bind; [| intros ?]
    | apply preserves_for_each; intros ?
    | apply preserves_for_enumerate; intros ? ?
    | match goal with
      | |- preserves _ (match ?x with _ => _ end) => destruct x
      | |- preserves _ (if ?x then _ else _) => destruct x
      end ].

Lemma count_select_item (i : Z) (append bridge : bool) :
  preserves thumb_count (select_item i append bridge).
Proof. unfold select_item. count. Qed.

Lemma count_update_thumbs ta tf : preserves thumb_count (update_thumbs ta tf).
Proof. unfold update_thumbs, cancel_thumb_jobs, show_placeholder, show_rendered. count. Qed.

Lemma count_filter_items ta tf new_filter :
  preserves thumb_count (filter_items ta tf new_filter).
Proof.
  pose proof (count_update_thumbs ta tf). unfold filter_items. count.
Qed.

Lemma count_page_move ta tf delta page_id :
  preserves thumb_count (page_move ta tf delta page_id).
Proof.
  pose proof (count_filter_items ta tf None). unfold page_move. count.
Qed.

Lemma count_close_library lib_close is_shutdown :
  preserves thumb_count (close_library lib_close is_shutdown).
Proof. unfold close_library. count. Qed.

Lemma grow_grid (new : Z -> ItemThumb) (l : list Z) :
  forall d,
    for_each l
      (fun grid_idx =>
         modify (fun d => with_item_thumbs (item_thumbs d ++ [new grid_idx]) d)) d
    = (with_item_thumbs (item_thumbs d ++ map new l) d, Return tt).
Proof.
  induction l as [| x r IH]; intros d; cbn [for_each map].
  - rewrite app_nil_r. unfold ret. now rewrite with_item_thumbs_same.
  - unfold bind at 1. unfold modify at 1. rewrite IH.
    cbn [item_thumbs with_item_thumbs]. rewrite <- app_assoc. reflexivity.
Qed.

(** X10.  The grid is built once and never resized.  [_init_thumb_grid],
    the only writer of the length of [item_thumbs], returns and appends one
    thumb per grid index below the page size of the filter, leaving the
    thumbs already there in place.  None of the other methods modelled here
    adds or removes a thumb, whether it returns or raises: the clicks,
    select all, clear selection, [remove_grid_item], the refresh, the
    search, the page moves, the thumbnail size, [close_library], the
    requests of [shutdown], and [init_library], which sets the page size of
    the filter and leaves the grid as it was built. *)
Theorem thumb_count_invariant (TAG_ARCHIVED TAG_FAVORITE : Z)
    (lib_close : Library -> Library) (ItemThumb_new : Z -> ItemThumb) :
  (forall d,
      result (_init_thumb_grid ItemThumb_new) d = Return tt
      /\ item_thumbs (exec (_init_thumb_grid ItemThumb_new) d)
         = (item_thumbs d
            ++ map ItemThumb_new (py_range 0 (page_size (filter d))))%list
      /\ thumb_count (exec (_init_thumb_grid ItemThumb_new) d)
         = (thumb_count d + Z.to_nat (page_size (filter d)))%nat)
  /\ (forall i append bridge, preserves thumb_count (select_item i append bridge))
  /\ preserves thumb_count select_all_action_callback
  /\ preserves thumb_count clear_select_action_callback
  /\ (forall i, preserves thumb_count (remove_grid_item i))
  /\ preserves thumb_count (update_thumbs TAG_ARCHIVED TAG_FAVORITE)
  /\ (forall f, preserves thumb_count (filter_items TAG_ARCHIVED TAG_FAVORITE f))
  /\ (forall delta page_id,
        preserves thumb_count (page_move TAG_ARCHIVED TAG_FAVORITE delta page_id))
  /\ (forall button,
        preserves thumb_count (mouse_navigation TAG_ARCHIVED TAG_FAVORITE button))
  /\ (forall index,
        preserves thumb_count (thumb_size_callback TAG_ARCHIVED TAG_FAVORITE index))
  /\ (forall b, preserves thumb_count (close_library lib_close b))
  /\ (forall n, preserves thumb_count (shutdown_requests lib_close n))
  /\ (forall success pref,
        preserves thumb_count (init_library TAG_ARCHIVED TAG_FAVORITE success pref)).
Proof.
  pose proof (count_update_thumbs TAG_ARCHIVED TAG_FAVORITE) as Hu.
  pose proof (count_filter_items TAG_ARCHIVED TAG_FAVORITE) as Hf.
  pose proof (count_page_move TAG_ARCHIVED TAG_FAVORITE) as Hp.
  pose proof (count_close_library lib_close) as Hc.
  split.
  { intros d. unfold result, exec, _init_thumb_grid.
    unfold bind at 1 2 3. unfold gets at 1 2 3. rewrite grow_grid. cbn [fst snd].
    split; [reflexivity |]. split; [reflexivity |].
    unfold thumb_count. cbn [item_thumbs with_item_thumbs].
    rewrite length_app, length_map. unfold py_range.
    rewrite length_map, length_seq. f_equal. f_equal. lia. }
  repeat split; intros.
  - apply count_select_item.
  - unfold select_all_action_callback. count.
  - unfold clear_select_action_callback. count.
  - intros d. unfold remove_grid_item, bind, gets, modify.
    destruct (py_index (List.length (frame_content d)) i); [| reflexivity].
    cbn [item_thumbs with_frame_content].
    destruct (py_index (List.length (item_thumbs d)) i) as [k |]; [| reflexivity].
    destruct (nth_error (item_thumbs d) k); [| reflexivity].
    unfold thumb_count. simpl. apply length_list_set.
  - exact Hu.
  - apply Hf.
  - apply Hp.
  - unfold mouse_navigation. destruct button; auto with count.
  - unfold thumb_size_callback. count.
  - apply Hc.
  - unfold shutdown_requests. count.
  - unfold init_library. count.
Qed.

(** A grid built for pages of 3 and a library whose preferences ask for
    pages of 10: the grid keeps its 3 thumbs through [init_library]. *)
Example grid_built_before_library :
  thumb_count
    (exec (init_library 0 1 true 10)
       (exec (_init_thumb_grid (fun _ => blank_thumb))
          (with_filter (mkFilter 0 3 EmptyString)
             (sample_driver (sample_library [sample_entry 1] 1) [] 0 [])))) = 3%nat
  /\ page_size
       (filter
          (exec (init_library 0 1 true 10)
             (exec (_init_thumb_grid (fun _ => blank_thumb))
                (with_filter (mkFilter 0 3 EmptyString)
                   (sample_driver (sample_library [sample_entry 1] 1) [] 0 []))))) = 10.
Proof. split; reflexivity. Qed.

(** ** Going through the pages *)

Lemma filter_items_lib ta tf new_filter : preserves lib (filter_items ta tf new_filter).
Proof. unfold filter_items. frame. Qed.

Lemma filter_set_page_index_same (f : FilterState) :
  filter_set_page_index (page_index f) f = f.
Proof. destruct f; reflexivity. Qed.

(** A page move in a settled state returns, stores the clamped index,
    shows the results of that page and leaves a settled state. *)
Lemma page_move_settled (TAG_ARCHIVED TAG_FAVORITE : Z) (d : QtDriver) (delta : Z) :
  pages_settled d ->
  result (page_move TAG_ARCHIVED TAG_FAVORITE (Some delta) None) d = Return tt
  /\ filter (exec (page_move TAG_ARCHIVED TAG_FAVORITE (Some delta) None) d)
     = filter_set_page_index
         (Z.max 0 (Z.min (page_index (filter d) + delta) (pages_count d - 1)))
         (filter d)
  /\ frame_content (exec (page_move TAG_ARCHIVED TAG_FAVORITE (Some delta) None) d)
     = map Some
         (items (search_library (lib d)
                   (filter_set_page_index
                      (Z.max 0 (Z.min (page_index (filter d) + delta)
                                  (pages_count d - 1)))
                      (filter d))))
  /\ lib (exec (page_move TAG_ARCHIVED TAG_FAVORITE (Some delta) None) d) = lib d
  /\ pages_count (exec (page_move TAG_ARCHIVED TAG_FAVORITE (Some delta) None) d)
     = pages_count d
  /\ pages_settled (exec (page_move TAG_ARCHIVED TAG_FAVORITE (Some delta) None) d).
Proof.
  intros [Hdir [Heng [Hps Hpages]]].
  destruct (library_dir (lib d)) as [dir |] eqn:Edir; [clear Hdir | congruence].
  set (i := Z.max 0 (Z.min (page_index (filter d) + delta) (pages_count d - 1))).
  assert (Hi : 0 <= i <= Z.max 0 (pages_count d - 1)) by (unfold i; lia).
  destruct (Hpages i Hi) as [Hfit Hpc].
  set (f' := filter_set_page_index i (filter d)) in *.
  set (d1 := with_filter f' d).
  assert (Hrun : page_move TAG_ARCHIVED TAG_FAVORITE (Some delta) None d
                 = filter_items TAG_ARCHIVED TAG_FAVORITE None d1).
  { unfold page_move. unfold bind at 1. unfold gets at 1.
    unfold bind at 1. unfold gets at 1.
    unfold bind at 1. unfold modify at 1. reflexivity. }
  destruct (filter_items_run TAG_ARCHIVED TAG_FAVORITE d1 None dir Edir Heng Hps Hfit)
    as [Hr [Hfc [Hflt Hcount]]].
  pose proof (filter_items_lib TAG_ARCHIVED TAG_FAVORITE None d1) as Hlib.
  pose proof (count_filter_items TAG_ARCHIVED TAG_FAVORITE None d1) as Hcnt.
  unfold result, exec in *. rewrite Hrun.
  cbn [filter lib pages_count with_filter d1] in Hfc, Hflt, Hcount, Hlib, Hcnt.
  change (thumb_count d1) with (thumb_count d) in Hcnt.
  assert (Hpc' : pages_count (fst (filter_items TAG_ARCHIVED TAG_FAVORITE None d1))
                 = pages_count d).
  { rewrite Hcount. exact Hpc. }
  split; [exact Hr |]. split; [exact Hflt |]. split; [exact Hfc |].
  split; [exact Hlib |]. split; [exact Hpc' |].
  unfold pages_settled. rewrite Hlib, Hflt, Hcnt, Hpc', Edir.
  split; [discriminate |]. split; [exact Heng |]. split; [exact Hps |].
  exact Hpages.
Qed.

(** X11.  Mouse navigation through the pages of a settled library (open,
    every page of the present query fitting the grid and giving the page
    count the driver holds).  The forward and back buttons return and leave
    a settled state.  Unless the last page is shown, the forward button
    moves the filter to the next page and shows the results of that page,
    and the back button pressed after it restores the filter and shows the
    results of the first page again.  The forward button on the last page
    and the back button on page 0 keep the filter as it is. *)
Theorem mouse_navigation_round_trip (TAG_ARCHIVED TAG_FAVORITE : Z) (d : QtDriver) :
  pages_settled d ->
  (forall button,
      result (mouse_navigation TAG_ARCHIVED TAG_FAVORITE button) d = Return tt
      /\ pages_settled (exec (mouse_navigation TAG_ARCHIVED TAG_FAVORITE button) d))
  /\ (0 <= page_index (filter d) ->
      page_index (filter d) + 1 < pages_count d ->
      filter (exec (mouse_navigation TAG_ARCHIVED TAG_FAVORITE ForwardButton) d)
      = filter_set_page_index (page_index (filter d) + 1) (filter d)
      /\ frame_content (exec (mouse_navigation TAG_ARCHIVED TAG_FAVORITE ForwardButton) d)
         = map Some
             (items (search_library (lib d)
                       (filter_set_page_index (page_index (filter d) + 1) (filter d))))
      /\ filter (exec (mouse_navigation TAG_ARCHIVED TAG_FAVORITE BackButton)
                   (exec (mouse_navigation TAG_ARCHIVED TAG_FAVORITE ForwardButton) d))
         = filter d
      /\ frame_content
           (exec (mouse_navigation TAG_ARCHIVED TAG_FAVORITE BackButton)
              (exec (mouse_navigation TAG_ARCHIVED TAG_FAVORITE ForwardButton) d))
         = map Some (items (search_library (lib d) (filter d))))
  /\ (1 <= pages_count d ->
      page_index (filter d) = pages_count d - 1 ->
      filter (exec (mouse_navigation TAG_ARCHIVED TAG_FAVORITE ForwardButton) d)
      = filter d)
  /\ (page_index (filter d) = 0 ->
      filter (exec (mouse_navigation TAG_ARCHIVED TAG_FAVORITE BackButton) d)
      = filter d).
Proof.
  intros Hs.
  pose proof (page_move_settled TAG_ARCHIVED TAG_FAVORITE d 1 Hs)
    as [Hfr [Hff [Hfc [Hfl [Hfp Hfs]]]]].
  pose proof (page_move_settled TAG_ARCHIVED TAG_FAVORITE d (-1) Hs)
    as [Hbr [Hbf [_ [_ [Hbp Hbs]]]]].
  split; [| split; [| split]].
  - intros [| |]; unfold mouse_navigation; auto.
  - intros H0 Hlast. unfold mouse_navigation.
    destruct (page_move_settled TAG_ARCHIVED TAG_FAVORITE
                (exec (page_move TAG_ARCHIVED TAG_FAVORITE (Some 1) None) d) (-1) Hfs)
      as [_ [Hf2 [Hc2 _]]].
    rewrite Hc2, Hf2, Hfc, Hfl, Hfp, Hff.
    cbn [page_index filter_set_page_index page_size query].
    replace (Z.max 0 (Z.min (page_index (filter d) + 1) (pages_count d - 1)))
      with (page_index (filter d) + 1) by lia.
    replace (Z.max 0 (Z.min (page_index (filter d) + 1 + -1) (pages_count d - 1)))
      with (page_index (filter d)) by lia.
    assert (E : filter_set_page_index (page_index (filter d))
                  (filter_set_page_index (page_index (filter d) + 1) (filter d))
                = filter d) by (destruct (filter d); reflexivity).
    rewrite E. auto.
  - intros H1 Hlast. unfold mouse_navigation. rewrite Hff.
    replace (Z.max 0 (Z.min (page_index (filter d) + 1) (pages_count d - 1)))
      with (page_index (filter d)) by lia.
    apply filter_set_page_index_same.
  - intros H0. unfold mouse_navigation. rewrite Hbf.
    replace (Z.max 0 (Z.min (page_index (filter d) + -1) (pages_count d - 1)))
      with (page_index (filter d)) by lia.
    apply filter_set_page_index_same.
Qed.

Lemma mouse_navigation_round_trip_witness :
  filter (exec (mouse_navigation 0 1 ForwardButton)
            (exec (filter_items 0 1 None) library_of_23))
  = filter_set_page_index 1 (filter (exec (filter_items 0 1 None) library_of_23))
  /\ frame_content (exec (mouse_navigation 0 1 ForwardButton)
                      (exec (filter_items 0 1 None) library_of_23))
     = map Some
         (items (search_library (lib (exec (filter_items 0 1 None) library_of_23))
                   (filter_set_page_index 1
                      (filter (exec (filter_items 0 1 None) library_of_23)))))
  /\ filter (exec (mouse_navigation 0 1 BackButton)
               (exec (mouse_navigation 0 1 ForwardButton)
                  (exec (filter_items 0 1 None) library_of_23)))
     = filter (exec (filter_items 0 1 None) library_of_23)
  /\ frame_content
       (exec (mouse_navigation 0 1 BackButton)
          (exec (mouse_navigation 0 1 ForwardButton)
             (exec (filter_items 0 1 None) library_of_23)))
     = map Some
         (items (search_library (lib (exec (filter_items 0 1 None) library_of_23))
                   (filter (exec (filter_items 0 1 None) library_of_23)))).
Proof.
  refine (proj1 (proj2 (mouse_navigation_round_trip 0 1
                          (exec (filter_items 0 1 None) library_of_23) _)) _ _).
  - unfold pages_settled. split; [vm_compute; discriminate |].
    split; [reflexivity |]. split; [vm_compute; discriminate |].
    intros i _. split; [vm_compute; lia | reflexivity].
  - vm_compute. discriminate.
  - vm_compute. reflexivity.
Defined.

(** ** The size of the thumbnails *)

Lemma thumb_size_blind : display_blind thumb_size.
Proof. constructor; reflexivity. Qed.

Lemma rendered_jobs_size (size : Z * Z) (ratio : Q) (dir : string) (clk : nat -> N)
    (slots : list (nat * Entry)) :
  forall c j, In j (rendered_jobs size ratio dir clk c slots) -> job_size j = size.
Proof.
  induction slots as [| [k e] r IH]; intros c j; simpl; [intros [] |].
  intros [<- | [<- | H]]; [reflexivity | reflexivity | eapply IH; exact H].
Qed.

(** Every job a refresh leaves in the queue asks for the size of the
    driver. *)
Lemma update_thumbs_job_sizes (TAG_ARCHIVED TAG_FAVORITE : Z) (d : QtDriver)
    (j : RenderJob) :
  In (Job j) (thumb_job_queue (fst (update_thumbs TAG_ARCHIVED TAG_FAVORITE d))) ->
  job_size j = (thumb_size d, thumb_size d).
Proof.
  rewrite update_thumbs_exact. cbv zeta.
  assert (Hp : forall k fc,
             In (Job j)
               (map (fun p : nat * Entry =>
                       Job (placeholder_job (thumb_size d, thumb_size d)
                              (device_pixel_ratio d) (fst p)))
                  (populated_from k fc)) ->
             job_size j = (thumb_size d, thumb_size d)).
  { intros k fc H. apply in_map_iff in H. destruct H as [p [[= <-] _]]. reflexivity. }
  destruct (List.length (item_thumbs d) <? List.length (frame_content d))%nat;
    cbn [fst thumb_job_queue with_queue with_time_calls]; [apply Hp |].
  destruct (library_dir (lib d)) as [dir |];
    cbn [fst thumb_job_queue with_queue with_time_calls]; [| apply Hp].
  intros H. apply in_app_or in H. destruct H as [H | H]; [eapply Hp; exact H |].
  apply in_map_iff in H. destruct H as [j' [[= <-] H]].
  eapply rendered_jobs_size; exact H.
Qed.

Lemma thumb_size_callback_run (TAG_ARCHIVED TAG_FAVORITE : Z) (index : Z) (d : QtDriver) :
  thumb_size_callback TAG_ARCHIVED TAG_FAVORITE index d
  = update_thumbs TAG_ARCHIVED TAG_FAVORITE
      (with_thumb_size
         (if 0 <=? index then nth (Z.to_nat index) (map snd thumb_sizes) 128 else 128)
         d).
Proof.
  unfold thumb_size_callback. unfold bind at 1.
  destruct (Z.ltb_spec index (Z.of_nat (List.length thumb_sizes))) as [Hlt | Hge];
    destruct (Z.geb_spec index 0) as [H0 | H0]; cbn [andb].
  - replace (0 <=? index) with true by (symmetry; apply Z.leb_le; lia).
    simpl in Hlt.
    assert (Hi : index = 0 \/ index = 1 \/ index = 2 \/ index = 3 \/ index = 4) by lia.
    destruct Hi as [-> | [-> | [-> | [-> | ->]]]]; reflexivity.
  - replace (0 <=? index) with false by (symmetry; apply Z.leb_gt; lia).
    reflexivity.
  - replace (0 <=? index) with true by (symmetry; apply Z.leb_le; lia).
    simpl in Hge. rewrite nth_overflow by (simpl; lia). reflexivity.
  - replace (0 <=? index) with false by (symmetry; apply Z.leb_gt; lia).
    reflexivity.
Qed.

(** X12.  Choosing a thumbnail size: an index of the size table gives the
    size at that index, any other index, negative ones included, gives 128.
    The refresh that follows ends as a refresh of the state before would,
    every job it queues asks for the new size, and selection, frame and
    filter are untouched. *)
Theorem thumb_size_callback_sets_size (TAG_ARCHIVED TAG_FAVORITE : Z)
    (index : Z) (d : QtDriver) :
  thumb_size (exec (thumb_size_callback TAG_ARCHIVED TAG_FAVORITE index) d)
  = (if 0 <=? index then nth (Z.to_nat index) [256; 192; 128; 96; 76] 128 else 128)
  /\ result (thumb_size_callback TAG_ARCHIVED TAG_FAVORITE index) d
     = result (update_thumbs TAG_ARCHIVED TAG_FAVORITE) d
  /\ (forall j,
        In (Job j)
          (thumb_job_queue (exec (thumb_size_callback TAG_ARCHIVED TAG_FAVORITE index) d)) ->
        job_size j
        = (thumb_size (exec (thumb_size_callback TAG_ARCHIVED TAG_FAVORITE index) d),
           thumb_size (exec (thumb_size_callback TAG_ARCHIVED TAG_FAVORITE index) d)))
  /\ selected (exec (thumb_size_callback TAG_ARCHIVED TAG_FAVORITE index) d) = selected d
  /\ frame_content (exec (thumb_size_callback TAG_ARCHIVED TAG_FAVORITE index) d)
     = frame_content d
  /\ filter (exec (thumb_size_callback TAG_ARCHIVED TAG_FAVORITE index) d) = filter d.
Proof.
  unfold exec, result. rewrite thumb_size_callback_run.
  set (s := if 0 <=? index then nth (Z.to_nat index) (map snd thumb_sizes) 128 else 128).
  rewrite (preserves_update_thumbs thumb_size _ _ thumb_size_blind).
  rewrite (preserves_update_thumbs selected _ _ selected_blind).
  rewrite (preserves_update_thumbs frame_content _ _ frame_content_blind).
  rewrite (preserves_update_thumbs filter _ _ filter_blind).
  split; [reflexivity |]. split.
  { rewrite !update_thumbs_result. reflexivity. }
  split; [| repeat split].
  intros j Hj. apply update_thumbs_job_sizes in Hj. rewrite Hj.
  now rewrite (preserves_update_thumbs thumb_size TAG_ARCHIVED TAG_FAVORITE
                 thumb_size_blind (with_thumb_size s d)).
Qed.

Lemma thumb_size_callback_sets_size_witness :
  job_size (placeholder_job (128, 128) (1 # 1)%Q 0)
  = (thumb_size (exec (thumb_size_callback 0 1 (-1)) grid_two_entries),
     thumb_size (exec (thumb_size_callback 0 1 (-1)) grid_two_entries)).
Proof.
  apply (proj1 (proj2 (proj2 (thumb_size_callback_sets_size 0 1 (-1) grid_two_entries)))).
  vm_compute. left. reflexivity.
Defined.

(** ** Emptied slots *)

Lemma rendered_jobs_slot (size : Z * Z) (ratio : Q) (dir : string) (clk : nat -> N)
    (slots : list (nat * Entry)) :
  forall c j, In j (rendered_jobs size ratio dir clk c slots) ->
              exists e, In (job_slot j, e) slots.
Proof.
  induction slots as [| [k e] r IH]; intros c j; simpl; [intros [] |].
  intros [<- | [<- | H]]; [exists e; now left | exists e; now left |].
  destruct (IH _ _ H) as [e' He']. exists e'. now right.
Qed.

(** A refresh queues jobs for populated slots only, whether it returns or
    raises. *)
Lemma update_thumbs_job_slots (TAG_ARCHIVED TAG_FAVORITE : Z) (d : QtDriver)
    (j : RenderJob) :
  In (Job j) (thumb_job_queue (fst (update_thumbs TAG_ARCHIVED TAG_FAVORITE d))) ->
  exists e, nth_error (frame_content d) (job_slot j) = Some (Some e).
Proof.
  rewrite update_thumbs_exact. cbv zeta.
  assert (Hs : forall fc e, In (job_slot j, e) (populated_from 0 fc) ->
                            nth_error fc (job_slot j) = Some (Some e)).
  { intros fc e H. apply populated_from_spec in H. destruct H as [_ H].
    now rewrite Nat.sub_0_r in H. }
  assert (Hp : forall fc,
             In (Job j)
               (map (fun p : nat * Entry =>
                       Job (placeholder_job (thumb_size d, thumb_size d)
                              (device_pixel_ratio d) (fst p)))
                  (populated_from 0 fc)) ->
             exists e, nth_error fc (job_slot j) = Some (Some e)).
  { intros fc H. apply in_map_iff in H. destruct H as [[k e] [[= <-] H]].
    exists e. now apply Hs. }
  assert (Hp' : In (Job j)
                  (map (fun p : nat * Entry =>
                          Job (placeholder_job (thumb_size d, thumb_size d)
                                 (device_pixel_ratio d) (fst p)))
                     (populated_from 0
                        (firstn (List.length (item_thumbs d)) (frame_content d)))) ->
                exists e, nth_error (frame_content d) (job_slot j) = Some (Some e)).
  { intros H. destruct (Hp _ H) as [e He]. exists e.
    rewrite nth_error_firstn in He.
    destruct (job_slot j <? List.length (item_thumbs d))%nat; [exact He | discriminate]. }
  destruct (List.length (item_thumbs d) <? List.length (frame_content d))%nat;
    cbn [fst thumb_job_queue with_queue with_time_calls].
  - exact Hp'.
  - destruct (library_dir (lib d)) as [dir |];
      cbn [fst thumb_job_queue with_queue with_time_calls]; [| exact Hp'].
    intros H. apply in_app_or in H. destruct H as [H | H]; [now apply Hp |].
    apply in_map_iff in H. destruct H as [j' [[= <-] H]].
    apply rendered_jobs_slot in H. destruct H as [e He]. exists e. now apply Hs.
Qed.

Lemma jobs_for_slot_none (k : nat) (q : list queue_item) :
  (forall j, In (Job j) q -> job_slot j <> k) -> jobs_for_slot k q = [].
Proof.
  induction q as [| item r IH]; intros H; [reflexivity |].
  unfold jobs_for_slot. cbn [flat_map]. fold (jobs_for_slot k r).
  rewrite IH by (intros j Hj; apply H; now right).
  destruct item as [| j]; [reflexivity |].
  destruct (Nat.eqb_spec (job_slot j) k) as [E | _]; [| reflexivity].
  exfalso. apply (H j); [now left | exact E].
Qed.

(** X13.  Removing an item of the grid: for a position inside the frame
    and the grid the method returns, empties that slot alone, hides its
    thumb and leaves the selection as it was, the removed index included.
    The next refresh queues no job for the emptied slot and leaves its
    thumb hidden. *)
Theorem remove_grid_item_then_refresh (TAG_ARCHIVED TAG_FAVORITE : Z)
    (d : QtDriver) (n : nat) (t : ItemThumb) :
  (n < List.length (frame_content d))%nat ->
  nth_error (item_thumbs d) n = Some t ->
  result (remove_grid_item (Z.of_nat n)) d = Return tt
  /\ frame_content (exec (remove_grid_item (Z.of_nat n)) d)
     = list_set (frame_content d) n None
  /\ item_thumbs (exec (remove_grid_item (Z.of_nat n)) d)
     = list_set (item_thumbs d) n (thumb_set_visible false t)
  /\ selected (exec (remove_grid_item (Z.of_nat n)) d) = selected d
  /\ jobs_for_slot n
       (thumb_job_queue
          (exec (update_thumbs TAG_ARCHIVED TAG_FAVORITE)
             (exec (remove_grid_item (Z.of_nat n)) d))) = []
  /\ (result (update_thumbs TAG_ARCHIVED TAG_FAVORITE)
        (exec (remove_grid_item (Z.of_nat n)) d) = Return tt ->
      nth_error
        (item_thumbs
           (exec (update_thumbs TAG_ARCHIVED TAG_FAVORITE)
              (exec (remove_grid_item (Z.of_nat n)) d))) n
      = Some (thumb_set_visible false t)).
Proof.
  intros Hn Ht.
  assert (Hrun : remove_grid_item (Z.of_nat n) d
                 = (with_item_thumbs
                      (list_set (item_thumbs d) n (thumb_set_visible false t))
                      (with_frame_content (list_set (frame_content d) n None) d),
                    Return tt)).
  { unfold remove_grid_item. unfold bind at 1. unfold gets at 1.
    rewrite (py_index_nat _ _ Hn).
    unfold bind at 1. unfold modify at 1.
    unfold bind at 1. unfold gets at 1.
    cbn [item_thumbs with_frame_content].
    rewrite py_index_nat by (apply nth_error_Some; congruence).
    rewrite Ht. reflexivity. }
  unfold exec at 1 2 3 4, result at 1. rewrite Hrun. cbn [fst snd].
  split; [reflexivity |]. split; [reflexivity |]. split; [reflexivity |].
  split; [reflexivity |].
  set (d' := exec (remove_grid_item (Z.of_nat n)) d).
  assert (Hfc : nth_error (frame_content d') n = Some None).
  { unfold d', exec. rewrite Hrun. cbn [fst frame_content with_item_thumbs with_frame_content].
    destruct (nth_error_in_range (frame_content d) n Hn) as [x Hx].
    apply (nth_error_list_set_eq _ _ _ _ Hx). }
  assert (Hts : nth_error (item_thumbs d') n = Some (thumb_set_visible false t)).
  { unfold d', exec. rewrite Hrun. cbn [fst item_thumbs with_item_thumbs].
    apply (nth_error_list_set_eq _ _ _ _ Ht). }
  split.
  - apply jobs_for_slot_none. intros j Hin E.
    apply update_thumbs_job_slots in Hin. destruct Hin as [e He].
    rewrite E in He. congruence.
  - intros Hres. unfold exec, result in *.
    rewrite update_thumbs_exact in *. cbv zeta in *.
    destruct (List.length (item_thumbs d') <? List.length (frame_content d'))%nat;
      [discriminate |].
    assert (Hslot : slot_entry (frame_content d') n = None)
      by (unfold slot_entry; now rewrite Hfc).
    destruct (library_dir (lib d')); cbn [fst item_thumbs with_item_thumbs
                                            with_queue with_time_calls];
      rewrite nth_error_map_slots, Hslot, Hts; reflexivity.
Qed.

Lemma remove_grid_item_then_refresh_witness :
  result (remove_grid_item (Z.of_nat 1)) grid_two_entries = Return tt
  /\ frame_content (exec (remove_grid_item (Z.of_nat 1)) grid_two_entries)
     = list_set (frame_content grid_two_entries) 1 None
  /\ item_thumbs (exec (remove_grid_item (Z.of_nat 1)) grid_two_entries)
     = list_set (item_thumbs grid_two_entries) 1 (thumb_set_visible false blank_thumb)
  /\ selected (exec (remove_grid_item (Z.of_nat 1)) grid_two_entries)
     = selected grid_two_entries
  /\ jobs_for_slot 1
       (thumb_job_queue
          (exec (update_thumbs 0 1)
             (exec (remove_grid_item (Z.of_nat 1)) grid_two_entries))) = []
  /\ (result (update_thumbs 0 1)
        (exec (remove_grid_item (Z.of_nat 1)) grid_two_entries) = Return tt ->
      nth_error
        (item_thumbs
           (exec (update_thumbs 0 1)
              (exec (remove_grid_item (Z.of_nat 1)) grid_two_entries))) 1
      = Some (thumb_set_visible false blank_thumb)).
Proof.
  apply (remove_grid_item_then_refresh 0 1 grid_two_entries 1 blank_thumb).
  - simpl. lia.
  - reflexivity.
Defined.

(** ** Opening a library *)

Lemma init_library_run (TAG_ARCHIVED TAG_FAVORITE : Z) (pref : Z) (d : QtDriver) :
  init_library TAG_ARCHIVED TAG_FAVORITE true pref d
  = filter_items TAG_ARCHIVED TAG_FAVORITE None
      (with_selected [] (with_filter (filter_set_page_size pref (filter d)) d)).
Proof.
  unfold init_library. cbn [negb].
  unfold bind at 1. unfold modify at 1.
  unfold bind at 1. unfold modify at 1. reflexivity.
Qed.

(** X14.  Opening a library.  After a failed open the driver is as before.
    After a successful one the selection is empty and the filter has the
    page size of the library preferences, with the page index and the query
    of the library shown before, whether or not the search then returns;
    with a directory and an engine the frame holds what the search for that
    filter found. *)
Theorem init_library_resets (TAG_ARCHIVED TAG_FAVORITE : Z) (pref : Z) (d : QtDriver) :
  init_library TAG_ARCHIVED TAG_FAVORITE false pref d = (d, Return tt)
  /\ selected (exec (init_library TAG_ARCHIVED TAG_FAVORITE true pref) d) = []
  /\ filter (exec (init_library TAG_ARCHIVED TAG_FAVORITE true pref) d)
     = mkFilter (page_index (filter d)) pref (query (filter d))
  /\ (library_dir (lib d) <> None ->
      engine (lib d) = true ->
      frame_content (exec (init_library TAG_ARCHIVED TAG_FAVORITE true pref) d)
      = map Some
          (items (search_library (lib d)
                    (mkFilter (page_index (filter d)) pref (query (filter d)))))).
Proof.
  split; [reflexivity |].
  unfold exec. rewrite init_library_run.
  set (d0 := with_selected [] (with_filter (filter_set_page_size pref (filter d)) d)).
  split; [apply (filter_items_selected TAG_ARCHIVED TAG_FAVORITE None d0) |].
  split.
  - apply (filter_items_keeps_filter TAG_ARCHIVED TAG_FAVORITE d0).
  - intros Hdir Heng.
    destruct (library_dir (lib d)) as [dir |] eqn:Edir; [clear Hdir | congruence].
    destruct (filter_items_unfold TAG_ARCHIVED TAG_FAVORITE d0 None dir Edir Heng)
      as [d2 [Hfc [_ [_ [_ [_ Hrun]]]]]].
    rewrite Hrun.
    rewrite bind_tail
      by (intros ?; destruct (page_size (filter d0) =? 0);
          [apply preserves_raise | apply preserves_modify; reflexivity]).
    rewrite (preserves_update_thumbs frame_content _ _ frame_content_blind d2).
    exact Hfc.
Qed.

Lemma init_library_resets_witness :
  frame_content (exec (init_library 0 1 true 7) library_of_23)
  = map Some
      (items (search_library (lib library_of_23)
                (mkFilter (page_index (filter library_of_23)) 7
                   (query (filter library_of_23))))).
Proof.
  apply (proj2 (proj2 (proj2 (init_library_resets 0 1 7 library_of_23)))).
  - discriminate.
  - reflexivity.
Defined.

(** ** Where the recent libraries come from *)

Lemma assign_lookup (k v v' : string) (d : list (string * string)) :
  NoDup (map fst d) -> In (k, v') (assign k v d) -> v' = v.
Proof.
  induction d as [| [k0 w] r IH]; simpl; intros Hnd Hin.
  - destruct Hin as [[= <-] | []]. reflexivity.
  - inversion Hnd as [| ? ? Hk0 Hr]; subst.
    destruct (String.eqb_spec k0 k) as [-> | Hne].
    + destruct Hin as [[= <-] | Hin]; [reflexivity |].
      exfalso. apply Hk0. apply (in_map fst) in Hin. exact Hin.
    + destruct Hin as [[= E _] | Hin]; [congruence | now apply IH].
Qed.

Section RecentLibrariesOrigin.

Variable Path_eqb : string -> string -> bool.
Variable Path_str : string -> string.
Variables now path : string.
Variable settings : settings_group.

(** Every item of the dict is the one made for the opened path or a stored
    key with its stored value, of another path. *)
Lemma collect_libs_origin (keys : list string) :
  forall all_libs,
    (forall k v, In (k, v) all_libs ->
       (k = now /\ v = Path_str path)
       \/ (In k (allKeys settings) /\ v = value settings k
           /\ Path_eqb v path = false)) ->
    (forall k, In k keys -> In k (allKeys settings)) ->
    forall k v, In (k, v) (collect_libs Path_eqb settings path keys all_libs) ->
      (k = now /\ v = Path_str path)
      \/ (In k (allKeys settings) /\ v = value settings k /\ Path_eqb v path = false).
Proof.
  induction keys as [| item_key r IH]; intros all_libs Hall Hkeys; simpl; [exact Hall |].
  apply IH; [| intros k Hk; apply Hkeys; now right].
  intros k v Hin.
  destruct (Path_eqb (value settings item_key) path) eqn:Ep; cbn [negb] in Hin;
    [now apply Hall |].
  apply assign_In in Hin. destruct Hin as [[-> ->] | Hin]; [| now apply Hall].
  right. split; [apply Hkeys; now left |]. auto.
Qed.

(** Once the stored item under the new key has been read, the dict holds
    its value under that key and keeps it. *)
Lemma collect_libs_keeps_collision (keys : list string) :
  forall all_libs,
    NoDup (map fst all_libs) ->
    (forall v, In (now, v) all_libs -> v = value settings now) ->
    forall v, In (now, v) (collect_libs Path_eqb settings path keys all_libs) ->
              v = value settings now.
Proof.
  induction keys as [| item_key r IH]; intros all_libs Hnd Hnow; simpl; [exact Hnow |].
  apply IH.
  - destruct (negb (Path_eqb (value settings item_key) path));
      [now apply assign_keys_NoDup | exact Hnd].
  - intros v Hin.
    destruct (negb (Path_eqb (value settings item_key) path)); [| now apply Hnow].
    apply assign_In in Hin. destruct Hin as [[<- ->] | Hin]; [reflexivity | now apply Hnow].
Qed.

Lemma collect_libs_collision (keys : list string) :
  Path_eqb (value settings now) path = false ->
  In now keys ->
  forall all_libs,
    NoDup (map fst all_libs) ->
    forall v, In (now, v) (collect_libs Path_eqb settings path keys all_libs) ->
              v = value settings now.
Proof.
  intros Hp. induction keys as [| item_key r IH]; intros Hin all_libs Hnd; [destruct Hin |].
  simpl.
  destruct (String.eqb_spec item_key now) as [-> | Hne].
  - rewrite Hp. cbn [negb].
    apply collect_libs_keeps_collision; [now apply assign_keys_NoDup |].
    intros v Hv. now apply (assign_lookup _ _ _ _ Hnd Hv).
  - destruct Hin as [E | Hin]; [congruence |].
    apply IH; [exact Hin |].
    destruct (negb (Path_eqb (value settings item_key) path));
      [now apply assign_keys_NoDup | exact Hnd].
Qed.

Lemma update_libs_list_In (k v : string) :
  In (k, v) (update_libs_list Path_eqb Path_str now path settings) ->
  In (k, v) (collect_libs Path_eqb settings path (allKeys settings)
               [(now, Path_str path)]).
Proof.
  rewrite update_libs_list_stored. intros Hin.
  apply In_firstn in Hin.
  apply (Permutation_in _ (sorted_desc_perm _)). exact Hin.
Qed.

End RecentLibrariesOrigin.

(** X15.  The list of recent libraries never holds an invented or altered
    item: each item is the one written for the opened path under the new
    key, or a stored key with its stored value, of another path.  When the
    new key is already the key of a stored library of another path, that
    library keeps the key and the opened library is not in the list at
    all. *)
Theorem update_libs_list_items (Path_eqb : string -> string -> bool)
    (Path_str : string -> string) (now path : string) (settings : settings_group) :
  (forall k v,
      In (k, v) (update_libs_list Path_eqb Path_str now path settings) ->
      (k = now /\ v = Path_str path)
      \/ (In k (allKeys settings) /\ v = value settings k /\ Path_eqb v path = false))
  /\ (In now (allKeys settings) ->
      Path_eqb (value settings now) path = false ->
      forall k v,
        In (k, v) (update_libs_list Path_eqb Path_str now path settings) ->
        Path_eqb v path = false).
Proof.
  assert (Horigin : forall k v,
             In (k, v) (update_libs_list Path_eqb Path_str now path settings) ->
             (k = now /\ v = Path_str path)
             \/ (In k (allKeys settings) /\ v = value settings k
                 /\ Path_eqb v path = false)).
  { intros k v Hin. apply update_libs_list_In in Hin.
    apply (collect_libs_origin Path_eqb Path_str now path settings
             (allKeys settings) [(now, Path_str path)]); auto.
    intros k' v' [[= <- <-] | []]. now left. }
  split; [exact Horigin |].
  intros Hnow Hp k v Hin.
  destruct (Horigin k v Hin) as [[-> ->] | [_ [_ H]]]; [| exact H].
  apply update_libs_list_In in Hin.
  apply (collect_libs_collision Path_eqb now path settings (allKeys settings) Hp Hnow)
    in Hin.
  - now rewrite Hin.
  - repeat constructor. intros [].
Qed.

Lemma update_libs_list_items_witness :
  update_libs_list String.eqb (fun s => s) "1700000000.5" "/new"
    [("1700000000.5", "/a")]
  = [("1700000000.5", "/a")]
  /\ String.eqb "/a" "/new" = false.
Proof.
  split; [reflexivity |].
  apply (proj2 (update_libs_list_items String.eqb (fun s => s) "1700000000.5" "/new"
                  [("1700000000.5", "/a")])
           (or_introl eq_refl) eq_refl "1700000000.5" "/a").
  now left.
Defined.

(** ** Removing a recent library *)

Lemma ascii_compare_refl (c : ascii) : Ascii.compare c c = Eq.
Proof.
  pose proof (Ascii.compare_antisym c c) as H.
  destruct (Ascii.compare c c); simpl in H; congruence.
Qed.

(** A key below [a] in the settings tree ([a/...]) is not before [a] in
    the order of the keys. *)
Lemma prefix_not_before (a : string) :
  forall k, String.prefix (a ++ "/") k = true -> String.ltb k a = false.
Proof.
  induction a as [| c a' IH]; intros k H.
  - unfold String.ltb. destruct k; reflexivity.
  - destruct k as [| c' k']; [discriminate |].
    cbn [String.append String.prefix] in H.
    destruct (Ascii.ascii_dec c c') as [<- | Hne]; [| discriminate].
    specialize (IH k' H). unfold String.ltb in *. cbn [String.compare].
    rewrite ascii_compare_refl. exact IH.
Qed.

Lemma insert_desc_top (x : string * string) (l : list (string * string)) :
  (forall y, In y l -> String.ltb (fst x) (fst y) = false) ->
  insert_desc x l = x :: l.
Proof.
  destruct l as [| y r]; intros H; simpl; [reflexivity |].
  rewrite (H y) by now left. reflexivity.
Qed.

Lemma filter_keeps_all {A} (f : A -> bool) (l : list A) :
  (forall x, In x l -> f x = true) -> List.filter f l = l.
Proof.
  induction l as [| x r IH]; intros H; simpl; [reflexivity |].
  rewrite (H x) by now left. f_equal. apply IH. intros y Hy. apply H. now right.
Qed.

(** X16.  Opening a library and then removing the entry just written
    gives the four most recent of the other libraries: with distinct stored
    keys, all before the new key, the removal takes away the new entry and
    nothing else. *)
Theorem remove_recent_library_after_open (Path_eqb : string -> string -> bool)
    (Path_str : string -> string) (now path : string) (settings : settings_group) :
  now <> EmptyString ->
  NoDup (allKeys settings) ->
  (forall k, In k (allKeys settings) -> String.ltb k now = true) ->
  remove_recent_library now (update_libs_list Path_eqb Path_str now path settings)
  = firstn 4
      (sorted_desc (List.filter (fun kv => negb (Path_eqb (snd kv) path)) settings)).
Proof.
  intros Hne Hnd Hlt.
  assert (Hnow : ~ In now (allKeys settings)).
  { intros Hin. apply Hlt in Hin. rewrite ltb_irrefl in Hin. discriminate. }
  rewrite update_libs_list_stored.
  rewrite (collect_libs_fresh Path_eqb now path settings Hnd Hnow
             settings [] [(now, Path_str path)] eq_refl)
    by (intros k [<- | []]; now left).
  cbn [app sorted_desc].
  set (others := List.filter (fun kv => negb (Path_eqb (snd kv) path)) settings).
  assert (Hkeys : forall y, In y (sorted_desc others) -> String.ltb (fst y) now = true).
  { intros y Hy. apply (Permutation_in _ (sorted_desc_perm _)) in Hy.
    apply filter_In in Hy. destruct Hy as [Hy _].
    apply Hlt. now apply (in_map fst). }
  rewrite insert_desc_top
    by (intros y Hy; cbn [fst]; apply ltb_asym; now apply Hkeys).
  change item_limit with 5%nat. rewrite firstn_cons.
  unfold remove_recent_library, settings_remove.
  destruct now as [| c now'] eqn:En; [congruence |]. rewrite <- En in *.
  cbn [List.filter fst]. unfold below_key at 1. rewrite String.eqb_refl. cbn [orb negb].
  apply filter_keeps_all. intros [k v] Hin. cbn [fst].
  apply In_firstn in Hin. specialize (Hkeys _ Hin). cbn [fst] in Hkeys.
  unfold below_key.
  destruct (String.eqb_spec k now) as [-> | _];
    [rewrite ltb_irrefl in Hkeys; discriminate |].
  destruct (String.prefix (now ++ "/") k) eqn:Ep; [| reflexivity].
  apply prefix_not_before in Ep. congruence.
Qed.

Lemma remove_recent_library_after_open_witness :
  remove_recent_library "1700000009.5"
    (update_libs_list String.eqb (fun s => s) "1700000009.5" "/b"
       [("1700000001.0", "/a"); ("1700000002.0", "/b"); ("1700000003.0", "/c")])
  = firstn 4
      (sorted_desc
         (List.filter (fun kv => negb (String.eqb (snd kv) "/b"))
            [("1700000001.0", "/a"); ("1700000002.0", "/b"); ("1700000003.0", "/c")])).
Proof.
  apply remove_recent_library_after_open.
  - discriminate.
  - repeat constructor; simpl; intuition discriminate.
  - intros k [<- | [<- | [<- | []]]]; reflexivity.
Defined.

(** ** Workers that have ended *)

Module ThumbQueueWorkers.

Import ThumbQueue.

Lemma step_keeps_done (a : action) (s s' : state) :
  step a s = Some s' ->
  (workers s <> [] -> List.length (workers s') = List.length (workers s))
  /\ forall n, nth_error (workers s) n = Some WDone ->
               nth_error (workers s') n = Some WDone.
Proof.
  destruct a as [t | cpus | c | | n | n r]; simpl.
  - intros [= <-]. simpl. auto.
  - destruct (control s); try discriminate. intros [= <-]. simpl.
    destruct (workers s) as [| w ws]; [| auto].
    split; [congruence |]. intros [| n] H; discriminate.
  - destruct (control s); try discriminate. intros [= <-]. simpl. auto.
  - unfold control_step.
    destruct (control s); try discriminate;
      try (intros [= <-]; simpl; now auto);
      destruct (mutex s); try discriminate; intros [= <-]; simpl; auto.
  - unfold worker_step.
    destruct (nth_error (workers s) n) as [pc |] eqn:En; [| discriminate].
    assert (Hset : forall x m,
               pc <> WDone ->
               nth_error (workers s) m = Some WDone ->
               nth_error (list_set (workers s) n x) m = Some WDone).
    { intros x m Hpc Hm. rewrite nth_error_list_set_neq; [exact Hm |].
      intros ->. congruence. }
    destruct pc as [| | item | j |]; try discriminate.
    + destruct (mutex s); [discriminate |]. intros [= <-]. simpl.
      split; [intros _; apply length_list_set |]. intros m. apply Hset. discriminate.
    + destruct (queue s); intros [= <-]; simpl;
        (split; [intros _; apply length_list_set |]); intros m; apply Hset; discriminate.
    + intros [= <-]. simpl.
      split; [intros _; apply length_list_set |]. intros m. apply Hset. discriminate.
  - unfold render_ends.
    destruct (nth_error (workers s) n) as [[| | item | j |] |] eqn:En; try discriminate.
    intros [= <-]. simpl. split; [intros _; apply length_list_set |].
    intros m Hm. rewrite nth_error_list_set_neq; [exact Hm |].
    intros ->. congruence.
Qed.

Lemma all_done_no_step (s : state) (n : nat) :
  (forall m pc, nth_error (workers s) m = Some pc -> pc = WDone) ->
  step (WorkerStep n) s = None /\ forall r, step (RenderEnds n r) s = None.
Proof.
  intros H. simpl. unfold worker_step, render_ends.
  destruct (nth_error (workers s) n) as [pc |] eqn:En; [| auto].
  rewrite (H n pc En). auto.
Qed.

Lemma length_zero_nil {A} (l : list A) : List.length l = 0%nat -> l = [].
Proof. destruct l; [reflexivity | discriminate]. Qed.

(** X17.  The pool never recovers a worker.  [init_workers] starts the
    threads only while there is none, so along every run of the threads,
    calls of [init_workers] included, a pool that has been started keeps its
    size and a worker whose loop has ended, at the quit marker or on an
    exception other than [RuntimeError], stays ended.  Once every worker of
    the pool has ended, none of them can take a step: no item leaves the
    queue for a render call any more. *)
Theorem ended_workers_stay_ended (acts : list action) :
  forall s s',
    run acts s = Some s' ->
    (workers s <> [] -> List.length (workers s') = List.length (workers s))
    /\ (forall n, nth_error (workers s) n = Some WDone ->
                  nth_error (workers s') n = Some WDone)
    /\ (workers s <> [] ->
        (forall m pc, nth_error (workers s) m = Some pc -> pc = WDone) ->
        forall n,
          step (WorkerStep n) s' = None
          /\ forall r, step (RenderEnds n r) s' = None).
Proof.
  induction acts as [| a r IH]; intros s s'; simpl.
  - intros [= <-]. split; [reflexivity |]. split; [auto |].
    intros _ H n. now apply all_done_no_step.
  - destruct (step a s) as [s1 |] eqn:Es; [| discriminate].
    intros Hrun. destruct (step_keeps_done a s s1 Es) as [Hlen Hdone].
    destruct (IH s1 s' Hrun) as [Hlen' [Hdone' Hall']].
    assert (Hne1 : workers s <> [] -> workers s1 <> []).
    { intros Hne E. apply Hne, length_zero_nil.
      rewrite <- (Hlen Hne), E. reflexivity. }
    split; [intros Hne; rewrite (Hlen' (Hne1 Hne)); now apply Hlen |].
    split; [auto |].
    intros Hne H. apply Hall'; [now apply Hne1 |]. intros m pc Hm.
    destruct (nth_error (workers s) m) as [pc0 |] eqn:E0.
    + rewrite (H m pc0 E0) in E0. rewrite (Hdone m E0) in Hm. congruence.
    + apply nth_error_None in E0.
      assert (nth_error (workers s1) m = None)
        by (apply nth_error_None; rewrite (Hlen Hne); exact E0).
      congruence.
Qed.

(** The pool of the witness is reached from the start of the program. *)
Example dead_pool_reached : run worker_dies_trace (init 7) = Some dead_pool.
Proof. reflexivity. Qed.

Lemma ended_workers_stay_ended_witness :
  List.length (workers dead_pool_with_job) = 1%nat
  /\ nth_error (workers dead_pool_with_job) 0 = Some WDone
  /\ queue dead_pool_with_job = [Job (placeholder_job (128, 128) (1 # 1)%Q 0)]
  /\ step (WorkerStep 0) dead_pool_with_job = None
  /\ (forall r, step (RenderEnds 0 r) dead_pool_with_job = None).
Proof.
  destruct (ended_workers_stay_ended reopen_trace dead_pool dead_pool_with_job eq_refl)
    as [Hlen [Hdone Hstuck]].
  split; [apply Hlen; discriminate |].
  split; [apply Hdone; reflexivity |].
  split; [reflexivity |].
  apply Hstuck; [discriminate |].
  intros [| m] pc H; [now injection H as <- | destruct m; discriminate].
Defined.

End ThumbQueueWorkers.

(** ** The macro menu *)

Lemma menu_after_viability (m : M unit) (d : QtDriver) :
  result (m ;; set_macro_menu_viability) d = Return tt ->
  menu_matches (exec (m ;; set_macro_menu_viability) d).
Proof.
  unfold result, exec, bind. destruct (m d) as [d1 [u | e]]; simpl; [| discriminate].
  intros _. unfold menu_matches. reflexivity.
Qed.

(** X18.  The macro menu follows the selection through the selection
    methods: after a click, select all or clear selection that returns, the
    autofill action is disabled exactly when nothing is selected.  Closing
    the library empties the selection without telling the menu: if something
    was selected, the action stays enabled over an empty selection. *)
Theorem macro_menu_follows_selection (lib_close : Library -> Library) :
  (forall d i append bridge,
      result (select_item i append bridge) d = Return tt ->
      menu_matches (exec (select_item i append bridge) d))
  /\ (forall d,
        result select_all_action_callback d = Return tt ->
        menu_matches (exec select_all_action_callback d))
  /\ (forall d, menu_matches (exec clear_select_action_callback d))
  /\ (forall d,
        menu_matches d ->
        selected d <> [] ->
        library_dir (lib d) <> None ->
        selected (exec (close_library lib_close false) d) = []
        /\ autofill_disabled (exec (close_library lib_close false) d) = false).
Proof.
  split; [| split; [| split]].
  - intros d i append bridge H.
    unfold select_item, result in H. unfold bind at 1 in H. unfold gets at 1 in H.
    unfold select_item, exec. unfold bind at 1. unfold gets at 1.
    revert H. apply menu_after_viability.
  - intros d H.
    unfold select_all_action_callback, result in H.
    unfold bind at 1 in H. unfold gets at 1 in H.
    unfold bind at 1 in H. unfold modify at 1 in H.
    unfold select_all_action_callback, exec.
    unfold bind at 1. unfold gets at 1.
    unfold bind at 1. unfold modify at 1.
    revert H. apply menu_after_viability.
  - intros d. reflexivity.
  - intros d Hm Hsel Hdir. unfold exec, close_library, bind, gets, modify.
    destruct (library_dir (lib d)); [| congruence]. simpl.
    split; [reflexivity |].
    unfold menu_matches in Hm. destruct (selected d); [congruence | exact Hm].
Qed.

Lemma macro_menu_follows_selection_witness :
  selected (exec (close_library (fun l => l) false)
              (exec (select_item 2 false false) grid_two_entries)) = []
  /\ autofill_disabled
       (exec (close_library (fun l => l) false)
          (exec (select_item 2 false false) grid_two_entries)) = false.
Proof.
  apply (proj2 (proj2 (proj2 (macro_menu_follows_selection (fun l => l))))).
  - reflexivity.
  - discriminate.
  - discriminate.
Defined.

(** ** The selection and the frame *)

Lemma remove_grid_item_frame (d : QtDriver) (n : nat) :
  (n < List.length (frame_content d))%nat ->
  frame_content (exec (remove_grid_item (Z.of_nat n)) d)
  = list_set (frame_content d) n None
  /\ selected (exec (remove_grid_item (Z.of_nat n)) d) = selected d.
Proof.
  intros Hn. unfold exec, remove_grid_item, bind, gets, modify.
  rewrite (py_index_nat _ _ Hn).
  cbn [item_thumbs with_frame_content].
  destruct (py_index (List.length (item_thumbs d)) (Z.of_nat n)) as [k |];
    [| split; reflexivity].
  destruct (nth_error (item_thumbs d) k); split; reflexivity.
Qed.

(** X19.  On a frame without emptied slots, with every selected index on a
    populated slot, the selection stays on populated slots through a click
    on a populated slot in any mode, select all, clear selection and the
    closing of the library.  Removing a selected item of the grid breaks
    this: the slot is emptied and its index stays selected, whether the
    method returns or raises. *)
Theorem selection_stays_within_frame (lib_close : Library -> Library) (d : QtDriver) :
  frame_dense d = true ->
  selection_within_frame d = true ->
  (forall i append bridge,
      populated_index d i = true ->
      selection_within_frame (exec (select_item i append bridge) d) = true)
  /\ selection_within_frame (exec select_all_action_callback d) = true
  /\ selection_within_frame (exec clear_select_action_callback d) = true
  /\ (forall is_shutdown,
        selection_within_frame (exec (close_library lib_close is_shutdown) d) = true)
  /\ (forall n,
        In (Z.of_nat n) (selected d) ->
        selection_within_frame (exec (remove_grid_item (Z.of_nat n)) d) = false).
Proof.
  intros Hd Hs.
  split; [intros; now apply select_item_within_frame |].
  split; [now apply select_all_within_frame |].
  split; [apply clear_select_within_frame |].
  split; [intros; now apply close_library_within_frame |].
  intros n Hin.
  assert (Hn : (n < List.length (frame_content d))%nat).
  { rewrite selection_within_frame_spec in Hs. specialize (Hs _ Hin).
    apply (populated_index_dense d _ Hd) in Hs. lia. }
  destruct (remove_grid_item_frame d n Hn) as [Hfc Hsel].
  destruct (selection_within_frame (exec (remove_grid_item (Z.of_nat n)) d)) eqn:E;
    [| reflexivity].
  rewrite selection_within_frame_spec in E.
  rewrite Hsel in E. specialize (E _ Hin).
  unfold populated_index in E. rewrite Hfc, Nat2Z.id in E.
  destruct (nth_error_in_range (frame_content d) n Hn) as [x Hx].
  rewrite (nth_error_list_set_eq _ _ _ _ Hx) in E.
  rewrite Bool.andb_false_r in E. discriminate.
Qed.

Lemma selection_stays_within_frame_witness :
  (forall i append bridge,
      populated_index grid_last_selected i = true ->
      selection_within_frame (exec (select_item i append bridge) grid_last_selected)
      = true)
  /\ selection_within_frame (exec select_all_action_callback grid_last_selected) = true
  /\ selection_within_frame (exec clear_select_action_callback grid_last_selected) = true
  /\ (forall is_shutdown,
        selection_within_frame
          (exec (close_library (fun l => l) is_shutdown) grid_last_selected) = true)
  /\ (forall n,
        In (Z.of_nat n) (selected grid_last_selected) ->
        selection_within_frame (exec (remove_grid_item (Z.of_nat n)) grid_last_selected)
        = false).
Proof.
  apply (selection_stays_within_frame (fun l => l) grid_last_selected); reflexivity.
Defined.

(** ** Opening the same library again *)




